(** * aistand: commit aggregation, model catalogue and resilient generation

    A shallow embedding of the command line tool's functional core (the
    [GoogleGenAI] variant of the program: [fetchCommits],
    [getResolvedModelPreference], [callWithRetries], [generateSummary],
    [extractJiraTickets], [main]) and the properties proved about it.

    Conventions of the embedding.
    - A JavaScript string is a [string]: the sequence of its UTF-16 code
      units, each below 256.  Default [Array.prototype.sort] compares code
      units, which is [String.compare] here.
    - A JavaScript number that the program uses as a score is a binary64
      [float]; counters, delays and status codes are integers ([nat], [Z]).
    - [async] functions run strictly one after the other (the program awaits
      every call), so a promise is the outcome it settles to, and the module
      level [let] variables are fields of an explicit [World].
    - What the outside answers (git, the provider) is an [Env] of oracles.
      Every call to the outside, every sleep and every [console.warn] is
      appended to the world's trace; the lines of [console.log] are not
      modelled.
    - What depends on the clock ([calculateDateRange],
      [getDateRelativeText]) is a parameter of the functions that use it. *)

From Stdlib Require Import List String Ascii Bool Arith ZArith Lia.
From Stdlib Require Import Sorting.Sorted Sorting.Permutation.
From Stdlib Require Import Floats.
Import ListNotations.

Open Scope string_scope.
Open Scope list_scope.

(** JavaScript's string concatenation (template literals and [+]). *)
Notation "a +++ b" := (String.append a b) (at level 60, right associativity).

(* ================================================================== *)
(** * JavaScript strings *)
(* ================================================================== *)

Module JsString.

(** The line feed, written ['\n'] in the source. *)
Definition LF : string := String (ascii_of_nat 10) "".

Definition code (c : ascii) : nat := nat_of_ascii c.

Definition between (lo hi : nat) (c : ascii) : bool :=
  (lo <=? code c)%nat && (code c <=? hi)%nat.

(** WhiteSpace and LineTerminator code units below 256: TAB, LF, VT, FF,
    CR, SP and NBSP. *)
Definition isWhiteSpace (c : ascii) : bool :=
  between 9 13 c || (code c =? 32)%nat || (code c =? 160)%nat.

Definition isUpper (c : ascii) : bool := between 65 90 c.
Definition isLower (c : ascii) : bool := between 97 122 c.
Definition isDigit (c : ascii) : bool := between 48 57 c.

(** [\w] of a regular expression without the unicode flag. *)
Definition isWordChar (c : ascii) : bool :=
  isUpper c || isLower c || isDigit c || (code c =? 95)%nat.

(** A string is truthy when it is not empty. *)
Definition truthy (s : string) : bool := negb (s =? "").

Fixpoint trimStart (s : string) : string :=
  match s with
  | "" => ""
  | String c s' => if isWhiteSpace c then trimStart s' else s
  end.

Fixpoint trimEnd (s : string) : string :=
  match s with
  | "" => ""
  | String c s' =>
      let t := trimEnd s' in
      if (t =? "") && isWhiteSpace c then "" else String c t
  end.

Definition trim (s : string) : string := trimEnd (trimStart s).

(** [s.includes(sub)] *)
Fixpoint includes (s sub : string) : bool :=
  prefix sub s ||
  match s with
  | "" => false
  | String _ s' => includes s' sub
  end.

(** [s.endsWith(suffix)] *)
Fixpoint endsWith (s suffix : string) : bool :=
  (s =? suffix) ||
  match s with
  | "" => false
  | String _ s' => endsWith s' suffix
  end.

(** Lower case of a code unit below 256: A-Z, and the Latin-1 capitals
    U+00C0..U+00DE without the multiplication sign U+00D7. *)
Definition lowerChar (c : ascii) : ascii :=
  if isUpper c || (between 192 222 c && negb (code c =? 215)%nat)
  then ascii_of_nat (code c + 32)%nat
  else c.

Fixpoint toLowerCase (s : string) : string :=
  match s with
  | "" => ""
  | String c s' => String (lowerChar c) (toLowerCase s')
  end.

Fixpoint chars (s : string) : list string :=
  match s with
  | "" => []
  | String c s' => String c "" :: chars s'
  end.

(** The scan of [s.split(sep)] for a non-empty separator: [cur] is the
    piece being read, [skip] the number of code units of a separator that
    was just recognised and is still to be stepped over. *)
Fixpoint split_go (sep : string) (skip : nat) (cur s : string) : list string :=
  match s with
  | "" => [cur]
  | String c s' =>
      match skip with
      | S k => split_go sep k cur s'
      | O =>
          if prefix sep s
          then cur :: split_go sep (String.length sep - 1)%nat "" s'
          else split_go sep 0 (cur +++ String c "") s'
      end
  end.

(** [s.split(sep)] *)
Definition split (sep s : string) : list string :=
  if sep =? "" then chars s else split_go sep 0 "" s.

(** [list.join(sep)] on strings. *)
Definition join (sep : string) (l : list string) : string :=
  String.concat sep l.

(** A stable sort by a comparator: [gt x y] says that the comparator
    orders [x] after [y] (it returned a positive number). *)
Fixpoint insertBy {A} (gt : A -> A -> bool) (x : A) (l : list A) : list A :=
  match l with
  | [] => [x]
  | y :: l' => if gt x y then y :: insertBy gt x l' else x :: l
  end.

Definition sortBy {A} (gt : A -> A -> bool) (l : list A) : list A :=
  fold_right (insertBy gt) [] l.

(** [list.sort()] with no comparator, on strings: code unit order. *)
Definition sort (l : list string) : list string :=
  sortBy (fun x y => String.ltb y x) l.

(** A [Set] of strings keeps its members in insertion order. *)
Definition StrSet := list string.

Definition setHas (s : StrSet) (x : string) : bool :=
  existsb (String.eqb x) s.

Definition setAdd (s : StrSet) (x : string) : StrSet :=
  if setHas s x then s else s ++ [x].

Definition setOfList (l : list string) : StrSet :=
  fold_left setAdd l [].

End JsString.

Import JsString.

(* ================================================================== *)
(** * Errors, outcomes and the outside world *)
(* ================================================================== *)

(** A status found on an error object: a number (HTTP status) or a string
    (gRPC status name). *)
Inductive StatusVal : Type :=
| SNum (n : Z)
| SStr (s : string).

(** The fields of a thrown value that the program inspects.  An absent
    field ([undefined]) is [None]. *)
Record JsError : Type := mkJsError {
  err_status : option StatusVal;
  err_code : option StatusVal;
  err_causeStatus : option StatusVal;
  err_responseStatus : option StatusVal;
  err_message : option string;
  err_stderr : option string
}.

(** [new Error(message)] *)
Definition newError (message : string) : JsError :=
  mkJsError None None None None (Some message) None.

Inductive Outcome (A : Type) : Type :=
| Returned (a : A)
| Thrown (e : JsError).
Arguments Returned {A} a.
Arguments Thrown {A} e.

(** What [execa('git', args, { cwd })] settles to. *)
Inductive ExecResult : Type :=
| ExecOk (stdout : string)
| ExecFail (e : JsError).

(** One part of a generation response ([part?.text]). *)
Record Part : Type := mkPart { part_text : option string }.
Record Content : Type := mkContent { parts : option (list (option Part)) }.
Record Candidate : Type := mkCandidate { content : option Content }.
Record Response : Type := mkResponse {
  text : option string;
  candidates : option (list (option Candidate))
}.

(** The payload of [aiClient.models.generateContent]. *)
Record Request : Type := mkRequest {
  req_model : string;
  req_userPrompt : string;
  req_systemPrompt : string
}.

(** What [aiClient.models.list] and the iteration of its pager settle to:
    the [name] of every model listed ([None] when a model has none), or a
    failure somewhere on the way. *)
Inductive ListResult : Type :=
| ListOk (names : list (option string))
| ListFail (e : JsError).

Inductive GenResult : Type :=
| GenOk (r : Response)
| GenFail (e : JsError).

(** The lines written with [console.warn]. *)
Inductive Warning : Type :=
| WarnBranchNotFound (branch : string)
| WarnRecentBranches
| WarnModelListing
| WarnRetry (attempt : nat) (waitTime : Z)
| WarnModelUnavailable (model : string) (message : option string).

(** What the program does to the outside, in the order it does it. *)
Inductive Event : Type :=
| EvGit (args : list string) (cwd : option string)
| EvListModels
| EvGenerate (req : Request)
| EvSleep (ms : Z)
| EvWarn (w : Warning).

(** The outside.  Git answers by the command line alone (the repository does
    not change during a run).  The provider answers by the request and by
    the number of requests of that kind it has seen before, so that two
    equal requests may be answered differently. *)
Record Env : Type := mkEnv {
  execaGit : list string -> option string -> ExecResult;
  modelsList : nat -> ListResult;
  generateContent : nat -> Request -> GenResult
}.

(** The module level constants computed from the command line and the
    process environment. *)
Record Config : Type := mkConfig {
  demoMode : bool;
  aiClient : bool;                    (* is [aiClient] defined *)
  requestedModel : option string;
  recentBranchesCount : nat;
  optPath : option string               (* [options.path] *)
}.

(** The module level [let] variables, and the trace. *)
Record World : Type := mkWorld {
  availableModelInfoPromise : option (Outcome (option (list string)));
  resolvedModelPreferencePromise : option (Outcome (list string));
  modelListingWarningLogged : bool;
  trace : list Event
}.

Definition initialWorld : World := mkWorld None None false [].

Definition isListModels (e : Event) : bool :=
  match e with EvListModels => true | _ => false end.

Definition isGenerate (e : Event) : bool :=
  match e with EvGenerate _ => true | _ => false end.

Definition isProviderCall (e : Event) : bool :=
  isListModels e || isGenerate e.

Definition countEvents (p : Event -> bool) (w : World) : nat :=
  List.length (filter p (trace w)).

(** ** The monad of the program: state and exceptions *)

Definition M (A : Type) : Type := World -> Outcome A * World.

Definition ret {A} (a : A) : M A := fun w => (Returned a, w).

Definition throw {A} (e : JsError) : M A := fun w => (Thrown e, w).

Definition bind {A B} (m : M A) (k : A -> M B) : M B :=
  fun w =>
    match m w with
    | (Returned a, w') => k a w'
    | (Thrown e, w') => (Thrown e, w')
    end.

(** [try { m } catch (error) { handler error }] *)
Definition tryCatch {A} (m : M A) (handler : JsError -> M A) : M A :=
  fun w =>
    match m w with
    | (Returned a, w') => (Returned a, w')
    | (Thrown e, w') => handler e w'
    end.

Definition emit (e : Event) : M unit :=
  fun w =>
    (Returned tt,
     mkWorld (availableModelInfoPromise w) (resolvedModelPreferencePromise w)
             (modelListingWarningLogged w) (trace w ++ [e])).

Definition warn (x : Warning) : M unit := emit (EvWarn x).

Declare Scope js_scope.
Delimit Scope js_scope with js.
Notation "x <- m ;; k" := (bind m (fun x => k))
  (at level 100, m at next level, right associativity) : js_scope.
Notation "m ;;; k" := (bind m (fun _ => k))
  (at level 100, right associativity) : js_scope.
Open Scope js_scope.

(** [await execa('git', args, { cwd })]: the [stdout] of the result, or the
    error thrown. *)
Definition execa (env : Env) (args : list string) (cwd : option string)
  : M string :=
  emit (EvGit args cwd) ;;;
  match execaGit env args cwd with
  | ExecOk stdout => ret stdout
  | ExecFail e => throw e
  end.

(** [error.stderr && error.stderr.includes(needle)] *)
Definition stderrIncludes (e : JsError) (needle : string) : bool :=
  match err_stderr e with
  | Some s => truthy s && includes s needle
  | None => false
  end.

(* ================================================================== *)
(** * Git: identity, branches and commit aggregation *)
(* ================================================================== *)

Module Git.

Record GitUser : Type := mkGitUser { user_name : string; user_email : string }.

(** The result of [calculateDateRange]. *)
Record DateRange : Type := mkDateRange {
  dr_start : string;
  dr_end : string;
  dr_displayDate : string
}.

(** A commit of the aggregation: [branches] is a [Set] while the branches
    are scanned and a sorted array in the value returned. *)
Record Commit : Type := mkCommit {
  message : string;
  date : string;
  hash : string;
  branches : list string
}.

Definition userConfigError : string :=
  "Could not get Git user configuration. Make sure you're in a Git repository and have configured user.name and user.email.".

Definition notARepositoryError : string :=
  "Not a Git repository. Please run this command from within a Git repository.".

Definition currentBranchError : string :=
  "Could not determine the current Git branch.".

Definition getGitUser (env : Env) : M GitUser :=
  tryCatch
    (name <- execa env ["config"; "user.name"] None ;;
     email <- execa env ["config"; "user.email"] None ;;
     ret (mkGitUser (trim name) (trim email)))
    (fun _ => throw (newError userConfigError)).

Definition getCurrentBranch (env : Env) (repoPath : string) : M string :=
  tryCatch
    (stdout <- execa env ["rev-parse"; "--abbrev-ref"; "HEAD"] (Some repoPath) ;;
     ret (trim stdout))
    (fun error =>
       if stderrIncludes error "not a git repository"
       then throw (newError notARepositoryError)
       else throw (newError currentBranchError)).

Definition getRecentLocalBranches (env : Env) (repoPath excludeBranch : string)
    (limit : nat) : M (list string) :=
  if (limit =? 0)%nat then ret []
  else
    tryCatch
      (stdout <- execa env
                   ["for-each-ref";
                    "--format=%(refname:short)|%(committerdate:unix)";
                    "--sort=-committerdate";
                    "refs/heads"] (Some repoPath) ;;
       if negb (truthy (trim stdout)) then ret []
       else
         ret (firstn limit
                (filter (fun branch => truthy branch && negb (branch =? excludeBranch)%string)
                   (map (fun line => hd "" (split "|" line))
                      (split LF (trim stdout))))))
      (fun _ => warn WarnRecentBranches ;;; ret []).

(** The arguments of the history query of one branch. *)
Definition logArgs (author : string) (dateRange : DateRange) (branch : string)
  : list string :=
  ["log";
   branch;
   "--author=" +++ author;
   "--since=" +++ dr_start dateRange;
   "--until=" +++ dr_end dateRange;
   "--pretty=format:%H%n%ad%n%s%n%b%n---COMMIT_SEPARATOR---%n";
   "--date=short";
   "--no-merges"].

Definition commitSeparator : string := "---COMMIT_SEPARATOR---" +++ LF.

(** [commitsByHash.has(hash)]: the [Map] is the list of its values in
    insertion order, each value carrying its key. *)
Definition mapHas (commitsByHash : list Commit) (h : string) : bool :=
  existsb (fun c => (hash c =? h)%string) commitsByHash.

(** [commitsByHash.get(hash).branches.add(branch)], in place. *)
Definition mapAddBranch (commitsByHash : list Commit) (h branch : string)
  : list Commit :=
  map (fun c =>
         if (hash c =? h)%string
         then mkCommit (message c) (date c) (hash c) (setAdd (branches c) branch)
         else c)
      commitsByHash.

(** The body of the loop over the blocks of one branch. *)
Definition recordBlock (branch : string) (commitsByHash : list Commit)
    (block : string) : list Commit :=
  let lines := split LF (trim block) in
  if (3 <=? List.length lines)%nat then
    let hash := nth 0 lines "" in
    let date := nth 1 lines "" in
    let subject := nth 2 lines "" in
    let body := trim (join LF (skipn 3 lines)) in
    let fullMessage :=
      if truthy body then subject +++ LF +++ LF +++ body else subject in
    if negb (mapHas commitsByHash hash)
    then commitsByHash ++ [mkCommit fullMessage date hash (setOfList [branch])]
    else mapAddBranch commitsByHash hash branch
  else commitsByHash.

Definition commitBlocks (stdout : string) : list string :=
  filter (fun block => truthy (trim block))
         (split commitSeparator (trim stdout)).

(** The loop over the branches to scan. *)
Fixpoint scanBranches (env : Env) (repoPath author : string)
    (dateRange : DateRange) (branchesToScan : list string)
    (commitsByHash : list Commit) : M (list Commit) :=
  match branchesToScan with
  | [] => ret commitsByHash
  | branch :: rest =>
      queried <-
        tryCatch
          (stdout <- execa env (logArgs author dateRange branch) (Some repoPath) ;;
           ret (Some stdout))
          (fun branchError =>
             if stderrIncludes branchError "unknown revision or path"
             then warn (WarnBranchNotFound branch) ;;; ret None
             else throw branchError) ;;
      match queried with
      | None => scanBranches env repoPath author dateRange rest commitsByHash
      | Some stdout =>
          if negb (truthy (trim stdout))
          then scanBranches env repoPath author dateRange rest commitsByHash
          else scanBranches env repoPath author dateRange rest
                 (fold_left (recordBlock branch) (commitBlocks stdout) commitsByHash)
      end
  end.

(** [{ ...commit, branches: Array.from(commit.branches).sort() }] *)
Definition withSortedBranches (commit : Commit) : Commit :=
  mkCommit (message commit) (date commit) (hash commit) (sort (branches commit)).

(** [fetchCommits(repoPath, author, dateRange, branches = [])]; an absent
    [branches] is [None]. *)
Definition fetchCommits (env : Env) (repoPath author : string)
    (dateRange : DateRange) (branches : option (list string)) : M (list Commit) :=
  tryCatch
    (let branches := match branches with Some l => l | None => [] end in
     let branchesToScan :=
       if (0 <? List.length branches)%nat then branches else ["HEAD"] in
     commitsByHash <- scanBranches env repoPath author dateRange branchesToScan [] ;;
     ret (map withSortedBranches commitsByHash))
    (fun error =>
       if stderrIncludes error "fatal: not a git repository"
       then throw (newError notARepositoryError)
       else ret []).

End Git.

(* ================================================================== *)
(** * The model catalogue *)
(* ================================================================== *)

Module Catalog.

Definition simplifyModelName (name : option string) : option string :=
  match name with
  | None => None
  | Some name =>
      if negb (truthy name) then None
      else
        let trimmed := trim name in
        if negb (truthy trimmed) then None
        else
          let segments := split "/" trimmed in
          Some (last segments "")
  end.

(** The body of the [for await] loop over the pager. *)
Definition addSimplified (simpleNames : StrSet) (name : option string) : StrSet :=
  match simplifyModelName name with
  | Some simplified =>
      if truthy simplified then setAdd simpleNames simplified else simpleNames
  | None => simpleNames
  end.

Definition setWarningLogged (b : bool) : M unit :=
  fun w =>
    (Returned tt,
     mkWorld (availableModelInfoPromise w) (resolvedModelPreferencePromise w)
             b (trace w)).

(** [await aiClient.models.list(...)] together with the iteration of the
    pager: the names listed, or the error thrown on the way. *)
Definition listModels (env : Env) : M (list (option string)) :=
  fun w =>
    let n := countEvents isListModels w in
    (emit EvListModels ;;;
     match modelsList env n with
     | ListOk names => ret names
     | ListFail e => throw e
     end) w.

(** [null] is [None]; [{ simpleNames }] is [Some simpleNames]. *)
Definition loadAvailableModelInfo (env : Env) (cfg : Config)
  : M (option StrSet) :=
  if negb (aiClient cfg) then ret None
  else
    tryCatch
      (names <- listModels env ;;
       ret (Some (fold_left addSimplified names [])))
      (fun _ =>
         fun w =>
           (if negb (modelListingWarningLogged w)
            then warn WarnModelListing ;;; setWarningLogged true ;;; ret None
            else ret None) w).

Definition getAvailableModelInfo (env : Env) (cfg : Config)
  : M (option StrSet) :=
  if negb (aiClient cfg) then ret None
  else
    fun w =>
      match availableModelInfoPromise w with
      | Some settled => (settled, w)
      | None =>
          let (settled, w') := loadAvailableModelInfo env cfg w in
          (settled,
           mkWorld (Some settled) (resolvedModelPreferencePromise w')
                   (modelListingWarningLogged w') (trace w'))
      end.

Definition isExperimentalModel (lowerName : string) : bool :=
  includes lowerName "exp" || includes lowerName "preview" || includes lowerName "beta".

(** ** [extractVersion]: the regular expression [/gemini-(\d+(?:\.\d+)?)/i] *)

(** A code unit matches a lower case ASCII letter of the pattern under the
    [i] flag when it is that letter in either case. *)
Definition eqbIgnoreCase (patternChar c : ascii) : bool :=
  Ascii.eqb patternChar (if isUpper c then ascii_of_nat (code c + 32) else c).

(** Matches the literal [lit] of the pattern at the start of [s] and gives
    the rest of [s]. *)
Fixpoint matchLiteral (lit s : string) : option string :=
  match lit with
  | "" => Some s
  | String p lit' =>
      match s with
      | "" => None
      | String c s' => if eqbIgnoreCase p c then matchLiteral lit' s' else None
      end
  end.

(** [\d*], greedy: the digits read and the rest. *)
Fixpoint takeDigits (s : string) : string * string :=
  match s with
  | "" => ("", "")
  | String c s' =>
      if isDigit c
      then let (ds, rest) := takeDigits s' in (String c ds, rest)
      else ("", s)
  end.

(** The capture group at the start of [s]: the digits before the point
    and the digits after it (empty when [(?:\.\d+)?] matches nothing). *)
Definition matchVersionHere (s : string) : option (string * string) :=
  match matchLiteral "gemini-" s with
  | None => None
  | Some rest =>
      let (intDigits, rest') := takeDigits rest in
      if negb (truthy intDigits) then None
      else
        match rest' with
        | String "."%char rest'' =>
            let (fracDigits, _) := takeDigits rest'' in
            Some (intDigits, fracDigits)
        | _ => Some (intDigits, "")
        end
  end.

(** The leftmost match. *)
Fixpoint matchVersion (s : string) : option (string * string) :=
  match matchVersionHere s with
  | Some m => Some m
  | None =>
      match s with
      | "" => None
      | String _ s' => matchVersion s'
      end
  end.

Fixpoint digitsValue (acc : Z) (ds : string) : Z :=
  match ds with
  | "" => acc
  | String c ds' => digitsValue (10 * acc + Z.of_nat (code c - 48))%Z ds'
  end.

(** The binary64 number nearest to the quotient [n / d] of a natural
    number by a positive one, ties going to the even significand.  The
    quotient is taken with at least 66 significant bits and one more bit
    below them that says whether the division left a remainder; this
    integer decides the rounding as the exact quotient does, and it is
    rounded once. *)
Definition nearestQuotient (n d : Z) : float :=
  if (n =? 0)%Z then 0%float
  else
    let s := Z.max 0 (Z.log2 d - Z.log2 n + 66) in
    let scaled := (n * 2 ^ s)%Z in
    let sticky := if (scaled mod d =? 0)%Z then 0%Z else 1%Z in
    SF2Prim (binary_normalize prec emax (2 * (scaled / d) + sticky) (- (s + 1)) false).

(** [parseFloat] of the decimal numeral [intDigits.fracDigits]: the number
    nearest to the value of the numeral, which is the quotient of the
    numeral without its point by the power of ten; the value is rounded
    once, however many digits there are. *)
Definition parseFloat (intDigits fracDigits : string) : float :=
  nearestQuotient (digitsValue 0 (intDigits +++ fracDigits))
                  (10 ^ Z.of_nat (String.length fracDigits)).

Definition extractVersion (name : string) : float :=
  match matchVersion name with
  | Some (intDigits, fracDigits) => parseFloat intDigits fracDigits
  | None => 0%float
  end.

Definition scoreModelName (name : string) : float :=
  let lower := toLowerCase name in
  let score := 0%float in
  (* Primary tiers *)
  let score :=
    if endsWith lower "-flash" then (score + 10000)%float
    else if includes lower "flash" then (score + 5000)%float
    else score in
  (* Version priority *)
  let version := extractVersion lower in
  let score := (score + version * 1000)%float in
  (* Minor adjustments *)
  let score := if includes lower "latest" then (score + 10)%float else score in
  let score := if isExperimentalModel lower then (score - 30)%float else score in
  let score :=
    if includes lower "8b" || includes lower "lite" || includes lower "mini"
    then (score - 50)%float else score in
  let score := if includes lower "pro" then (score - 100)%float else score in
  score.

(** The comparator [(a, b) => scoreModelName(b) - scoreModelName(a)] orders
    [a] after [b] when it is positive. *)
Definition byScoreDescending (a b : string) : bool :=
  (0 <? scoreModelName b - scoreModelName a)%float.

Definition buildDynamicModelPreference (simpleNames : option StrSet)
  : list string :=
  match simpleNames with
  | None => []
  | Some simpleNames =>
      if (List.length simpleNames =? 0)%nat then []
      else
        let flashModels :=
          filter (fun name =>
                    if negb (truthy name) then false
                    else
                      let lower := toLowerCase name in
                      if negb (includes lower "gemini") || negb (includes lower "flash")
                      then false
                      else negb (isExperimentalModel lower))
                 simpleNames in
        sortBy byScoreDescending flashModels
  end.

(** The loop of [dedupeModelList], with the result and the set [seen]. *)
Fixpoint dedupeLoop (items result : list string) (seen : StrSet) : list string :=
  match items with
  | [] => result
  | item :: rest =>
      if negb (truthy item) then dedupeLoop rest result seen
      else if setHas seen item then dedupeLoop rest result seen
      else dedupeLoop rest (result ++ [item]) (setAdd seen item)
  end.

Definition dedupeModelList (items : list string) : list string :=
  dedupeLoop items [] [].

(** The body of the [async] arrow function whose promise is memoized. *)
Definition resolveModelPreference (env : Env) (cfg : Config) : M (list string) :=
  let discovered : M (list string) :=
    modelInfo <- getAvailableModelInfo env cfg ;;
    match modelInfo with
    | None => ret []
    | Some simpleNames =>
        if (List.length simpleNames =? 0)%nat then ret [] (* Caller will handle empty list *)
        else
          let dynamicList := buildDynamicModelPreference (Some simpleNames) in
          ret (dedupeModelList dynamicList)
    end in
  match requestedModel cfg with
  | Some model => if truthy model then ret [model] else discovered
  | None => discovered
  end.

Definition getResolvedModelPreference (env : Env) (cfg : Config)
  : M (list string) :=
  fun w =>
    match resolvedModelPreferencePromise w with
    | Some settled => (settled, w)
    | None =>
        let (settled, w') := resolveModelPreference env cfg w in
        (settled,
         mkWorld (availableModelInfoPromise w') (Some settled)
                 (modelListingWarningLogged w') (trace w'))
    end.

End Catalog.

(* ================================================================== *)
(** * Generation with retries and fallback *)
(* ================================================================== *)

Module Generator.

Import Git Catalog.

Definition MAX_AI_RETRIES : nat := 3.
Definition RETRY_BASE_DELAY_MS : Z := 1200.

(** An element of the commit list: a string or a commit object
    ([typeof commit === 'string' ? commit : commit.message]). *)
Inductive CommitItem : Type :=
| CommitText (s : string)
| CommitObject (c : Commit).

Definition messageOf (commit : CommitItem) : string :=
  match commit with
  | CommitText s => s
  | CommitObject c => message c
  end.

(** ** Classification of errors *)

Definition truthyStatus (v : option StatusVal) : bool :=
  match v with
  | Some (SNum n) => negb (n =? 0)%Z
  | Some (SStr s) => truthy s
  | None => false
  end.

(** [a || b] on values that may be absent. *)
Definition orElse (a b : option StatusVal) : option StatusVal :=
  if truthyStatus a then a else b.

Definition extractStatusCode (error : JsError) : option StatusVal :=
  orElse (orElse (orElse (err_status error) (err_code error))
                 (err_causeStatus error))
         (err_responseStatus error).

(** [status === n] and [status === 'NAME'] *)
Definition statusIsNum (status : option StatusVal) (n : Z) : bool :=
  match status with Some (SNum m) => (m =? n)%Z | _ => false end.

Definition statusIsStr (status : option StatusVal) (name : string) : bool :=
  match status with Some (SStr s) => (s =? name)%string | _ => false end.

(** [(error?.message || '').toLowerCase()] *)
Definition lowerMessage (error : JsError) : string :=
  toLowerCase (match err_message error with Some m => m | None => "" end).

Definition isRetryableError (error : JsError) : bool :=
  let status := extractStatusCode error in
  let message := lowerMessage error in
  statusIsNum status 429 || statusIsNum status 500 || statusIsNum status 503
  || statusIsStr status "UNAVAILABLE" || statusIsStr status "RESOURCE_EXHAUSTED"
  || includes message "temporarily" || includes message "timeout".

Definition isQuotaOrPermissionError (error : JsError) : bool :=
  let status := extractStatusCode error in
  let message := lowerMessage error in
  statusIsNum status 403 || statusIsStr status "PERMISSION_DENIED"
  || statusIsStr status "RESOURCE_EXHAUSTED"
  || includes message "quota" || includes message "billing"
  || includes message "permission".

Definition isModelNotFound (error : JsError) : bool :=
  let status := extractStatusCode error in
  let message := lowerMessage error in
  statusIsNum status 404 || statusIsStr status "NOT_FOUND"
  || includes message "not found" || includes message "unsupported".

Definition shouldFallbackToNextModel (error : JsError) : bool :=
  isQuotaOrPermissionError error || isModelNotFound error || isRetryableError error.

(** ** [callWithRetries] *)

Definition sleep (ms : Z) : M unit := emit (EvSleep ms).

(** The [while (attempt < MAX_AI_RETRIES)] loop.  [fuel] bounds the number
    of iterations; [attempt] grows by one in each, so [MAX_AI_RETRIES]
    is enough.  Leaving the loop by its condition gives [undefined]. *)
Fixpoint retryLoop {A} (fuel attempt : nat) (fn : M A) : M (option A) :=
  if negb (attempt <? MAX_AI_RETRIES)%nat then ret None
  else
    match fuel with
    | O => ret None
    | S fuel' =>
        tryCatch
          (r <- fn ;; ret (Some r))
          (fun error =>
             let attempt := (attempt + 1)%nat in
             if (MAX_AI_RETRIES <=? attempt)%nat || negb (isRetryableError error)
             then throw error
             else
               let waitTime := (RETRY_BASE_DELAY_MS * 2 ^ (Z.of_nat attempt - 1))%Z in
               warn (WarnRetry attempt waitTime) ;;;
               sleep waitTime ;;;
               retryLoop fuel' attempt fn)
    end.

Definition callWithRetries {A} (fn : M A) : M (option A) :=
  retryLoop MAX_AI_RETRIES 0 fn.

(** ** Messages *)

(** [error.message || fallback] *)
Definition messageOr (error : JsError) (fallback : string) : string :=
  match err_message error with
  | Some m => if truthy m then m else fallback
  | None => fallback
  end.

Definition formatAggregateError (errors : list (string * string)) : string :=
  if (List.length errors =? 0)%nat then "Unknown AI error."
  else
    let lastError := last errors ("", "") in
    let details :=
      join " | " (map (fun '(model, message) => model +++ ": " +++ message) errors) in
    "AI summarization failed. Details: " +++ details
    +++ ". Last error from " +++ fst lastError +++ ": " +++ snd lastError.

Definition noCommitsSummary : string :=
  "No commits found for the specified period.".

Definition clientNotInitialized : string :=
  "Gemini client is not initialized. Please provide a valid API key.".

Definition noModelsAvailable : string :=
  "No Gemini models are available. Set --model or GEMINI_MODEL to specify one.".

Definition emptyResponse : string := "Model returned an empty response.".

Definition quotaHint : string :=
  "Check your Gemini API quota or select a different model with --model or GEMINI_MODEL.".

Definition accessHint : string :=
  "Make sure the Gemini model name is correct and your API key has access to it.".

Definition failedWithModel (modelName message hint : string) : string :=
  "Failed to generate summary with model " +++ modelName +++ ": " +++ message
  +++ ". " +++ hint.

(** ** Jira tickets: the regular expression [/\b([A-Z]+-\d+)\b/g] *)

Definition isWordOpt (c : option ascii) : bool :=
  match c with Some c => isWordChar c | None => false end.

Definition headChar (s : string) : option ascii :=
  match s with String c _ => Some c | "" => None end.

(** [\b] between the code unit [prev] and the start of [s]. *)
Definition wordBoundary (prev : option ascii) (s : string) : bool :=
  xorb (isWordOpt prev) (isWordOpt (headChar s)).

(** [\d+\b] at the start of [s], greedy with backtracking: more digits are
    tried first, and stopping after the current digit when that fails.
    The result is the number of code units matched. *)
Fixpoint matchDigits (s : string) : option nat :=
  match s with
  | "" => None
  | String c s' =>
      if isDigit c then
        match matchDigits s' with
        | Some n => Some (S n)
        | None => if wordBoundary (Some c) s' then Some 1%nat else None
        end
      else None
  end.

(** [[A-Z]+-\d+\b] at the start of [s], in the same way. *)
Fixpoint matchLetters (s : string) : option nat :=
  match s with
  | "" => None
  | String c s' =>
      if isUpper c then
        match matchLetters s' with
        | Some n => Some (S n)
        | None =>
            match s' with
            | String "-"%char s'' =>
                match matchDigits s'' with
                | Some n => Some (S (S n))
                | None => None
                end
            | _ => None
            end
        end
      else None
  end.

(** The whole pattern at the start of [s], after the code unit [prev]. *)
Definition matchJiraAt (prev : option ascii) (s : string) : option nat :=
  if wordBoundary prev s then matchLetters s else None.

(** [message.match(jiraPattern)]: every match from left to right, the
    search resuming where the last match ended ([skip] code units of it
    are still to be stepped over).  The empty list stands for [null]. *)
Fixpoint matchAllJira (skip : nat) (prev : option ascii) (s : string)
  : list string :=
  match s with
  | "" => []
  | String c s' =>
      match skip with
      | S k => matchAllJira k (Some c) s'
      | O =>
          match matchJiraAt prev s with
          | Some n => substring 0 n s :: matchAllJira (n - 1) (Some c) s'
          | None => matchAllJira 0 (Some c) s'
          end
      end
  end.

Definition jiraMatches (message : string) : list string :=
  matchAllJira 0 None message.

Definition extractJiraTickets (commits : list CommitItem) : list string :=
  let tickets :=
    fold_left
      (fun tickets commit => fold_left setAdd (jiraMatches (messageOf commit)) tickets)
      commits [] in
  sort tickets.

(** ** The text of a response *)

Definition partTexts (candidate : option Candidate) : list string :=
  match candidate with
  | Some {| content := Some {| parts := Some ps |} |} =>
      flat_map
        (fun part =>
           match part with
           | Some {| part_text := Some t |} => if truthy t then [t] else []
           | _ => []
           end) ps
  | _ => []
  end.

Definition extractResponseText (response : option Response) : string :=
  match response with
  | None => ""
  | Some response =>
      let fromParts :=
        trim (join LF
                (flat_map partTexts
                   (match candidates response with Some cs => cs | None => [] end))) in
      match text response with
      | Some t => if truthy (trim t) then trim t else fromParts
      | None => fromParts
      end
  end.

(** ** [generateSummary] *)

Record SummaryResult : Type := mkSummaryResult {
  summary : string;
  modelName : option string
}.

Definition jiraLine (jiraTickets : list string) : string :=
  LF +++ LF +++ "Jira Tickets: " +++ join ", " jiraTickets.

(** The summary of the demo mode; [datePrefix] is what
    [getDateRelativeText] gave. *)
Definition generateDemoSummary (datePrefix : string) (commits : list CommitItem)
  : string :=
  let summaryPoints :=
    map (fun commit =>
           let message := toLowerCase (messageOf commit) in
           if includes message "feat" then "Implemented new features and functionality"
           else if includes message "fix" then "Fixed bugs and resolved issues"
           else if includes message "refactor" then "Improved code structure and performance"
           else if includes message "chore" then "Updated dependencies and maintenance tasks"
           else "Made various improvements to the codebase")
        commits in
  let jiraTickets := extractJiraTickets commits in
  let uniquePoints := setOfList summaryPoints in
  let summary :=
    datePrefix +++ "..." +++ LF
    +++ join LF (map (fun point => "- " +++ point) uniquePoints) in
  if (0 <? List.length jiraTickets)%nat then summary +++ jiraLine jiraTickets
  else summary.

Definition systemPromptFor (datePrefix : string) (jiraTickets : list string)
  : string :=
  let systemPrompt :=
    "You are an expert project manager. Your task is to convert a list of raw Git commit messages from a developer into a concise, high-level summary. This summary will be read during a daily stand-up meeting to a non-technical audience. Focus on the impact and progress rather than the technical details. Group related changes into a single point. Start the summary with '"
    +++ datePrefix
    +++ "...' and use bullet points for the key activities. Keep it brief and business-focused." in
  if (0 <? List.length jiraTickets)%nat
  then systemPrompt +++ " Also mention any Jira tickets referenced in the commits."
  else systemPrompt.

Definition userPromptFor (commits : list CommitItem) : string :=
  let commitsText := join (LF +++ LF +++ "---" +++ LF +++ LF) (map messageOf commits) in
  "Please summarize these Git commit messages:" +++ LF +++ LF +++ commitsText.

(** [await aiClient.models.generateContent(requestPayload)] *)
Definition generateContentCall (env : Env) (req : Request) : M Response :=
  fun w =>
    let n := countEvents isGenerate w in
    (emit (EvGenerate req) ;;;
     match generateContent env n req with
     | GenOk r => ret r
     | GenFail e => throw e
     end) w.

(** The [try] block of one iteration of the loop over the models. *)
Definition tryModel (env : Env) (userPrompt systemPrompt : string)
    (jiraTickets : list string) (modelName : string) : M SummaryResult :=
  let requestPayload := mkRequest modelName userPrompt systemPrompt in
  response <- callWithRetries (generateContentCall env requestPayload) ;;
  let summary := extractResponseText response in
  if negb (truthy summary) then throw (newError emptyResponse)
  else
    let summary :=
      if (0 <? List.length jiraTickets)%nat
         && negb (includes summary (hd "" jiraTickets))
      then summary +++ jiraLine jiraTickets
      else summary in
    ret (mkSummaryResult summary (Some modelName)).

(** The loop [for (let i = 0; i < modelList.length; i += 1)], on the models
    from index [i] on; [i < modelList.length - 1] says that the rest is
    not empty.  After the loop comes the aggregate error. *)
Fixpoint tryModels (env : Env) (userPrompt systemPrompt : string)
    (jiraTickets : list string) (modelList : list string)
    (errors : list (string * string)) : M SummaryResult :=
  match modelList with
  | [] => throw (newError (formatAggregateError errors))
  | modelName :: rest =>
      step <-
        tryCatch
          (r <- tryModel env userPrompt systemPrompt jiraTickets modelName ;;
           ret (inl r))
          (fun error =>
             let fallbackAvailable := (0 <? List.length rest)%nat in
             let errors := errors ++ [(modelName, messageOr error "Unknown error")] in
             if fallbackAvailable && shouldFallbackToNextModel error
             then
               warn (WarnModelUnavailable modelName (err_message error)) ;;;
               ret (inr errors)
             else
               let hint :=
                 if isQuotaOrPermissionError error then quotaHint else accessHint in
               throw (newError
                        (failedWithModel modelName (messageOr error "Unknown error") hint))) ;;
      match step with
      | inl r => ret r
      | inr errors => tryModels env userPrompt systemPrompt jiraTickets rest errors
      end
  end.

(** [getDateRelativeText] reads the clock; its result is a parameter. *)
Definition generateSummary (env : Env) (cfg : Config)
    (getDateRelativeText : list CommitItem -> string)
    (commits : list CommitItem) : M SummaryResult :=
  if (List.length commits =? 0)%nat
  then ret (mkSummaryResult noCommitsSummary None)
  else if demoMode cfg then
    ret (mkSummaryResult (generateDemoSummary (getDateRelativeText commits) commits)
                         (Some "demo"))
  else if negb (aiClient cfg) then throw (newError clientNotInitialized)
  else
    let jiraTickets := extractJiraTickets commits in
    let datePrefix := getDateRelativeText commits in
    let systemPrompt := systemPromptFor datePrefix jiraTickets in
    let userPrompt := userPromptFor commits in
    modelList <- getResolvedModelPreference env cfg ;;
    if (List.length modelList =? 0)%nat then throw (newError noModelsAvailable)
    else tryModels env userPrompt systemPrompt jiraTickets modelList [].

End Generator.

(* ================================================================== *)
(** * The program *)
(* ================================================================== *)

Module Main.

Import Git Catalog Generator.

(** How a run ends. *)
Inductive MainResult : Type :=
| ExitError (message : option string)       (* [process.exit(1)] *)
| NoCommitsFound
| RawCommitsOnly (commits : list Commit)     (* demo mode *)
| PrintedSummary (result : SummaryResult).

(** A promise already settled. *)
Definition settled {A} (o : Outcome A) : M A := fun w => (o, w).

(** [calculateDateRange] and [getDateRelativeText] read the clock: what
    they give is a parameter of the run. *)
Definition main (env : Env) (cfg : Config)
    (calculateDateRange : Outcome DateRange)
    (getDateRelativeText : list CommitItem -> string) : M MainResult :=
  tryCatch
    (user <- getGitUser env ;;
     dateRange <- settled calculateDateRange ;;
     let repoPath :=
       match optPath cfg with
       | Some p => if truthy p then p else "."
       | None => "."
       end in
     currentBranch <- getCurrentBranch env repoPath ;;
     extraBranches <-
       getRecentLocalBranches env repoPath currentBranch (recentBranchesCount cfg) ;;
     let branchesToScan := setOfList (currentBranch :: extraBranches) in
     commits <- fetchCommits env repoPath (user_email user) dateRange (Some branchesToScan) ;;
     if (List.length commits =? 0)%nat then ret NoCommitsFound
     else if negb (demoMode cfg) then
       result <- generateSummary env cfg getDateRelativeText (map CommitObject commits) ;;
       ret (PrintedSummary result)
     else ret (RawCommitsOnly commits))
    (fun error => ret (ExitError (err_message error))).

End Main.

(* ================================================================== *)
(** * Vocabulary of the properties *)
(* ================================================================== *)

(** The world after the events [evs] were appended to its trace. *)
Definition logged (w : World) (evs : list Event) : World :=
  mkWorld (availableModelInfoPromise w) (resolvedModelPreferencePromise w)
          (modelListingWarningLogged w) (trace w ++ evs).

Module ScanSpec.

Import Git.

Section Queries.

Variable env : Env.
Variables repoPath author : string.
Variable dateRange : DateRange.

(** What the history query of a branch settles to. *)
Definition branchQuery (branch : string) : ExecResult :=
  execaGit env (logArgs author dateRange branch) (Some repoPath).

(** The error that ends the scan at a branch, if any: a failure of the
    query whose [stderr] does not say that the branch is unknown. *)
Definition abortsWith (branch : string) : option JsError :=
  match branchQuery branch with
  | ExecOk _ => None
  | ExecFail e =>
      if stderrIncludes e "unknown revision or path" then None else Some e
  end.

(** The blocks that a branch contributes. *)
Definition branchBlocks (branch : string) : list string :=
  match branchQuery branch with
  | ExecOk stdout => commitBlocks stdout
  | ExecFail _ => []
  end.

(** The events of the scan of one branch that does not end it. *)
Definition branchEvents (branch : string) : list Event :=
  EvGit (logArgs author dateRange branch) (Some repoPath) ::
  match branchQuery branch with
  | ExecOk _ => []
  | ExecFail _ => [EvWarn (WarnBranchNotFound branch)]
  end.

(** The map after the blocks of the branches were recorded in order. *)
Definition scanPure (branches : list string) (commitsByHash : list Commit)
  : list Commit :=
  fold_left
    (fun m branch => fold_left (recordBlock branch) (branchBlocks branch) m)
    branches commitsByHash.

(** One sighting of a commit: a block of the log of [s_branch] that has at
    least three lines, read as [recordBlock] reads it. *)
Record Sighting : Type := mkSighting {
  s_branch : string;
  s_hash : string;
  s_date : string;
  s_message : string
}.

Definition parseBlock (branch block : string) : option Sighting :=
  let lines := split LF (trim block) in
  if (3 <=? List.length lines)%nat then
    let body := trim (join LF (skipn 3 lines)) in
    Some (mkSighting branch (nth 0 lines "") (nth 1 lines "")
            (if truthy body then nth 2 lines "" +++ LF +++ LF +++ body
             else nth 2 lines ""))
  else None.

(** What recording a sighting does to the map. *)
Definition recordSighting (commitsByHash : list Commit) (s : Sighting) : list Commit :=
  if negb (mapHas commitsByHash (s_hash s))
  then commitsByHash
       ++ [mkCommit (s_message s) (s_date s) (s_hash s) (setOfList [s_branch s])]
  else mapAddBranch commitsByHash (s_hash s) (s_branch s).

Definition sightingsOfBlocks (branch : string) (blocks : list string) : list Sighting :=
  flat_map (fun block =>
              match parseBlock branch block with
              | Some s => [s]
              | None => []
              end) blocks.

(** The sightings of one branch, and of a list of branches in the order of
    the scan. *)
Definition branchSightings (branch : string) : list Sighting :=
  sightingsOfBlocks branch (branchBlocks branch).

Definition sightings (branches : list string) : list Sighting :=
  flat_map branchSightings branches.

(** The commit [h] is in the log of [branch]. *)
Definition seenOn (branch h : string) : Prop :=
  exists s, In s (branchSightings branch) /\ s_hash s = h.

(** The first sighting of [h] among [l]. *)
Definition firstSighting (l : list Sighting) (h : string) : option Sighting :=
  find (fun s => (s_hash s =? h)%string) l.

End Queries.

(** The commit [c] of the map stands for the sightings of its hash in [l]:
    its message and date are those of the first of them, and its branches
    are, without repetition, the branches of all of them. *)
Definition represents (l : list Sighting) (c : Commit) : Prop :=
  (exists s, firstSighting l (hash c) = Some s
             /\ message c = s_message s /\ date c = s_date s)
  /\ NoDup (branches c)
  /\ (forall b, In b (branches c)
                <-> exists s, In s l /\ s_hash s = hash c /\ s_branch s = b).

(** The map [m] is the aggregation of the sightings [l]: one commit for
    each hash sighted. *)
Definition aggregates (l : list Sighting) (m : list Commit) : Prop :=
  NoDup (map hash m)
  /\ (forall h, In h (map hash m) <-> exists s, In s l /\ s_hash s = h)
  /\ Forall (represents l) m.

End ScanSpec.

Definition isGitEvent (e : Event) : bool :=
  match e with EvGit _ _ => true | _ => false end.

(** An outside that only answers history queries, by the branch asked. *)
Definition gitEnv (logOf : string -> ExecResult) : Env :=
  mkEnv (fun args _ =>
           match args with
           | "log" :: branch :: _ => logOf branch
           | _ => ExecOk ""
           end)
        (fun _ => ListOk [])
        (fun _ _ => GenFail (newError "no provider")).

Module C2Spec.

Import Git ScanSpec.

(** The outside in which the history query of [branch] gives an empty log,
    everything else being as in [env]. *)
Definition withEmptyLog (env : Env) (author : string) (dateRange : DateRange)
    (branch : string) : Env :=
  mkEnv (fun args cwd =>
           if list_eq_dec string_dec args (logArgs author dateRange branch)
           then ExecOk ""
           else execaGit env args cwd)
        (modelsList env) (generateContent env).

(** The claim as it is worded: a branch whose query fails otherwise counts
    as a branch with no commits, so the aggregation returns what it returns
    when that query gives an empty log. *)
Definition continuesPastFailure (env : Env) (repoPath author : string)
    (dateRange : DateRange) (branches : list string) (branch : string) : Prop :=
  forall e w,
    In branch branches ->
    abortsWith env repoPath author dateRange branch = Some e ->
    stderrIncludes e "fatal: not a git repository" = false ->
    fst (fetchCommits env repoPath author dateRange (Some branches) w) =
    fst (fetchCommits (withEmptyLog env author dateRange branch)
           repoPath author dateRange (Some branches) w).

Definition sampleRange : DateRange :=
  mkDateRange "2024-01-15 00:00:00" "2024-01-15 23:59:59" "2024-01-15".

Definition oneCommitLog : string :=
  "1f3a" +++ LF +++ "2024-01-15" +++ LF +++ "fix ABC-12 login" +++ LF +++ LF
  +++ commitSeparator.

Definition ambiguousArgument : JsError :=
  mkJsError None None None None (Some "Command failed with exit code 128")
    (Some "fatal: ambiguous argument 'docs': both revision and filename").

(** A repository whose branch [main] has one commit in the window and whose
    branch [docs] is named like a file of the working tree. *)
Definition ambiguousBranchEnv : Env :=
  gitEnv (fun branch =>
            if (branch =? "main")%string then ExecOk oneCommitLog
            else ExecFail ambiguousArgument).

End C2Spec.

Module CatalogSpec.

Import Catalog.

(** An outside that only answers the discovery query, always alike. *)
Definition discoveryEnv (answer : ListResult) : Env :=
  mkEnv (fun _ _ => ExecOk "") (fun _ => answer)
        (fun _ _ => GenFail (newError "no provider")).

(** A run with a provider key and no model asked for. *)
Definition liveConfig : Config := mkConfig false true None 3 None.

(** The rank of an identifier in a candidate list: its index. *)
Fixpoint rankOf (name : string) (candidates : list string) : option nat :=
  match candidates with
  | [] => None
  | c :: rest =>
      if (c =? name)%string then Some 0%nat
      else option_map S (rankOf name rest)
  end.

(** [a] has a rank in the list and [b] has a later one. *)
Definition ranksAbove (a b : string) (candidates : list string) : Prop :=
  exists i j, rankOf a candidates = Some i /\ rankOf b candidates = Some j /\ (i < j)%nat.

Definition discoveredSample : list (option string) :=
  [Some "gemini-1.5-flash"; Some "gemini-2.5-flash-preview"; Some "gemini-2.5-pro"].

(** [n] invocations of [getResolvedModelPreference] in a row: what each
    settled to, and the world after the last. *)
Fixpoint resolveTimes (env : Env) (cfg : Config) (n : nat) (w : World)
  : list (Outcome (list string)) * World :=
  match n with
  | O => ([], w)
  | S n' =>
      let (r, w') := getResolvedModelPreference env cfg w in
      let (rs, w'') := resolveTimes env cfg n' w' in
      (r :: rs, w'')
  end.

(** A provider whose discovery fails the first time and would list a model
    if it were asked again. *)
Definition flakyDiscoveryEnv : Env :=
  mkEnv (fun _ _ => ExecOk "")
        (fun n => match n with
                  | O => ListFail (newError "fetch failed")
                  | S _ => ListOk [Some "models/gemini-2.5-flash"]
                  end)
        (fun _ _ => GenFail (newError "no provider")).

End CatalogSpec.

Module GeneratorSpec.

Import Git Catalog Generator.

(** The delay slept after the failed attempt number [attempt]. *)
Definition retryDelay (attempt : nat) : Z :=
  (RETRY_BASE_DELAY_MS * 2 ^ (Z.of_nat attempt - 1))%Z.

(** The trace of three attempts on one request: the two of them that
    failed are each followed by a warning and a sleep. *)
Definition threeAttempts (req : Request) : list Event :=
  [EvGenerate req; EvWarn (WarnRetry 1 (retryDelay 1)); EvSleep (retryDelay 1);
   EvGenerate req; EvWarn (WarnRetry 2 (retryDelay 2)); EvSleep (retryDelay 2);
   EvGenerate req].

(** The summary returned for the text extracted from a response. *)
Definition withJiraLine (jiraTickets : list string) (summary : string) : string :=
  if (0 <? List.length jiraTickets)%nat && negb (includes summary (hd "" jiraTickets))
  then summary +++ jiraLine jiraTickets
  else summary.

(** The models to which a generation request was sent, in order. *)
Definition contacted (evs : list Event) : list string :=
  flat_map (fun e => match e with EvGenerate req => [req_model req] | _ => [] end) evs.

Definition plainResponse (t : string) : Response := mkResponse (Some t) None.

Definition statusError (status : Z) (message : string) : JsError :=
  mkJsError (Some (SNum status)) None None None (Some message) None.

(** A provider that answers by the model asked and the number of requests
    seen before. *)
Definition providerEnv (answer : nat -> string -> GenResult) : Env :=
  mkEnv (fun _ _ => ExecOk "") (fun _ => ListOk [])
        (fun n req => answer n (req_model req)).

(** Overloaded twice, then an answer. *)
Definition overloadedTwice : Env :=
  providerEnv (fun n _ =>
                 match n with
                 | 0%nat | 1%nat => GenFail (statusError 503 "The model is overloaded.")
                 | _ => GenOk (plainResponse "Yesterday, I fixed the login.")
                 end).

(** The first model answers with no text; the second would answer. *)
Definition emptyThenFine : Env :=
  providerEnv (fun _ model =>
                 if (model =? "gemini-2.5-flash")%string
                 then GenOk (plainResponse "  ")
                 else GenOk (plainResponse "Yesterday, I fixed the login.")).

(** No model is known to the account. *)
Definition allNotFound : Env :=
  providerEnv (fun _ model =>
                 GenFail (statusError 404 ("models/" +++ model +++ " is not found"))).

(** The same providers behind a discovery that lists two models. *)
Definition withTwoModels (env : Env) : Env :=
  mkEnv (execaGit env)
        (fun _ => ListOk [Some "models/gemini-2.0-flash"; Some "models/gemini-2.5-flash"])
        (generateContent env).

Definition liveRun : Config := mkConfig false true None 3 None.

Definition oneCommit : list CommitItem :=
  [CommitObject (mkCommit "fix login" "2024-01-15" "1f3a" ["main"])].

(** The claim C6 as it is worded, at one candidate: when the call on
    [modelName] ends in [error] and a candidate remains, the loop goes on
    with the remaining candidates, the failure recorded. *)
Definition advancesPast (env : Env) (userPrompt systemPrompt : string)
    (jiraTickets : list string) (modelName : string) (rest : list string)
    (error : JsError) (w : World) : Prop :=
  exists w',
    fst (tryModels env userPrompt systemPrompt jiraTickets (modelName :: rest) [] w)
    = fst (tryModels env userPrompt systemPrompt jiraTickets rest
             [(modelName, messageOr error "Unknown error")] w').

End GeneratorSpec.

Module MainSpec.

Import Git Generator Main.

Definition revParseArgs : list string := ["rev-parse"; "--abbrev-ref"; "HEAD"].

(** [options.path || '.'] *)
Definition repoPathOf (cfg : Config) : string :=
  match optPath cfg with
  | Some p => if truthy p then p else "."
  | None => "."
  end.

(** Git knows the name and the e-mail address of the user. *)
Definition identityKnown (env : Env) : Prop :=
  exists name email,
    execaGit env ["config"; "user.name"] None = ExecOk name
    /\ execaGit env ["config"; "user.email"] None = ExecOk email.

(** The target path is not a git working tree: asked for the current
    branch there, git answers "not a git repository". *)
Definition notARepository (env : Env) (cfg : Config) : Prop :=
  exists e,
    execaGit env revParseArgs (Some (repoPathOf cfg)) = ExecFail e
    /\ stderrIncludes e "not a git repository" = true.

(** A computation that sends nothing to the provider. *)
Definition quiet {A} (m : M A) : Prop :=
  forall w, countEvents isProviderCall (snd (m w)) = countEvents isProviderCall w.

(** The part of [main] that comes before the generation: the identity, the
    date range, the branches and the commits. *)
Definition aggregationStage (env : Env) (cfg : Config)
    (calculateDateRange : Outcome DateRange) : M (list Commit) :=
  user <- getGitUser env ;;
  dateRange <- settled calculateDateRange ;;
  currentBranch <- getCurrentBranch env (repoPathOf cfg) ;;
  extraBranches <-
    getRecentLocalBranches env (repoPathOf cfg) currentBranch (recentBranchesCount cfg) ;;
  fetchCommits env (repoPathOf cfg) (user_email user) dateRange
    (Some (setOfList (currentBranch :: extraBranches))).

(** The claim C3 as it is worded, at one run. *)
Definition failsAsNotARepository (env : Env) (cfg : Config)
    (calculateDateRange : Outcome DateRange)
    (getDateRelativeText : list CommitItem -> string) (w : World) : Prop :=
  fst (main env cfg calculateDateRange getDateRelativeText w)
  = Returned (ExitError (Some notARepositoryError))
  /\ countEvents isProviderCall
       (snd (main env cfg calculateDateRange getDateRelativeText w))
     = countEvents isProviderCall w.

Definition gitFailure (stderr : string) : JsError :=
  mkJsError None None None None (Some "Command failed with exit code 128") (Some stderr).

Definition notARepositoryStderr : string :=
  "fatal: not a git repository (or any of the parent directories): .git".

(** Outside any repository, on a machine where git has no user name: every
    git command fails, [git config user.name] with nothing on [stderr]. *)
Definition outsideWithoutIdentity : Env :=
  mkEnv (fun args _ =>
           match args with
           | "config" :: _ => ExecFail (gitFailure "")
           | _ => ExecFail (gitFailure notARepositoryStderr)
           end)
        (fun _ => ListOk [Some "models/gemini-2.5-flash"])
        (fun _ _ => GenOk (mkResponse (Some "Yesterday, I did things.") None)).

(** Outside any repository, the user being known to git. *)
Definition outsideWithIdentity : Env :=
  mkEnv (fun args _ =>
           match args with
           | "config" :: _ => ExecOk "dev@example.org"
           | _ => ExecFail (gitFailure notARepositoryStderr)
           end)
        (fun _ => ListOk [Some "models/gemini-2.5-flash"])
        (fun _ _ => GenOk (mkResponse (Some "Yesterday, I did things.") None)).

(** The target path does not exist: git cannot be started there, and the
    error has no [stderr]. *)
Definition missingDirectory : Env :=
  mkEnv (fun args _ =>
           match args with
           | "config" :: _ => ExecOk "dev@example.org"
           | _ => ExecFail (mkJsError None (Some (SStr "ENOENT")) None None
                              (Some "spawn git ENOENT") None)
           end)
        (fun _ => ListOk [Some "models/gemini-2.5-flash"])
        (fun _ _ => GenOk (mkResponse (Some "Yesterday, I did things.") None)).

Definition somePathConfig : Config :=
  mkConfig false true None 3 (Some "/tmp/elsewhere").

End MainSpec.

Module AggregationSpec.

Import Git ScanSpec C2Spec.

(** The error of a history query on a name that git does not know. *)
Definition gitFailureUnknown (branch : string) : JsError :=
  mkJsError None None None None (Some "Command failed with exit code 128")
    (Some ("fatal: ambiguous argument '" +++ branch
           +++ "': unknown revision or path not in the working tree.")).

(** One entry of a log in the format asked for, with an empty body. *)
Definition logEntry (hash date subject : string) : string :=
  hash +++ LF +++ date +++ LF +++ subject +++ LF +++ LF +++ commitSeparator.

(** A repository in which the commit 1f3a is on [main] and on [feature],
    [feature] has a commit of its own before it, and [hotfix] has another. *)
Definition sharedCommitEnv : Env :=
  gitEnv (fun branch =>
            if (branch =? "main")%string then
              ExecOk (logEntry "1f3a" "2024-01-15" "fix ABC-12 login")
            else if (branch =? "feature")%string then
              ExecOk (logEntry "9c0e" "2024-01-15" "feat: add export" +++ LF
                      +++ logEntry "1f3a" "2024-01-15" "fix ABC-12 login")
            else if (branch =? "hotfix")%string then
              ExecOk (logEntry "77aa" "2024-01-15" "chore: bump")
            else ExecFail (gitFailureUnknown branch)).



End AggregationSpec.

Module JiraSpec.

Import Git Generator.

Fixpoint allChars (p : ascii -> bool) (s : string) : bool :=
  match s with
  | "" => true
  | String c s' => p c && allChars p s'
  end.

(** The last code unit of [s], or [prev] when [s] is empty. *)
Fixpoint lastCharOr (prev : option ascii) (s : string) : option ascii :=
  match s with
  | "" => prev
  | String c s' => lastCharOr (Some c) s'
  end.

(** The pattern in the words of the claim: upper case letters, a dash,
    digits. *)
Definition ticketShape (t : string) : Prop :=
  exists letters digits,
    t = letters +++ "-" +++ digits
    /\ letters <> "" /\ digits <> ""
    /\ allChars isUpper letters = true /\ allChars isDigit digits = true.

(** [t] is a substring of [message] that has the shape of a ticket and
    stands between two word boundaries. *)
Definition occursIn (t message : string) : Prop :=
  exists before after,
    message = before +++ t +++ after
    /\ ticketShape t
    /\ wordBoundary (lastCharOr None before) (t +++ after) = true
    /\ wordBoundary (lastCharOr None (before +++ t)) after = true.

(** The same for the rest [s] of a message that comes after the code unit
    [prev], the occurrence starting [skip] code units into [s] or later. *)
Definition occursFrom (skip : nat) (prev : option ascii) (t s : string) : Prop :=
  exists before after,
    s = before +++ t +++ after
    /\ (skip <= String.length before)%nat
    /\ ticketShape t
    /\ isWordOpt (lastCharOr prev before) = false
    /\ isWordOpt (headChar after) = false.

(** Ascending order of code units, without repetition. *)
Definition ascending (l : list string) : Prop :=
  StronglySorted (fun a b => String.ltb a b = true) l.

Definition ticketCommits : list CommitItem :=
  [CommitText "fix ABC-12 login, see XY-7"; CommitText "ABC-12: follow-up"].

(** A provider that answers every request alike. *)
Definition answering (t : string) : Env :=
  mkEnv (fun _ _ => ExecOk "") (fun _ => ListOk [])
        (fun _ _ => GenOk (mkResponse (Some t) None)).

Definition forcedModelConfig : Config :=
  mkConfig false true (Some "gemini-2.5-flash") 3 None.

End JiraSpec.

(* ================================================================== *)
(** * Vocabulary of the further properties *)
(* ================================================================== *)

Module ExtraSpec.

Import Git Catalog Generator Main ScanSpec C2Spec AggregationSpec GeneratorSpec.

(** A repository with four local branches, the current one listed second. *)
Definition recentBranchesEnv : Env :=
  mkEnv (fun args _ =>
           match args with
           | "for-each-ref" :: _ =>
               ExecOk ("feature|1705312800" +++ LF +++ "main|1705312700" +++ LF
                       +++ "hotfix|1705312600" +++ LF +++ "old|1705000000")
           | _ => ExecOk ""
           end)
        (fun _ => ListOk [])
        (fun _ _ => GenFail (newError "no provider")).

(** The names that [buildDynamicModelPreference] keeps: not empty, with
    "gemini" and "flash" in them whatever the case, and with none of the
    marks of an experimental model. *)
Definition isStableFlash (name : string) : bool :=
  truthy name
  && includes (toLowerCase name) "gemini"
  && includes (toLowerCase name) "flash"
  && negb (isExperimentalModel (toLowerCase name)).

(** A discovery that lists a model twice, a preview and a model of another
    family. *)
Definition mixedDiscovery : Env :=
  mkEnv (fun _ _ => ExecOk "")
        (fun _ => ListOk [Some "models/gemini-2.0-flash"; Some "models/gemini-2.5-flash";
                          Some "tunedModels/gemini-2.0-flash"; None;
                          Some "models/gemini-2.5-flash-preview"; Some "models/gemma-3"])
        (fun _ _ => GenFail (newError "no provider")).

(** The delays slept, in order. *)
Definition sleeps (evs : list Event) : list Z :=
  flat_map (fun e => match e with EvSleep ms => [ms] | _ => [] end) evs.

(** The trace of two attempts on one request, the first of which failed
    with a retryable error. *)
Definition twoAttempts (req : Request) : list Event :=
  [EvGenerate req; EvWarn (WarnRetry 1 (retryDelay 1)); EvSleep (retryDelay 1);
   EvGenerate req].

(** The first model is refused to the account; the others answer. *)
Definition firstForbidden : Env :=
  providerEnv (fun _ model =>
                 if (model =? "gemini-2.5-flash")%string
                 then GenFail (statusError 403 "The caller does not have permission")
                 else GenOk (plainResponse "Yesterday, I fixed the login.")).

(** The first model is overloaded for good; the others answer. *)
Definition firstOverloaded : Env :=
  providerEnv (fun _ model =>
                 if (model =? "gemini-2.5-flash")%string
                 then GenFail (statusError 503 "The model is overloaded.")
                 else GenOk (plainResponse "Yesterday, I fixed the login.")).

(** The request [generateSummary] sends to a model for a commit list. *)
Definition requestFor (getDateRelativeText : list CommitItem -> string)
    (commits : list CommitItem) (modelName : string) : Request :=
  mkRequest modelName (userPromptFor commits)
    (systemPromptFor (getDateRelativeText commits) (extractJiraTickets commits)).

(** A run with a provider key and the model asked for by name. *)
Definition overrideConfig (model : string) : Config :=
  mkConfig false true (Some model) 3 None.

(** No memo is filled yet. *)
Definition freshMemo (w : World) : Prop :=
  availableModelInfoPromise w = None /\ resolvedModelPreferencePromise w = None.

Definition isWarning (e : Event) : bool :=
  match e with EvWarn _ => true | _ => false end.

(** No name of the list is ordered after its successor by the comparator
    of the sort: the scores do not go up along the list. *)
Fixpoint inScoreOrder (names : list string) : bool :=
  match names with
  | [] => true
  | a :: rest =>
      match rest with
      | [] => true
      | b :: _ => negb (byScoreDescending a b) && inScoreOrder rest
      end
  end.

End ExtraSpec.

(* ================================================================== *)
(** * Properties *)
(* ================================================================== *)

(** ** The world and its trace *)

Lemma logged_nil w : logged w [] = w.
Proof. destruct w; unfold logged; simpl; now rewrite app_nil_r. Qed.

Lemma logged_logged w a b : logged (logged w a) b = logged w (a ++ b).
Proof. unfold logged; simpl; now rewrite app_assoc. Qed.

Lemma emit_logged e w : emit e w = (Returned tt, logged w [e]).
Proof. reflexivity. Qed.

Lemma trace_logged w evs : trace (logged w evs) = trace w ++ evs.
Proof. reflexivity. Qed.

Lemma execa_ok env args cwd stdout w :
  execaGit env args cwd = ExecOk stdout ->
  execa env args cwd w = (Returned stdout, logged w [EvGit args cwd]).
Proof. intros H; unfold execa, bind; rewrite emit_logged, H; reflexivity. Qed.

Lemma execa_fail env args cwd e w :
  execaGit env args cwd = ExecFail e ->
  execa env args cwd w = (Thrown e, logged w [EvGit args cwd]).
Proof. intros H; unfold execa, bind; rewrite emit_logged, H; reflexivity. Qed.

(** ** The scan of the branches *)

Module ScanProofs.

Import Git ScanSpec.

Section Scan.

Variable env : Env.
Variables repoPath author : string.
Variable dateRange : DateRange.

Local Abbreviation branchQuery := (branchQuery env repoPath author dateRange).
Local Abbreviation abortsWith := (abortsWith env repoPath author dateRange).
Local Abbreviation branchBlocks := (branchBlocks env repoPath author dateRange).
Local Abbreviation branchEvents := (branchEvents env repoPath author dateRange).
Local Abbreviation scanPure := (scanPure env repoPath author dateRange).

Lemma commitBlocks_blank stdout :
  truthy (trim stdout) = false -> commitBlocks stdout = [].
Proof.
  unfold truthy, commitBlocks; intros H.
  apply negb_false_iff, String.eqb_eq in H; rewrite H; reflexivity.
Qed.

Lemma scanBranches_step_ok branch rest m w :
  abortsWith branch = None ->
  scanBranches env repoPath author dateRange (branch :: rest) m w =
  scanBranches env repoPath author dateRange rest
    (fold_left (recordBlock branch) (branchBlocks branch) m)
    (logged w (branchEvents branch)).
Proof.
  unfold abortsWith, branchBlocks, branchEvents, branchQuery; intros H.
  cbn [scanBranches]; unfold bind at 1, tryCatch, bind at 1.
  destruct (execaGit env (logArgs author dateRange branch) (Some repoPath))
    as [stdout | e] eqn:Q.
  - rewrite (execa_ok _ _ _ _ _ Q); cbn [ret].
    destruct (truthy (trim stdout)) eqn:T; cbn [negb]; [reflexivity|].
    now rewrite (commitBlocks_blank _ T).
  - rewrite (execa_fail _ _ _ _ _ Q).
    destruct (stderrIncludes e "unknown revision or path"); [|discriminate].
    unfold warn, bind; rewrite emit_logged, logged_logged; reflexivity.
Qed.

Lemma scanBranches_step_abort branch rest m w e :
  abortsWith branch = Some e ->
  scanBranches env repoPath author dateRange (branch :: rest) m w =
  (Thrown e, logged w [EvGit (logArgs author dateRange branch) (Some repoPath)]).
Proof.
  unfold abortsWith, branchQuery; intros H.
  cbn [scanBranches]; unfold bind at 1, tryCatch, bind at 1.
  destruct (execaGit env (logArgs author dateRange branch) (Some repoPath))
    as [stdout | e'] eqn:Q; [discriminate|].
  rewrite (execa_fail _ _ _ _ _ Q).
  destruct (stderrIncludes e' "unknown revision or path"); [discriminate|].
  now inversion H.
Qed.

(** A scan that no branch ends records every branch. *)
Lemma scanBranches_complete branches : forall m w,
  Forall (fun b => abortsWith b = None) branches ->
  scanBranches env repoPath author dateRange branches m w =
  (Returned (scanPure branches m), logged w (flat_map branchEvents branches)).
Proof.
  induction branches as [|b bs IH]; intros m w HF.
  - cbn; now rewrite logged_nil.
  - inversion HF as [|? ? Hb Hbs]; subst.
    rewrite (scanBranches_step_ok _ _ _ _ Hb), (IH _ _ Hbs), logged_logged.
    reflexivity.
Qed.

(** A scan ends at the first branch whose query fails otherwise: what
    the earlier branches gave is lost with the map, and the later branches
    are not queried. *)
Lemma scanBranches_aborted before branch after e : forall m w,
  Forall (fun b => abortsWith b = None) before ->
  abortsWith branch = Some e ->
  scanBranches env repoPath author dateRange (before ++ branch :: after) m w =
  (Thrown e,
   logged w (flat_map branchEvents before
             ++ [EvGit (logArgs author dateRange branch) (Some repoPath)])).
Proof.
  induction before as [|b bs IH]; intros m w HF Hab.
  - cbn [app flat_map]. now apply scanBranches_step_abort.
  - inversion HF as [|? ? Hb Hbs]; subst.
    cbn [app]. rewrite (scanBranches_step_ok _ _ _ _ Hb), (IH _ _ Hbs Hab), logged_logged.
    cbn [flat_map]. now rewrite app_assoc.
Qed.

End Scan.

End ScanProofs.

(** ** [fetchCommits] *)

Module FetchProofs.

Import Git ScanSpec ScanProofs C2Spec.

Section Fetch.

Variable env : Env.
Variables repoPath author : string.
Variable dateRange : DateRange.

Local Abbreviation abortsWith := (abortsWith env repoPath author dateRange).
Local Abbreviation branchEvents := (branchEvents env repoPath author dateRange).
Local Abbreviation scanPure := (scanPure env repoPath author dateRange).
Local Abbreviation fetchCommits := (fetchCommits env repoPath author dateRange).

Lemma branchesToScan_nonempty (branches : list string) :
  branches <> [] ->
  (if (0 <? List.length branches)%nat then branches else ["HEAD"]) = branches.
Proof. destruct branches; [congruence | reflexivity]. Qed.

Lemma fetchCommits_complete branches w :
  branches <> [] ->
  Forall (fun b => abortsWith b = None) branches ->
  fetchCommits (Some branches) w =
  (Returned (map withSortedBranches (scanPure branches [])),
   logged w (flat_map branchEvents branches)).
Proof.
  intros Hne HF. unfold Git.fetchCommits, tryCatch, bind.
  rewrite (branchesToScan_nonempty _ Hne).
  now rewrite (scanBranches_complete _ _ _ _ _ _ _ HF).
Qed.

Lemma fetchCommits_aborted before branch after e w :
  Forall (fun b => abortsWith b = None) before ->
  abortsWith branch = Some e ->
  fetchCommits (Some (before ++ branch :: after)) w =
  ((if stderrIncludes e "fatal: not a git repository"
    then Thrown (newError notARepositoryError)
    else Returned []),
   logged w (flat_map branchEvents before
             ++ [EvGit (logArgs author dateRange branch) (Some repoPath)])).
Proof.
  intros HF Hab. unfold Git.fetchCommits, tryCatch, bind.
  rewrite branchesToScan_nonempty by (destruct before; discriminate).
  rewrite (scanBranches_aborted _ _ _ _ _ _ _ _ _ _ HF Hab).
  now destruct (stderrIncludes e "fatal: not a git repository").
Qed.

End Fetch.

(** C2, as amended.  When the history query of a branch fails with an
    error that is neither "unknown revision or path" nor "fatal: not a git
    repository", the aggregation stops there and returns the empty list: what
    the earlier branches gave is dropped and the later branches are not
    queried. *)
Theorem C2_other_failure_returns_empty
    (env : Env) (repoPath author : string) (dateRange : DateRange)
    (before after : list string) (branch : string) (e : JsError) (w : World) :
  Forall (fun b => abortsWith env repoPath author dateRange b = None) before ->
  abortsWith env repoPath author dateRange branch = Some e ->
  stderrIncludes e "fatal: not a git repository" = false ->
  fetchCommits env repoPath author dateRange (Some (before ++ branch :: after)) w =
  (Returned [],
   logged w (flat_map (branchEvents env repoPath author dateRange) before
             ++ [EvGit (logArgs author dateRange branch) (Some repoPath)])).
Proof.
  intros HF Hab Hnot.
  rewrite (fetchCommits_aborted _ _ _ _ _ _ _ _ _ HF Hab), Hnot.
  reflexivity.
Qed.

Lemma C2_other_failure_returns_empty_witness :
  fetchCommits ambiguousBranchEnv "." "dev@example.org" sampleRange
    (Some (["main"] ++ "docs" :: ["release"])) initialWorld =
  (Returned [],
   logged initialWorld
     (flat_map (branchEvents ambiguousBranchEnv "." "dev@example.org" sampleRange) ["main"]
      ++ [EvGit (logArgs "dev@example.org" sampleRange "docs") (Some ".")])).
Proof.
  apply (C2_other_failure_returns_empty ambiguousBranchEnv "." "dev@example.org"
           sampleRange ["main"] ["release"] "docs" ambiguousArgument initialWorld).
  - repeat constructor.
  - reflexivity.
  - reflexivity.
Defined.

(** C2 as worded fails: with [main] holding a commit and the query of
    [docs] failing with "ambiguous argument", the aggregation returns the
    empty list, not the commit of [main]. *)
Lemma C2_counterexample :
  ~ continuesPastFailure ambiguousBranchEnv "." "dev@example.org" sampleRange
      ["main"; "docs"] "docs".
Proof.
  intros H.
  specialize (H ambiguousArgument initialWorld (or_intror (or_introl eq_refl))
                eq_refl eq_refl).
  vm_compute in H. discriminate H.
Qed.

End FetchProofs.

(** ** The model catalogue *)

Module CatalogProofs.

Import Catalog CatalogSpec.

Example scoreModelName_examples :
  scoreModelName "gemini-1.5-flash" = 11450%float
  /\ scoreModelName "gemini-2.5-flash-preview" = 7420%float
  /\ scoreModelName "gemini-2.5-pro" = 2350%float.
Proof. repeat split; vm_compute; reflexivity. Qed.

(** C4, as amended.  When discovery returns gemini-1.5-flash,
    gemini-2.5-flash-preview and gemini-2.5-pro, the resolved candidate list
    is gemini-1.5-flash alone: the preview variant is excluded, and so is
    gemini-2.5-pro, whose name has no "flash" in it.  By [scoreModelName],
    gemini-1.5-flash scores strictly more than gemini-2.5-pro. *)
Theorem C4_resolved_sample :
  fst (getResolvedModelPreference (discoveryEnv (ListOk discoveredSample))
         liveConfig initialWorld)
    = Returned ["gemini-1.5-flash"]
  /\ buildDynamicModelPreference
       (Some ["gemini-1.5-flash"; "gemini-2.5-flash-preview"; "gemini-2.5-pro"])
     = ["gemini-1.5-flash"]
  /\ (scoreModelName "gemini-2.5-pro" <? scoreModelName "gemini-1.5-flash")%float = true.
Proof. repeat split; vm_compute; reflexivity. Qed.

(** C4 as worded fails: gemini-2.5-pro has no rank in the resolved list. *)
Lemma C4_counterexample :
  ~ (forall candidates,
       fst (getResolvedModelPreference (discoveryEnv (ListOk discoveredSample))
              liveConfig initialWorld) = Returned candidates ->
       ~ In "gemini-2.5-flash-preview" candidates
       /\ ranksAbove "gemini-1.5-flash" "gemini-2.5-pro" candidates).
Proof.
  intros H.
  destruct (H ["gemini-1.5-flash"]) as [_ (i & j & _ & Hj & _)].
  - vm_compute; reflexivity.
  - discriminate Hj.
Qed.

(** *** Memoization *)

Lemma count_logged p w evs :
  countEvents p (logged w evs) = (countEvents p w + List.length (filter p evs))%nat.
Proof. unfold countEvents, logged; cbn. now rewrite filter_app, length_app. Qed.

(** One run of the body of the resolution asks for the list of models at
    most once. *)
Lemma resolveModelPreference_discovery env cfg w :
  (countEvents isListModels (snd (resolveModelPreference env cfg w))
   <= countEvents isListModels w + 1)%nat.
Proof.
  assert (D : (countEvents isListModels (snd (getAvailableModelInfo env cfg w))
               <= countEvents isListModels w + 1)%nat).
  { unfold getAvailableModelInfo.
    destruct (aiClient cfg) eqn:C; cbn [negb]; [|cbn; lia].
    destruct (availableModelInfoPromise w) eqn:P; [cbn; lia|].
    unfold loadAvailableModelInfo; rewrite C; cbn [negb].
    unfold tryCatch, bind, listModels, bind.
    rewrite emit_logged.
    destruct (modelsList env _); cbn [ret throw fst snd].
    - cbn. unfold countEvents; cbn. rewrite filter_app, length_app. cbn. lia.
    - destruct (modelListingWarningLogged (logged w [EvListModels])); cbn;
        unfold countEvents; cbn; rewrite ?filter_app, ?length_app; cbn; lia. }
  unfold resolveModelPreference.
  assert (G : forall k : option StrSet -> M (list string),
             (forall x w0, snd (k x w0) = w0) ->
             (countEvents isListModels
                (snd (bind (getAvailableModelInfo env cfg) k w))
              <= countEvents isListModels w + 1)%nat).
  { intros k Hk. unfold bind.
    destruct (getAvailableModelInfo env cfg w) as [[x|e] w1] eqn:E;
      cbn [snd] in D; [rewrite Hk|]; cbn [snd]; exact D. }
  assert (K : forall (x : option StrSet) w0,
             snd (match x with
                  | None => ret []
                  | Some simpleNames =>
                      if (List.length simpleNames =? 0)%nat then ret []
                      else ret (dedupeModelList
                                  (buildDynamicModelPreference (Some simpleNames)))
                  end w0) = w0).
  { intros [s|] w0; [destruct (List.length s =? 0)%nat|]; reflexivity. }
  destruct (requestedModel cfg) as [m|]; [destruct (truthy m)|];
    try (apply G, K). cbn; lia.
Qed.

(** After an invocation the outcome is in the memo. *)
Lemma getResolvedModelPreference_memo env cfg w :
  resolvedModelPreferencePromise (snd (getResolvedModelPreference env cfg w))
  = Some (fst (getResolvedModelPreference env cfg w)).
Proof.
  unfold getResolvedModelPreference.
  destruct (resolvedModelPreferencePromise w) eqn:P; [exact P|].
  destruct (resolveModelPreference env cfg w); reflexivity.
Qed.

(** With the outcome in the memo, an invocation gives it back and leaves
    the world as it is. *)
Lemma getResolvedModelPreference_replay env cfg w r :
  resolvedModelPreferencePromise w = Some r ->
  getResolvedModelPreference env cfg w = (r, w).
Proof. intros P; unfold getResolvedModelPreference; now rewrite P. Qed.

Lemma getResolvedModelPreference_discovery env cfg w :
  (countEvents isListModels (snd (getResolvedModelPreference env cfg w))
   <= countEvents isListModels w + 1)%nat.
Proof.
  unfold getResolvedModelPreference.
  destruct (resolvedModelPreferencePromise w); [cbn; lia|].
  pose proof (resolveModelPreference_discovery env cfg w) as D.
  destruct (resolveModelPreference env cfg w); exact D.
Qed.

Lemma resolveTimes_replay env cfg r n : forall w,
  resolvedModelPreferencePromise w = Some r ->
  resolveTimes env cfg n w = (repeat r n, w).
Proof.
  induction n as [|n IH]; intros w P; cbn; [reflexivity|].
  now rewrite (getResolvedModelPreference_replay _ _ _ _ P), (IH _ P).
Qed.

(** C8.  However many times the model preference is resolved in a row,
    from any world: every invocation settles to what the first settled to
    (the empty list of a failed discovery included), the world after the
    last invocation is the world after the first, and the discovery query was
    sent at most once. *)
Theorem C8_resolution_is_memoized (env : Env) (cfg : Config) (n : nat) (w : World) :
  resolveTimes env cfg (S n) w =
    (repeat (fst (getResolvedModelPreference env cfg w)) (S n),
     snd (getResolvedModelPreference env cfg w))
  /\ (countEvents isListModels (snd (resolveTimes env cfg (S n) w))
      <= countEvents isListModels w + 1)%nat
  /\ (countEvents isListModels (snd (resolveTimes env cfg (S n) initialWorld)) <= 1)%nat.
Proof.
  assert (E : forall w0,
             resolveTimes env cfg (S n) w0 =
             (repeat (fst (getResolvedModelPreference env cfg w0)) (S n),
              snd (getResolvedModelPreference env cfg w0))).
  { intros w0. cbn [resolveTimes repeat].
    pose proof (getResolvedModelPreference_memo env cfg w0) as P.
    destruct (getResolvedModelPreference env cfg w0) as [r w1]; cbn [fst snd] in *.
    now rewrite (resolveTimes_replay _ _ _ _ _ P). }
  split; [apply E|].
  split; rewrite E; cbn [snd]; apply getResolvedModelPreference_discovery.
Qed.

(** A discovery that fails is not tried again: the empty list is what every
    invocation gives, though a second query would have listed a model. *)
Example failed_discovery_is_memoized :
  fst (resolveTimes flakyDiscoveryEnv liveConfig 3 initialWorld)
    = [Returned []; Returned []; Returned []]
  /\ trace (snd (resolveTimes flakyDiscoveryEnv liveConfig 3 initialWorld))
    = [EvListModels; EvWarn WarnModelListing].
Proof. split; reflexivity. Qed.

End CatalogProofs.

(** ** Retries and fallback *)

Module GeneratorProofs.

Import Git Catalog Generator CatalogSpec CatalogProofs GeneratorSpec.

Lemma generateContentCall_ok env req r w :
  generateContent env (countEvents isGenerate w) req = GenOk r ->
  generateContentCall env req w = (Returned r, logged w [EvGenerate req]).
Proof.
  intros H. unfold generateContentCall, bind. now rewrite emit_logged, H.
Qed.

Lemma generateContentCall_fail env req e w :
  generateContent env (countEvents isGenerate w) req = GenFail e ->
  generateContentCall env req w = (Thrown e, logged w [EvGenerate req]).
Proof.
  intros H. unfold generateContentCall, bind. now rewrite emit_logged, H.
Qed.

(** The fuel of [callWithRetries] is never used up: with at least
    [MAX_AI_RETRIES - attempt] of it the loop ends by its own condition, by a
    [return] or by a [throw]. *)
Lemma retryLoop_fuel {A} (fn : M A) (fuel : nat) : forall attempt w,
  (MAX_AI_RETRIES - attempt <= fuel)%nat ->
  retryLoop fuel attempt fn w = retryLoop (MAX_AI_RETRIES - attempt) attempt fn w.
Proof.
  induction fuel as [|fuel IH]; intros attempt w L.
  - replace (MAX_AI_RETRIES - attempt)%nat with 0%nat by lia. reflexivity.
  - destruct (attempt <? MAX_AI_RETRIES)%nat eqn:E.
    + apply Nat.ltb_lt in E.
      replace (MAX_AI_RETRIES - attempt)%nat
        with (S (MAX_AI_RETRIES - (attempt + 1)))%nat by lia.
      cbn [retryLoop]. destruct (negb (attempt <? MAX_AI_RETRIES)%nat); [reflexivity|].
      unfold tryCatch. destruct (bind fn _ w) as [[r|e] w1]; [reflexivity|].
      destruct ((MAX_AI_RETRIES <=? attempt + 1)%nat || negb (isRetryableError e));
        [reflexivity|].
      unfold warn, sleep, bind. rewrite !emit_logged. apply IH. lia.
    + destruct (MAX_AI_RETRIES - attempt)%nat; cbn [retryLoop]; rewrite E; reflexivity.
Qed.

(** The first attempt succeeds: one call. *)
Lemma callWithRetries_first_ok env req r w :
  generateContent env (countEvents isGenerate w) req = GenOk r ->
  callWithRetries (generateContentCall env req) w
  = (Returned (Some r), logged w [EvGenerate req]).
Proof.
  intros H. unfold callWithRetries. cbn [retryLoop MAX_AI_RETRIES Nat.ltb Nat.leb negb].
  unfold tryCatch, bind. now rewrite (generateContentCall_ok _ _ _ _ H).
Qed.

(** The first attempt fails with an error that is not retryable: one call,
    and the error goes to the caller. *)
Lemma callWithRetries_first_fatal env req e w :
  generateContent env (countEvents isGenerate w) req = GenFail e ->
  isRetryableError e = false ->
  callWithRetries (generateContentCall env req) w
  = (Thrown e, logged w [EvGenerate req]).
Proof.
  intros H R. unfold callWithRetries. cbn [retryLoop MAX_AI_RETRIES Nat.ltb Nat.leb negb].
  unfold tryCatch, bind. rewrite (generateContentCall_fail _ _ _ _ H), R.
  cbn. reflexivity.
Qed.

(** Two retryable failures: the third attempt decides. *)
Lemma callWithRetries_third env req e1 e2 w :
  generateContent env (countEvents isGenerate w) req = GenFail e1 ->
  isRetryableError e1 = true ->
  generateContent env (countEvents isGenerate w + 1) req = GenFail e2 ->
  isRetryableError e2 = true ->
  callWithRetries (generateContentCall env req) w
  = (match generateContent env (countEvents isGenerate w + 2) req with
     | GenOk r => Returned (Some r)
     | GenFail e3 => Thrown e3
     end,
     logged w (threeAttempts req)).
Proof.
  intros H1 R1 H2 R2.
  unfold callWithRetries. cbn [retryLoop MAX_AI_RETRIES Nat.ltb Nat.leb negb].
  unfold tryCatch at 1, bind at 1.
  rewrite (generateContentCall_fail _ _ _ _ H1), R1.
  cbn [Nat.add Nat.leb negb orb].
  unfold warn, sleep, bind at 1. rewrite emit_logged.
  unfold bind at 1. rewrite emit_logged, !logged_logged.
  cbn [app]. unfold tryCatch at 1, bind at 1.
  rewrite (generateContentCall_fail env req e2)
    by (rewrite count_logged; cbn; exact H2).
  rewrite R2. cbn [Nat.add Nat.leb negb orb].
  unfold bind at 1. rewrite emit_logged.
  unfold bind at 1. rewrite emit_logged, !logged_logged.
  cbn [app]. unfold tryCatch at 1, bind at 1.
  destruct (generateContent env (countEvents isGenerate w + 2) req) as [r|e3] eqn:H3.
  - rewrite (generateContentCall_ok env req r)
      by (rewrite count_logged; cbn; exact H3).
    rewrite logged_logged. reflexivity.
  - rewrite (generateContentCall_fail env req e3)
      by (rewrite count_logged; cbn; exact H3).
    rewrite logged_logged. reflexivity.
Qed.

(** What the loop does with the outcome of the call on its first model. *)
Lemma tryModels_call_ok env up sp tickets m rest errs w r w' :
  callWithRetries (generateContentCall env (mkRequest m up sp)) w = (Returned r, w') ->
  truthy (extractResponseText r) = true ->
  tryModels env up sp tickets (m :: rest) errs w
  = (Returned (mkSummaryResult (withJiraLine tickets (extractResponseText r)) (Some m)), w').
Proof.
  intros H T. cbn [tryModels]. unfold bind at 1, tryCatch, bind at 1, tryModel, bind at 1.
  rewrite H, T. reflexivity.
Qed.

Lemma tryModels_call_empty env up sp tickets m rest errs w r w' :
  callWithRetries (generateContentCall env (mkRequest m up sp)) w = (Returned r, w') ->
  truthy (extractResponseText r) = false ->
  tryModels env up sp tickets (m :: rest) errs w
  = (Thrown (newError (failedWithModel m emptyResponse accessHint)), w').
Proof.
  intros H T. cbn [tryModels]. unfold bind at 1, tryCatch, bind at 1, tryModel, bind at 1.
  rewrite H, T. cbn [negb throw].
  replace (shouldFallbackToNextModel (newError emptyResponse)) with false
    by (vm_compute; reflexivity).
  rewrite andb_false_r.
  replace (isQuotaOrPermissionError (newError emptyResponse)) with false
    by (vm_compute; reflexivity).
  reflexivity.
Qed.

Lemma tryModels_call_thrown_last env up sp tickets m rest errs w e w' :
  callWithRetries (generateContentCall env (mkRequest m up sp)) w = (Thrown e, w') ->
  ((0 <? List.length rest)%nat && shouldFallbackToNextModel e) = false ->
  tryModels env up sp tickets (m :: rest) errs w
  = (Thrown (newError (failedWithModel m (messageOr e "Unknown error")
                         (if isQuotaOrPermissionError e then quotaHint else accessHint))),
     w').
Proof.
  intros H F. cbn [tryModels]. unfold bind at 1, tryCatch, bind at 1, tryModel, bind at 1.
  rewrite H, F. reflexivity.
Qed.

Lemma tryModels_call_thrown_next env up sp tickets m rest errs w e w' :
  callWithRetries (generateContentCall env (mkRequest m up sp)) w = (Thrown e, w') ->
  ((0 <? List.length rest)%nat && shouldFallbackToNextModel e) = true ->
  tryModels env up sp tickets (m :: rest) errs w
  = tryModels env up sp tickets rest (errs ++ [(m, messageOr e "Unknown error")])
      (logged w' [EvWarn (WarnModelUnavailable m (err_message e))]).
Proof.
  intros H F. cbn [tryModels]. unfold bind at 1, tryCatch, bind at 1, tryModel, bind at 1.
  rewrite H, F. unfold warn, bind. rewrite emit_logged. reflexivity.
Qed.

Lemma retryDelay_values : retryDelay 1 = 1200%Z /\ retryDelay 2 = 2400%Z.
Proof. split; reflexivity. Qed.



(** C6, as amended.  When the call on a candidate ends in an error that is
    neither retryable nor an access error nor a not-found error, or in a
    response with no text, the loop does not retry the candidate and does not
    go on to the next one either: after that single call it ends the run with
    the error "Failed to generate summary with model ...", whether candidates
    remain or not. *)
Theorem C6_other_error_ends_the_run
    (env : Env) (userPrompt systemPrompt : string) (jiraTickets : list string)
    (modelName : string) (rest : list string) (errors : list (string * string))
    (w : World) (answer : GenResult) :
  let req := mkRequest modelName userPrompt systemPrompt in
  generateContent env (countEvents isGenerate w) req = answer ->
  match answer with
  | GenFail e => shouldFallbackToNextModel e = false
  | GenOk r => extractResponseText (Some r) = ""
  end ->
  tryModels env userPrompt systemPrompt jiraTickets (modelName :: rest) errors w
  = (Thrown (newError
               (failedWithModel modelName
                  match answer with
                  | GenFail e => messageOr e "Unknown error"
                  | GenOk _ => emptyResponse
                  end
                  accessHint)),
     logged w [EvGenerate req]).
Proof.
  intros req H K. destruct answer as [r|e].
  - apply tryModels_call_empty with (r := Some r).
    + now apply callWithRetries_first_ok.
    + now rewrite K.
  - unfold shouldFallbackToNextModel in K.
    apply orb_false_iff in K as [K R]. apply orb_false_iff in K as [Q N].
    rewrite (tryModels_call_thrown_last env userPrompt systemPrompt jiraTickets
               modelName rest errors w e (logged w [EvGenerate req])).
    + now rewrite Q.
    + now apply callWithRetries_first_fatal.
    + unfold shouldFallbackToNextModel. rewrite Q, N, R. apply andb_false_r.
Qed.

Lemma C6_other_error_ends_the_run_witness :
  tryModels emptyThenFine "commits" "prompt" []
    ("gemini-2.5-flash" :: ["gemini-2.0-flash"]) [] initialWorld
  = (Thrown (newError (failedWithModel "gemini-2.5-flash" emptyResponse accessHint)),
     logged initialWorld [EvGenerate (mkRequest "gemini-2.5-flash" "commits" "prompt")]).
Proof.
  exact (C6_other_error_ends_the_run emptyThenFine "commits" "prompt" []
           "gemini-2.5-flash" ["gemini-2.0-flash"] [] initialWorld
           (GenOk (plainResponse "  ")) eq_refl eq_refl).
Defined.

Lemma emptyThenFine_first_candidate :
  fst (tryModels emptyThenFine "commits" "prompt" []
         ["gemini-2.5-flash"; "gemini-2.0-flash"] [] initialWorld)
  = Thrown (newError (failedWithModel "gemini-2.5-flash" emptyResponse accessHint)).
Proof. reflexivity. Qed.

(** C6 as worded fails: the first candidate answers with no text and a
    second candidate, which would answer, remains; the run ends on the first
    candidate's failure instead of going on. *)
Lemma C6_counterexample :
  ~ advancesPast emptyThenFine "commits" "prompt" []
      "gemini-2.5-flash" ["gemini-2.0-flash"] (newError emptyResponse) initialWorld.
Proof.
  intros [w' H].
  rewrite emptyThenFine_first_candidate in H.
  rewrite (tryModels_call_ok emptyThenFine "commits" "prompt" [] "gemini-2.0-flash" []
             _ w' (Some (plainResponse "Yesterday, I fixed the login."))
             (logged w' [EvGenerate (mkRequest "gemini-2.0-flash" "commits" "prompt")]))
    in H.
  - discriminate H.
  - now apply callWithRetries_first_ok.
  - reflexivity.
Qed.

(** *** The aggregate error *)

Lemma failedWithModel_not_aggregate modelName message hint errors :
  failedWithModel modelName message hint <> formatAggregateError errors.
Proof.
  unfold failedWithModel, formatAggregateError.
  destruct (List.length errors =? 0)%nat; cbn; discriminate.
Qed.

(** Every error that leaves the loop over a non-empty list of models is a
    "Failed to generate summary with model ..." error on one of them. *)
Lemma tryModels_thrown env up sp tickets models : forall errors w e w',
  models <> [] ->
  tryModels env up sp tickets models errors w = (Thrown e, w') ->
  exists modelName message hint,
    In modelName models /\ e = newError (failedWithModel modelName message hint).
Proof.
  induction models as [|m rest IH]; intros errors w e w' Hne H; [congruence|].
  destruct (callWithRetries (generateContentCall env (mkRequest m up sp)) w)
    as [[r|e0] w1] eqn:C.
  - destruct (truthy (extractResponseText r)) eqn:T.
    + rewrite (tryModels_call_ok _ _ _ _ _ _ _ _ _ _ C T) in H. discriminate H.
    + rewrite (tryModels_call_empty _ _ _ _ _ _ _ _ _ _ C T) in H.
      inversion H; subst. exists m, emptyResponse, accessHint. split; [now left|reflexivity].
  - destruct ((0 <? List.length rest)%nat && shouldFallbackToNextModel e0) eqn:F.
    + rewrite (tryModels_call_thrown_next _ _ _ _ _ _ _ _ _ _ C F) in H.
      apply IH in H.
      * destruct H as (m' & msg & hint & Hin & He).
        exists m', msg, hint. split; [now right|assumption].
      * apply andb_true_iff in F as [F _]. destruct rest; [discriminate F|discriminate].
    + rewrite (tryModels_call_thrown_last _ _ _ _ _ _ _ _ _ _ C F) in H.
      inversion H; subst. eexists m, _, _. split; [now left|reflexivity].
Qed.

(** C7 (the code departs from the claim).  Over a non-empty list of
    candidates the loop never raises the aggregate error built by
    [formatAggregateError]: the statement after the loop is not reached,
    because the iteration on the last candidate returns or throws. *)
Theorem C7_aggregate_error_is_never_raised
    (env : Env) (userPrompt systemPrompt : string) (jiraTickets : list string)
    (modelList : list string) (errors attempted : list (string * string)) (w : World) :
  modelList <> [] ->
  fst (tryModels env userPrompt systemPrompt jiraTickets modelList errors w)
  <> Thrown (newError (formatAggregateError attempted)).
Proof.
  intros Hne H.
  destruct (tryModels env userPrompt systemPrompt jiraTickets modelList errors w)
    as [o w'] eqn:E. cbn [fst] in H. subst o.
  destruct (tryModels_thrown _ _ _ _ _ _ _ _ _ Hne E) as (m & msg & hint & _ & He).
  inversion He as [Hm]. symmetry in Hm. now apply failedWithModel_not_aggregate in Hm.
Qed.

Lemma C7_aggregate_error_is_never_raised_witness :
  fst (tryModels allNotFound "commits" "prompt" []
         ["gemini-2.5-flash"; "gemini-2.0-flash"] [] initialWorld)
  <> Thrown (newError
               (formatAggregateError
                  [("gemini-2.5-flash", "models/gemini-2.5-flash is not found");
                   ("gemini-2.0-flash", "models/gemini-2.0-flash is not found")])).
Proof.
  apply (C7_aggregate_error_is_never_raised allNotFound "commits" "prompt" []
           ["gemini-2.5-flash"; "gemini-2.0-flash"] []).
  discriminate.
Defined.

(** With every candidate exhausted, the error raised names the last
    candidate alone. *)
Example exhausted_candidates_example :
  tryModels allNotFound "commits" "prompt" []
    ["gemini-2.5-flash"; "gemini-2.0-flash"] [] initialWorld
  = (Thrown (newError
               (failedWithModel "gemini-2.0-flash"
                  "models/gemini-2.0-flash is not found" accessHint)),
     logged initialWorld
       [EvGenerate (mkRequest "gemini-2.5-flash" "commits" "prompt");
        EvWarn (WarnModelUnavailable "gemini-2.5-flash"
                  (Some "models/gemini-2.5-flash is not found"));
        EvGenerate (mkRequest "gemini-2.0-flash" "commits" "prompt")]).
Proof. reflexivity. Qed.

(** *** The loop inside [generateSummary] *)

Lemma generateSummary_loop env cfg getDateRelativeText commits w modelList w1 :
  commits <> [] ->
  demoMode cfg = false ->
  aiClient cfg = true ->
  getResolvedModelPreference env cfg w = (Returned modelList, w1) ->
  modelList <> [] ->
  generateSummary env cfg getDateRelativeText commits w
  = tryModels env (userPromptFor commits)
      (systemPromptFor (getDateRelativeText commits) (extractJiraTickets commits))
      (extractJiraTickets commits) modelList [] w1.
Proof.
  intros Hc Hd Ha Hr Hm. unfold generateSummary.
  destruct commits; [congruence|]. cbn [List.length Nat.eqb].
  rewrite Hd, Ha. cbn [negb]. unfold bind. rewrite Hr.
  destruct modelList; [congruence|]. reflexivity.
Qed.

(** The whole of [generateSummary] on two discovered models: the better
    one answers at its third attempt and the other is not contacted; when no
    model is known to the account, the error names the last one. *)
Example generateSummary_examples :
  fst (generateSummary (withTwoModels overloadedTwice) liveRun
         (fun _ => "Yesterday, I") oneCommit initialWorld)
  = Returned (mkSummaryResult "Yesterday, I fixed the login." (Some "gemini-2.5-flash"))
  /\ contacted (trace (snd (generateSummary (withTwoModels overloadedTwice) liveRun
                              (fun _ => "Yesterday, I") oneCommit initialWorld)))
     = ["gemini-2.5-flash"; "gemini-2.5-flash"; "gemini-2.5-flash"]
  /\ fst (generateSummary (withTwoModels allNotFound) liveRun
            (fun _ => "Yesterday, I") oneCommit initialWorld)
     = Thrown (newError
                 (failedWithModel "gemini-2.0-flash"
                    "models/gemini-2.0-flash is not found" accessHint))
  /\ contacted (trace (snd (generateSummary (withTwoModels allNotFound) liveRun
                              (fun _ => "Yesterday, I") oneCommit initialWorld)))
     = ["gemini-2.5-flash"; "gemini-2.0-flash"].
Proof. repeat split; vm_compute; reflexivity. Qed.

End GeneratorProofs.

(** ** The run on a path that is not a repository *)

Module MainProofs.

Import Git Catalog Generator Main CatalogProofs MainSpec.

Lemma getGitUser_known env w :
  identityKnown env -> exists user, fst (getGitUser env w) = Returned user.
Proof.
  intros (name & email & N & E). unfold getGitUser, tryCatch, bind.
  rewrite (execa_ok _ _ _ _ _ N), (execa_ok _ _ _ _ _ E). now eexists.
Qed.

(** Where git cannot tell the current branch, [getCurrentBranch] throws:
    the "Not a Git repository" error when [stderr] says so, the "Could not
    determine the current Git branch" error otherwise. *)
Lemma getCurrentBranch_fails env repoPath e w :
  execaGit env revParseArgs (Some repoPath) = ExecFail e ->
  getCurrentBranch env repoPath w
  = (Thrown (newError (if stderrIncludes e "not a git repository"
                       then notARepositoryError else currentBranchError)),
     logged w [EvGit revParseArgs (Some repoPath)]).
Proof.
  intros H. unfold getCurrentBranch, tryCatch, bind.
  fold revParseArgs. rewrite (execa_fail _ _ _ _ _ H).
  now destruct (stderrIncludes e "not a git repository").
Qed.

(** *** Nothing is sent to the provider before the generation *)

Lemma quiet_ret {A} (a : A) : quiet (ret a).
Proof. intros w. reflexivity. Qed.

Lemma quiet_throw {A} (e : JsError) : quiet (@throw A e).
Proof. intros w. reflexivity. Qed.

Lemma quiet_emit (e : Event) : isProviderCall e = false -> quiet (emit e).
Proof.
  intros H w. rewrite emit_logged. cbn [snd]. rewrite count_logged. cbn.
  rewrite H. cbn. lia.
Qed.

Lemma quiet_bind {A B} (m : M A) (k : A -> M B) :
  quiet m -> (forall a, quiet (k a)) -> quiet (bind m k).
Proof.
  intros Hm Hk w. unfold bind. specialize (Hm w).
  destruct (m w) as [[a|e] w1]; cbn [snd] in *; [|assumption].
  now rewrite Hk.
Qed.

Lemma quiet_tryCatch {A} (m : M A) (handler : JsError -> M A) :
  quiet m -> (forall e, quiet (handler e)) -> quiet (tryCatch m handler).
Proof.
  intros Hm Hh w. unfold tryCatch. specialize (Hm w).
  destruct (m w) as [[a|e] w1]; cbn [snd] in *; [assumption|].
  now rewrite Hh.
Qed.

Lemma quiet_execa env args cwd : quiet (execa env args cwd).
Proof.
  unfold execa. apply quiet_bind; [now apply quiet_emit|].
  intros _. destruct (execaGit env args cwd); [apply quiet_ret | apply quiet_throw].
Qed.

Ltac quiet_steps :=
  repeat first
    [ apply quiet_ret | apply quiet_throw | apply quiet_execa
    | apply quiet_emit; reflexivity
    | apply quiet_bind; [|intros ?]
    | apply quiet_tryCatch; [|intros ?] ].

Lemma quiet_getGitUser env : quiet (getGitUser env).
Proof. unfold getGitUser. quiet_steps. Qed.

Lemma quiet_getCurrentBranch env repoPath : quiet (getCurrentBranch env repoPath).
Proof.
  unfold getCurrentBranch. quiet_steps.
  match goal with |- quiet (if ?b then _ else _) => destruct b end; quiet_steps.
Qed.

Lemma quiet_getRecentLocalBranches env repoPath excludeBranch limit :
  quiet (getRecentLocalBranches env repoPath excludeBranch limit).
Proof.
  unfold getRecentLocalBranches, warn. destruct (limit =? 0)%nat; quiet_steps.
  match goal with |- quiet (if ?b then _ else _) => destruct b end; quiet_steps.
Qed.

Lemma quiet_scanBranches env repoPath author dateRange branches :
  forall m, quiet (scanBranches env repoPath author dateRange branches m).
Proof.
  induction branches as [|b bs IH]; intros m; cbn [scanBranches]; [apply quiet_ret|].
  unfold warn. quiet_steps.
  - match goal with |- quiet (if ?b then _ else _) => destruct b end; quiet_steps.
  - match goal with |- quiet (match ?q with _ => _ end) => destruct q as [stdout|] end;
      [|apply IH].
    destruct (negb (truthy (trim stdout))); apply IH.
Qed.

Lemma quiet_fetchCommits env repoPath author dateRange branches :
  quiet (fetchCommits env repoPath author dateRange branches).
Proof.
  unfold fetchCommits. quiet_steps.
  - apply quiet_scanBranches.
  - match goal with |- quiet (if ?b then _ else _) => destruct b end; quiet_steps.
Qed.

(** Nothing is sent to the provider before the generation. *)
Lemma quiet_aggregationStage env cfg calculateDateRange :
  quiet (aggregationStage env cfg calculateDateRange).
Proof.
  unfold aggregationStage.
  apply quiet_bind; [apply quiet_getGitUser | intros user].
  apply quiet_bind; [intros w; reflexivity | intros dateRange].
  apply quiet_bind; [apply quiet_getCurrentBranch | intros currentBranch].
  apply quiet_bind; [apply quiet_getRecentLocalBranches | intros extraBranches].
  apply quiet_fetchCommits.
Qed.

(** A run whose aggregation stage throws ends there, with that error. *)
Lemma main_aggregation_thrown env cfg calculateDateRange getDateRelativeText w e w1 :
  aggregationStage env cfg calculateDateRange w = (Thrown e, w1) ->
  main env cfg calculateDateRange getDateRelativeText w
  = (Returned (ExitError (err_message e)), w1).
Proof.
  unfold aggregationStage, main, tryCatch, bind, settled. fold (repoPathOf cfg).
  destruct (getGitUser env w) as [[user|e0] w0]; [|intros H; now inversion H].
  destruct calculateDateRange as [dateRange|e0]; [|intros H; now inversion H].
  destruct (getCurrentBranch env (repoPathOf cfg) w0) as [[cb|e0] w2];
    [|intros H; now inversion H].
  destruct (getRecentLocalBranches env (repoPathOf cfg) cb (recentBranchesCount cfg) w2)
    as [[extra|e0] w3]; [|intros H; now inversion H].
  intros H. rewrite H. reflexivity.
Qed.

(** The only error that [fetchCommits] throws is the "Not a Git
    repository" error. *)
Lemma fetchCommits_thrown env repoPath author dateRange branches w e w' :
  fetchCommits env repoPath author dateRange branches w = (Thrown e, w') ->
  e = newError notARepositoryError.
Proof.
  unfold fetchCommits, tryCatch.
  destruct (bind _ _ w) as [[commits|e0] w0]; [discriminate|].
  destruct (stderrIncludes e0 "fatal: not a git repository"); cbv [ret throw];
    intros H; now inversion H.
Qed.

(** Where git cannot tell the current branch, the aggregation stage
    throws. *)
Lemma aggregation_without_branch env cfg calculateDateRange w e :
  execaGit env revParseArgs (Some (repoPathOf cfg)) = ExecFail e ->
  exists e' w1,
    aggregationStage env cfg calculateDateRange w = (Thrown e', w1)
    /\ (identityKnown env ->
        (exists dateRange, calculateDateRange = Returned dateRange) ->
        stderrIncludes e "not a git repository" = true ->
        e' = newError notARepositoryError).
Proof.
  intros H. unfold aggregationStage, bind at 1.
  pose proof (getGitUser_known env w) as Hk.
  destruct (getGitUser env w) as [[user|e0] w1]; cbn [fst] in Hk.
  - unfold bind at 1, settled.
    destruct calculateDateRange as [dateRange|e1].
    + unfold bind at 1. rewrite (getCurrentBranch_fails _ _ _ _ H).
      eexists _, _. split; [reflexivity|]. intros _ _ S. now rewrite S.
    + eexists _, _. split; [reflexivity|]. intros _ [dr D]. discriminate D.
  - eexists _, _. split; [reflexivity|].
    intros K _ _. destruct (Hk K) as [user U]. discriminate U.
Qed.

(** C3, as amended.  A run whose aggregation stage (identity, date range,
    current branch, recent branches, commits) throws ends there with that
    error and exit code 1, without a single request to the provider (neither
    the listing of the models nor a generation).  The stage throws whenever
    git cannot tell the current branch of the target path, and the "Not a Git
    repository" error is the only one that [fetchCommits] throws.  For a
    target path on which git says "not a git repository", the error of the
    run is "Not a Git repository" when the identity of the user was found and
    the date range was computed; before that the run may have ended with the
    error of the identity lookup or of the date range. *)
Theorem C3_no_repository_no_generation
    (env : Env) (cfg : Config) (calculateDateRange : Outcome DateRange)
    (getDateRelativeText : list CommitItem -> string) (w : World) :
  (forall e w1,
     aggregationStage env cfg calculateDateRange w = (Thrown e, w1) ->
     main env cfg calculateDateRange getDateRelativeText w
     = (Returned (ExitError (err_message e)), w1)
     /\ countEvents isProviderCall w1 = countEvents isProviderCall w)
  /\ (forall e,
        execaGit env revParseArgs (Some (repoPathOf cfg)) = ExecFail e ->
        exists e' w1,
          aggregationStage env cfg calculateDateRange w = (Thrown e', w1)
          /\ (identityKnown env ->
              (exists dateRange, calculateDateRange = Returned dateRange) ->
              stderrIncludes e "not a git repository" = true ->
              e' = newError notARepositoryError))
  /\ (forall repoPath author dateRange branches w0 e w1,
        fetchCommits env repoPath author dateRange branches w0 = (Thrown e, w1) ->
        e = newError notARepositoryError).
Proof.
  split; [|split].
  - intros e w1 H. split.
    + now apply main_aggregation_thrown.
    + pose proof (quiet_aggregationStage env cfg calculateDateRange w) as Q.
      now rewrite H in Q.
  - intros e. apply aggregation_without_branch.
  - intros repoPath author dateRange branches w0 e w1. apply fetchCommits_thrown.
Qed.

Lemma C3_no_repository_no_generation_witness :
  fst (main outsideWithIdentity somePathConfig (Returned C2Spec.sampleRange)
         (fun _ => "Yesterday, I") initialWorld)
  = Returned (ExitError (Some notARepositoryError))
  /\ countEvents isProviderCall
       (snd (main outsideWithIdentity somePathConfig (Returned C2Spec.sampleRange)
               (fun _ => "Yesterday, I") initialWorld)) = 0%nat.
Proof.
  destruct (C3_no_repository_no_generation outsideWithIdentity somePathConfig
              (Returned C2Spec.sampleRange) (fun _ => "Yesterday, I") initialWorld)
    as (Ends & Throws & _).
  destruct (Throws (gitFailure notARepositoryStderr) eq_refl) as (e' & w1 & A & N).
  destruct (Ends e' w1 A) as [E C]. rewrite E. cbn [fst snd].
  rewrite N.
  - split; [reflexivity | exact C].
  - exists "dev@example.org", "dev@example.org". split; reflexivity.
  - now eexists.
  - reflexivity.
Defined.

(** C3 as worded fails: outside a repository and with no user name known
    to git, the run ends with the error of the identity lookup, not with "Not
    a Git repository". *)
Lemma C3_counterexample :
  notARepository outsideWithoutIdentity somePathConfig
  /\ ~ failsAsNotARepository outsideWithoutIdentity somePathConfig
         (Returned C2Spec.sampleRange) (fun _ => "Yesterday, I") initialWorld.
Proof.
  split.
  - exists (gitFailure notARepositoryStderr). split; reflexivity.
  - intros [H _]. vm_compute in H. discriminate H.
Qed.

Example run_on_missing_directory :
  fst (main missingDirectory somePathConfig (Returned C2Spec.sampleRange)
         (fun _ => "Yesterday, I") initialWorld)
  = Returned (ExitError (Some currentBranchError)).
Proof. reflexivity. Qed.

Example run_without_identity :
  fst (main outsideWithoutIdentity somePathConfig (Returned C2Spec.sampleRange)
         (fun _ => "Yesterday, I") initialWorld)
  = Returned (ExitError (Some userConfigError)).
Proof. reflexivity. Qed.

End MainProofs.

(** ** The default sort of strings *)

Module SortProofs.

Lemma ascii_compare_lt_trans (a b c : ascii) :
  Ascii.compare a b = Lt -> Ascii.compare b c = Lt -> Ascii.compare a c = Lt.
Proof.
  unfold Ascii.compare. rewrite !N.compare_lt_iff. apply N.lt_trans.
Qed.

Lemma compare_lt_trans (a : string) : forall b c,
  String.compare a b = Lt -> String.compare b c = Lt -> String.compare a c = Lt.
Proof.
  induction a as [|x a IH]; intros [|y b] [|z c]; cbn; try easy.
  destruct (Ascii.compare x y) eqn:Cxy; try discriminate.
  - apply Ascii.compare_eq_iff in Cxy. subst y.
    destruct (Ascii.compare x z); try easy. apply IH.
  - destruct (Ascii.compare y z) eqn:Cyz; try discriminate.
    + apply Ascii.compare_eq_iff in Cyz. subst z. now rewrite Cxy.
    + now rewrite (ascii_compare_lt_trans _ _ _ Cxy Cyz).
Qed.

(** [a] is not after [b]. *)
Local Abbreviation notAfter := (fun a b : string => String.ltb b a = false).
Local Abbreviation isNotAfter a b := (String.ltb b a = false) (only parsing).

Lemma ltb_compare (a b : string) : String.ltb a b = true <-> String.compare a b = Lt.
Proof. unfold String.ltb. now destruct (String.compare a b). Qed.

Lemma notAfter_of_ltb (a b : string) : String.ltb a b = true -> isNotAfter a b.
Proof.
  rewrite ltb_compare. intros H. unfold String.ltb.
  rewrite String.compare_antisym, H. reflexivity.
Qed.

Lemma notAfter_trans (a b c : string) :
  isNotAfter a b -> isNotAfter b c -> isNotAfter a c.
Proof.
  intros Hab Hbc. destruct (String.ltb c a) eqn:Hca; [|reflexivity].
  apply ltb_compare in Hca.
  destruct (String.compare b a) eqn:Cba.
  - apply String.compare_eq_iff in Cba. subst b.
    apply ltb_compare in Hca. congruence.
  - apply ltb_compare in Cba. congruence.
  - assert (Cab : String.compare a b = Lt)
      by (rewrite String.compare_antisym, Cba; reflexivity).
    pose proof (compare_lt_trans _ _ _ Hca Cab) as Hcb.
    apply ltb_compare in Hcb. congruence.
Qed.

Lemma notAfter_strict (a b : string) :
  isNotAfter a b -> a <> b -> String.ltb a b = true.
Proof.
  intros H N. apply ltb_compare.
  destruct (String.compare a b) eqn:C; [| reflexivity |].
  - apply String.compare_eq_iff in C. contradiction.
  - assert (String.compare b a = Lt)
      by (rewrite String.compare_antisym, C; reflexivity).
    apply ltb_compare in H0. congruence.
Qed.

Lemma insertBy_perm {A} (gt : A -> A -> bool) (x : A) (l : list A) :
  Permutation (insertBy gt x l) (x :: l).
Proof.
  induction l as [|y l IH]; cbn; [reflexivity|].
  destruct (gt x y); [|reflexivity].
  rewrite IH. apply perm_swap.
Qed.

Lemma sortBy_perm {A} (gt : A -> A -> bool) (l : list A) :
  Permutation (sortBy gt l) l.
Proof.
  induction l as [|x l IH]; cbn; [reflexivity|].
  rewrite insertBy_perm. now constructor.
Qed.

Lemma sort_In (l : list string) (x : string) : In x (sort l) <-> In x l.
Proof.
  split; apply Permutation_in; [|symmetry]; apply sortBy_perm.
Qed.

Lemma insert_sorted (x : string) (l : list string) :
  StronglySorted notAfter l ->
  StronglySorted notAfter (insertBy (fun x y => String.ltb y x) x l).
Proof.
  induction 1 as [|y l Hl IH Hy]; cbn.
  - repeat constructor.
  - destruct (String.ltb y x) eqn:E.
    + constructor; [assumption|].
      eapply Permutation_Forall; [symmetry; apply insertBy_perm|].
      constructor; [now apply notAfter_of_ltb | assumption].
    + constructor; [now constructor|].
      constructor; [exact E|].
      eapply Forall_impl; [|exact Hy]. intros z Hz. cbn beta in *.
      now apply (notAfter_trans x y z).
Qed.

Lemma sort_sorted (l : list string) : StronglySorted notAfter (sort l).
Proof.
  induction l as [|x l IH]; cbn; [constructor|]. now apply insert_sorted.
Qed.

(** Sorting a list without repetition puts it in strictly ascending
    order. *)
Lemma sort_ascending (l : list string) :
  NoDup l -> StronglySorted (fun a b => String.ltb a b = true) (sort l).
Proof.
  intros ND.
  assert (ND' : NoDup (sort l))
    by (eapply Permutation_NoDup; [symmetry; apply sortBy_perm | assumption]).
  pose proof (sort_sorted l) as S.
  induction S as [|x m Sm IH Hx]; [constructor|].
  inversion ND' as [|? ? Nx NDm]; subst.
  constructor; [now apply IH|].
  rewrite Forall_forall in Hx |- *. intros y Hy.
  apply notAfter_strict; [now apply Hx|]. intros ->. contradiction.
Qed.

End SortProofs.

(** ** One commit for each hash *)

Module AggregationProofs.

Import Git ScanSpec ScanProofs FetchProofs SortProofs.

(** *** Sets of strings *)

Lemma setHas_In s x : setHas s x = true <-> In x s.
Proof.
  unfold setHas. rewrite existsb_exists. split.
  - intros (y & Hy & E). apply String.eqb_eq in E. now subst.
  - intros H. exists x. split; [assumption | apply String.eqb_refl].
Qed.

Lemma setAdd_In s b x : In x (setAdd s b) <-> In x s \/ x = b.
Proof.
  unfold setAdd. destruct (setHas s b) eqn:E.
  - apply setHas_In in E. split; [now left|]. intros [H|H]; [assumption | now subst].
  - rewrite in_app_iff. cbn. intuition.
Qed.

Lemma setAdd_NoDup s b : NoDup s -> NoDup (setAdd s b).
Proof.
  intros H. unfold setAdd. destruct (setHas s b) eqn:E; [assumption|].
  assert (N : ~ In b s) by (rewrite <- setHas_In, E; discriminate).
  clear E. induction H as [|x l Hx Hl IH]; cbn.
  - constructor; [intros []|constructor].
  - constructor.
    + rewrite in_app_iff. cbn. intros [K|[K|[]]]; [now apply Hx|].
      subst. apply N. now left.
    + apply IH. intros K. apply N. now right.
Qed.

(** *** The map *)

Lemma mapHas_In m h : mapHas m h = true <-> In h (map hash m).
Proof.
  unfold mapHas. rewrite existsb_exists, in_map_iff. split.
  - intros (c & Hc & E). apply String.eqb_eq in E. now exists c.
  - intros (c & E & Hc). exists c. split; [assumption|]. now apply String.eqb_eq.
Qed.

Lemma mapAddBranch_hashes m h b : map hash (mapAddBranch m h b) = map hash m.
Proof.
  unfold mapAddBranch. rewrite map_map. apply map_ext.
  intros c. now destruct (hash c =? h)%string.
Qed.

(** *** First sightings *)

Lemma firstSighting_app l s h :
  firstSighting (l ++ [s]) h =
  match firstSighting l h with
  | Some x => Some x
  | None => if (s_hash s =? h)%string then Some s else None
  end.
Proof.
  unfold firstSighting. induction l as [|x l IH]; cbn; [reflexivity|].
  now destruct (s_hash x =? h)%string.
Qed.

Lemma firstSighting_none l h :
  firstSighting l h = None <-> ~ exists s, In s l /\ s_hash s = h.
Proof.
  unfold firstSighting. split.
  - intros H (s & Hs & E).
    pose proof (find_none _ _ H s Hs) as K. cbn in K.
    rewrite <- E, String.eqb_refl in K. discriminate K.
  - intros H. destruct (find _ l) as [s|] eqn:F; [|reflexivity].
    exfalso. apply H. apply find_some in F as [Hs E].
    exists s. split; [assumption | now apply String.eqb_eq].
Qed.

(** *** The aggregation of the sightings *)

Lemma represents_other l s c :
  s_hash s <> hash c -> represents l c -> represents (l ++ [s]) c.
Proof.
  intros N ((x & F & Hm & Hd) & ND & B). repeat split.
  - exists x. rewrite firstSighting_app, F. now split.
  - exact ND.
  - intros H. apply B in H as (y & Hy & E1 & E2). exists y.
    rewrite in_app_iff. now intuition.
  - intros (y & Hy & E1 & E2). apply B. exists y.
    apply in_app_iff in Hy as [Hy|[Hy|[]]]; [now split|]. subst y. contradiction.
Qed.

Lemma aggregates_nil : aggregates [] [].
Proof.
  repeat split; try constructor.
  - intros [].
  - intros (s & [] & _).
Qed.

Lemma aggregates_snoc l m s :
  aggregates l m -> aggregates (l ++ [s]) (recordSighting m s).
Proof.
  intros (ND & Hh & Hr). unfold recordSighting.
  destruct (mapHas m (s_hash s)) eqn:Has; cbn [negb].
  - (* the hash is in the map: one more branch for its commit *)
    apply mapHas_In in Has. repeat split.
    + now rewrite mapAddBranch_hashes.
    + rewrite mapAddBranch_hashes. intros H. apply Hh in H as (x & Hx & E).
      exists x. rewrite in_app_iff. now intuition.
    + rewrite mapAddBranch_hashes. intros (x & Hx & E).
      apply in_app_iff in Hx as [Hx|[Hx|[]]].
      * apply Hh. now exists x.
      * now subst.
    + unfold mapAddBranch. apply Forall_map.
      eapply Forall_impl; [|exact Hr]. intros c Hc. cbn beta.
      destruct (hash c =? s_hash s)%string eqn:E.
      * apply String.eqb_eq in E.
        destruct Hc as ((x & F & Hm & Hd) & NDc & B). repeat split; cbn.
        -- exists x. rewrite firstSighting_app, F. now split.
        -- now apply setAdd_NoDup.
        -- intros H. apply setAdd_In in H as [H|H].
           ++ apply B in H as (y & Hy & E1 & E2). exists y.
              rewrite in_app_iff. now intuition.
           ++ exists s. rewrite in_app_iff. cbn. now intuition.
        -- intros (y & Hy & E1 & E2). apply setAdd_In.
           apply in_app_iff in Hy as [Hy|[Hy|[]]].
           ++ left. apply B. now exists y.
           ++ right. now subst.
      * apply String.eqb_neq in E. apply represents_other; [congruence | assumption].
  - (* a new hash: a new commit at the end of the map *)
    assert (New : ~ In (s_hash s) (map hash m))
      by (rewrite <- mapHas_In, Has; discriminate).
    assert (Unseen : ~ exists x, In x l /\ s_hash x = s_hash s)
      by (intros K; apply New, Hh, K).
    repeat split.
    + rewrite map_app. cbn. clear - ND New.
      induction m as [|c m IH]; cbn in *.
      * constructor; [intros [] | constructor].
      * inversion ND; subst. constructor.
        -- rewrite in_app_iff. cbn. intros [K|[K|[]]]; [contradiction|].
           apply New. now left.
        -- apply IH; [assumption|]. intros K. apply New. now right.
    + rewrite map_app, in_app_iff. cbn. intros [H|[H|[]]].
      * apply Hh in H as (x & Hx & E). exists x. rewrite in_app_iff. now intuition.
      * exists s. rewrite in_app_iff. cbn. now intuition.
    + rewrite map_app, in_app_iff. cbn. intros (x & Hx & E).
      apply in_app_iff in Hx as [Hx|[Hx|[]]].
      * left. apply Hh. now exists x.
      * right. left. now subst.
    + apply Forall_app. split.
      * rewrite Forall_forall in Hr |- *. intros c Hc.
        apply represents_other; [|now apply Hr].
        intros E. apply New. rewrite E. now apply in_map.
      * constructor; [|constructor]. repeat split; cbn.
        -- exists s. rewrite firstSighting_app.
           apply firstSighting_none in Unseen. rewrite Unseen, String.eqb_refl.
           now split.
        -- constructor; [intros [] | constructor].
        -- intros [H|[]]. exists s. rewrite in_app_iff. cbn. now intuition.
        -- intros (y & Hy & E1 & E2). left.
           apply in_app_iff in Hy as [Hy|[Hy|[]]].
           ++ exfalso. apply Unseen. now exists y.
           ++ now subst.
Qed.

Lemma aggregates_fold l : aggregates l (fold_left recordSighting l []).
Proof.
  induction l as [|s l IH] using rev_ind.
  - apply aggregates_nil.
  - rewrite fold_left_app. cbn. now apply aggregates_snoc.
Qed.

(** *** From the blocks of the logs to the sightings *)





Section Sightings.

Variable env : Env.
Variables repoPath author : string.
Variable dateRange : DateRange.

Local Abbreviation abortsWith := (abortsWith env repoPath author dateRange).
Local Abbreviation branchBlocks := (branchBlocks env repoPath author dateRange).
Local Abbreviation branchSightings := (branchSightings env repoPath author dateRange).
Local Abbreviation sightings := (sightings env repoPath author dateRange).
Local Abbreviation scanPure := (scanPure env repoPath author dateRange).
Local Abbreviation seenOn := (seenOn env repoPath author dateRange).

Lemma recordBlock_parse branch m block :
  recordBlock branch m block =
  match parseBlock branch block with
  | Some s => recordSighting m s
  | None => m
  end.
Proof.
  unfold recordBlock, parseBlock, recordSighting.
  now destruct (3 <=? List.length (split LF (trim block)))%nat.
Qed.

Lemma recordBlocks_sightings branch blocks : forall m,
  fold_left (recordBlock branch) blocks m
  = fold_left recordSighting (sightingsOfBlocks branch blocks) m.
Proof.
  induction blocks as [|block blocks IH]; intros m; [reflexivity|].
  unfold sightingsOfBlocks. cbn [fold_left flat_map].
  rewrite fold_left_app, recordBlock_parse.
  destruct (parseBlock branch block); cbn [fold_left]; apply IH.
Qed.

Lemma scanPure_sightings branches : forall m,
  scanPure branches m = fold_left recordSighting (sightings branches) m.
Proof.
  induction branches as [|b bs IH]; intros m; [reflexivity|].
  unfold ScanSpec.scanPure, ScanSpec.sightings in *. cbn [fold_left flat_map].
  rewrite fold_left_app, IH. f_equal. apply recordBlocks_sightings.
Qed.

Lemma branchSightings_branch b s : In s (branchSightings b) -> s_branch s = b.
Proof.
  unfold ScanSpec.branchSightings, sightingsOfBlocks. rewrite in_flat_map.
  intros (block & _ & H). unfold parseBlock in H.
  destruct (3 <=? _)%nat; [|destruct H]. destruct H as [<- | []]. reflexivity.
Qed.

(** The branches on which a hash was sighted in a scan. *)
Lemma sighted_branches branches h b :
  (exists s, In s (sightings branches) /\ s_hash s = h /\ s_branch s = b)
  <-> In b branches /\ seenOn b h.
Proof.
  unfold ScanSpec.sightings, ScanSpec.seenOn. split.
  - intros (s & Hs & E1 & E2). apply in_flat_map in Hs as (b' & Hb' & Hs).
    pose proof (branchSightings_branch _ _ Hs) as E3.
    rewrite E2 in E3. subst b'. split; [assumption|]. now exists s.
  - intros (Hb & s & Hs & E). exists s. split.
    + apply in_flat_map. now exists b.
    + split; [assumption|]. now apply branchSightings_branch.
Qed.


(** The provenance of every commit that a complete scan returns: one entry
    for each hash sighted, whose branches are the scanned branches on which
    the hash was sighted, in ascending order. *)
Lemma fetchCommits_provenance order w :
  order <> [] ->
  Forall (fun x => abortsWith x = None) order ->
  exists commits w',
    fetchCommits env repoPath author dateRange (Some order) w = (Returned commits, w')
    /\ NoDup (map hash commits)
    /\ (forall h, In h (map hash commits) <-> exists b, In b order /\ seenOn b h)
    /\ Forall (fun c =>
                 StronglySorted (fun x y => String.ltb x y = true) (branches c)
                 /\ forall b, In b (branches c) <-> In b order /\ seenOn b (hash c))
              commits.
Proof.
  intros Hne HF.
  rewrite (fetchCommits_complete env repoPath author dateRange order w Hne HF).
  rewrite scanPure_sightings.
  destruct (aggregates_fold (sightings order)) as (ND & Hh & Hr).
  set (m := fold_left recordSighting (sightings order) []) in *.
  assert (Hm : map hash (map withSortedBranches m) = map hash m)
    by (rewrite map_map; now apply map_ext).
  eexists _, _. split; [reflexivity|]. rewrite Hm. split; [exact ND|]. split.
  - intros h. rewrite Hh. split.
    + intros (s & Hs & E). exists (s_branch s). apply sighted_branches. now exists s.
    + intros (b & Hb). apply sighted_branches in Hb as (s & Hs & E & _). now exists s.
  - apply Forall_map. eapply Forall_impl; [|exact Hr].
    intros c (_ & NDc & B). cbn. split.
    + now apply sort_ascending.
    + intros b. now rewrite sort_In, B, sighted_branches.
Qed.

End Sightings.





End AggregationProofs.

(** ** The default branch *)

Module DefaultBranch.

Import Git ScanSpec ScanProofs C2Spec FetchProofs AggregationProofs.

(** The commits recorded from a single branch carry that branch alone. *)
Lemma recordBlock_single_branch branch m block :
  Forall (fun c => branches c = [branch]) m ->
  Forall (fun c => branches c = [branch]) (recordBlock branch m block).
Proof.
  intros H. unfold recordBlock.
  destruct (3 <=? List.length (split LF (trim block)))%nat; [|assumption].
  destruct (negb (mapHas m _)).
  - apply Forall_app; split; [assumption|]. constructor; [reflexivity|constructor].
  - unfold mapAddBranch. apply Forall_map. eapply Forall_impl; [|exact H].
    intros c Hc; cbn beta. destruct (hash c =? _)%string; [|assumption].
    cbn [branches]. rewrite Hc. unfold setAdd, setHas; cbn.
    now rewrite String.eqb_refl.
Qed.

Lemma recordBlocks_single_branch branch blocks : forall m,
  Forall (fun c => branches c = [branch]) m ->
  Forall (fun c => branches c = [branch]) (fold_left (recordBlock branch) blocks m).
Proof.
  induction blocks as [|b bs IH]; intros m H; cbn; [assumption|].
  apply IH. now apply recordBlock_single_branch.
Qed.

(** C9.  Called with no branch list or with an empty one, [fetchCommits]
    does what it does for the list of the single name HEAD: it queries the
    history of HEAD and nothing else, and every commit it returns carries
    HEAD as its only branch.  When that query does not end the scan, the
    list returned has exactly one commit for each hash in the log of HEAD,
    with the message and the date of the first block of that hash; it is
    empty only when the log of HEAD has no block to read.  When the query
    ends the scan, the call throws the "Not a Git repository" error or
    returns the empty list, as for any other branch. *)
Theorem C9_no_branches_scans_HEAD
    (env : Env) (repoPath author : string) (dateRange : DateRange) (w : World) :
  fetchCommits env repoPath author dateRange None w =
    fetchCommits env repoPath author dateRange (Some ["HEAD"]) w
  /\ fetchCommits env repoPath author dateRange (Some []) w =
    fetchCommits env repoPath author dateRange (Some ["HEAD"]) w
  /\ (exists evs,
        snd (fetchCommits env repoPath author dateRange None w) =
          logged w (EvGit (logArgs author dateRange "HEAD") (Some repoPath) :: evs)
        /\ Forall (fun e => isGitEvent e = false) evs)
  /\ (forall commits w',
        fetchCommits env repoPath author dateRange None w = (Returned commits, w') ->
        Forall (fun c => branches c = ["HEAD"]) commits)
  /\ match abortsWith env repoPath author dateRange "HEAD" with
     | None =>
         exists commits w',
           fetchCommits env repoPath author dateRange None w = (Returned commits, w')
           /\ NoDup (map hash commits)
           /\ (forall h, In h (map hash commits)
                         <-> seenOn env repoPath author dateRange "HEAD" h)
           /\ (commits = [] <-> branchSightings env repoPath author dateRange "HEAD" = [])
           /\ Forall (fun c =>
                        branches c = ["HEAD"]
                        /\ exists s,
                             firstSighting
                               (branchSightings env repoPath author dateRange "HEAD")
                               (hash c) = Some s
                             /\ message c = s_message s /\ date c = s_date s)
                     commits
     | Some e =>
         fst (fetchCommits env repoPath author dateRange None w)
         = if stderrIncludes e "fatal: not a git repository"
           then Thrown (newError notARepositoryError)
           else Returned []
     end.
Proof.
  split; [reflexivity|]. split; [reflexivity|].
  change (fetchCommits env repoPath author dateRange None w)
    with (fetchCommits env repoPath author dateRange (Some ["HEAD"]) w).
  destruct (abortsWith env repoPath author dateRange "HEAD") as [e|] eqn:Hab.
  - pose proof (fetchCommits_aborted env repoPath author dateRange [] "HEAD" [] e w
                  (Forall_nil _) Hab) as E.
    cbn [app flat_map] in E. rewrite E. clear E.
    split; [|split].
    + exists []. split; [reflexivity | constructor].
    + intros commits w' H.
      destruct (stderrIncludes e "fatal: not a git repository"); inversion H; constructor.
    + reflexivity.
  - rewrite (fetchCommits_complete env repoPath author dateRange ["HEAD"] w)
      by (try discriminate; repeat constructor; assumption).
    assert (S1 : Forall (fun c => branches c = ["HEAD"])
                   (scanPure env repoPath author dateRange ["HEAD"] [])).
    { cbn [scanPure fold_left]. apply recordBlocks_single_branch. constructor. }
    split; [|split].
    + cbn [flat_map]. rewrite app_nil_r. unfold branchEvents.
      eexists; split; [reflexivity|].
      destruct (branchQuery _ _ _ _ _); repeat constructor.
    + intros commits w' H. inversion H; subst. apply Forall_map.
      eapply Forall_impl; [|exact S1].
      intros c Hc. cbn. now rewrite Hc.
    + eexists _, _. split; [reflexivity|].
      revert S1. rewrite scanPure_sightings. cbn [sightings flat_map].
      rewrite app_nil_r.
      set (l := branchSightings env repoPath author dateRange "HEAD").
      destruct (aggregates_fold l) as (ND & Hh & Hr).
      set (m := fold_left recordSighting l []) in *. intros S1.
      assert (Hm : map hash (map withSortedBranches m) = map hash m)
        by (rewrite map_map; now apply map_ext).
      rewrite Hm. split; [exact ND|]. split; [exact Hh|]. split.
      * split.
        -- intros E. destruct m as [|c m']; [|discriminate E].
           destruct l as [|s l']; [reflexivity|]. exfalso.
           apply (proj2 (Hh (s_hash s))). exists s. split; [now left | reflexivity].
        -- intros E. subst m. now rewrite E.
      * apply Forall_map. rewrite Forall_forall in *. intros c Hc.
        cbn [branches hash message date withSortedBranches].
        split; [now rewrite (S1 c Hc)|].
        destruct (Hr c Hc) as ((s & F & Em & Ed) & _). now exists s.
Qed.

Lemma C9_no_branches_scans_HEAD_witness :
  exists commits w',
    fetchCommits (gitEnv (fun _ => ExecOk oneCommitLog)) "." "dev@example.org"
      sampleRange None initialWorld = (Returned commits, w')
    /\ map hash commits = ["1f3a"]
    /\ Forall (fun c =>
                 branches c = ["HEAD"]
                 /\ exists s,
                      firstSighting
                        (branchSightings (gitEnv (fun _ => ExecOk oneCommitLog)) "."
                           "dev@example.org" sampleRange "HEAD")
                        (hash c) = Some s
                      /\ message c = s_message s /\ date c = s_date s)
              commits.
Proof.
  destruct (proj2 (proj2 (proj2 (proj2
              (C9_no_branches_scans_HEAD (gitEnv (fun _ => ExecOk oneCommitLog)) "."
                 "dev@example.org" sampleRange initialWorld)))))
    as (commits & w' & E & _ & _ & _ & F).
  exists commits, w'. split; [exact E|]. split; [|exact F].
  vm_compute in E. inversion E. reflexivity.
Defined.

(** On a repository whose HEAD has a commit in the window, the call without
    branches returns that commit. *)
Example fetchCommits_HEAD_example :
  fst (fetchCommits (gitEnv (fun _ => ExecOk oneCommitLog)) "." "dev@example.org"
         sampleRange None initialWorld)
  = Returned [mkCommit ("fix ABC-12 login" +++ LF +++ LF +++ "---COMMIT_SEPARATOR---")
                "2024-01-15" "1f3a" ["HEAD"]].
Proof. reflexivity. Qed.

End DefaultBranch.


(** ** Jira tickets *)

Module JiraProofs.

Import Git Generator JiraSpec.

(** *** Strings *)

Lemma append_nil_r (s : string) : s +++ "" = s.
Proof. induction s as [|c s IH]; cbn; [reflexivity | now rewrite IH]. Qed.

Lemma append_assoc (a b c : string) : (a +++ b) +++ c = a +++ b +++ c.
Proof. induction a as [|x a IH]; cbn; [reflexivity | now rewrite IH]. Qed.

Lemma length_append (a b : string) :
  String.length (a +++ b) = (String.length a + String.length b)%nat.
Proof. induction a as [|x a IH]; cbn; [reflexivity | now rewrite IH]. Qed.

Lemma substring_prefix (a b : string) : substring 0 (String.length a) (a +++ b) = a.
Proof.
  induction a as [|x a IH]; cbn; [now destruct b | now rewrite IH].
Qed.

Lemma lastCharOr_nonempty (p q : option ascii) (s : string) :
  s <> "" -> lastCharOr p s = lastCharOr q s.
Proof. destruct s; [congruence | reflexivity]. Qed.

Lemma lastCharOr_append (p : option ascii) (a b : string) :
  lastCharOr p (a +++ b) = lastCharOr (lastCharOr p a) b.
Proof. revert p. induction a as [|x a IH]; intros p; cbn; [reflexivity | apply IH]. Qed.

(** *** Classes of code units *)

Lemma isUpper_word c : isUpper c = true -> isWordChar c = true.
Proof. unfold isWordChar. now intros ->. Qed.

Lemma isDigit_word c : isDigit c = true -> isWordChar c = true.
Proof. unfold isWordChar. intros ->. now rewrite !orb_true_r. Qed.

Lemma isDigit_not_upper c : isDigit c = true -> isUpper c = false.
Proof.
  unfold isDigit, isUpper, between. intros H.
  apply andb_true_iff in H as [_ H]. apply Nat.leb_le in H.
  apply andb_false_iff. left. apply Nat.leb_gt. lia.
Qed.

Lemma headChar_append (a b : string) :
  a <> "" -> headChar (a +++ b) = headChar a.
Proof. destruct a; [congruence | reflexivity]. Qed.

(** *** The matcher at one position *)

(** [\d+\b]: the digits matched are all the digits at the start, and what
    follows them does not start with a word character. *)
Lemma matchDigits_spec (s : string) (n : nat) :
  matchDigits s = Some n <->
  exists digits rest,
    s = digits +++ rest /\ String.length digits = n /\ digits <> ""
    /\ allChars isDigit digits = true /\ isWordOpt (headChar rest) = false.
Proof.
  revert n. induction s as [|c s IH]; intros n.
  - split; [discriminate|].
    intros (d & r & E & _ & N & _). destruct d; [congruence | discriminate E].
  - cbn [matchDigits]. split.
    + destruct (isDigit c) eqn:D; [|discriminate].
      destruct (matchDigits s) as [k|] eqn:M.
      * intros H. inversion H; subst.
        destruct (proj1 (IH k) eq_refl) as (d & r & E & L & N & A & B).
        exists (String c d), r. subst. cbn. rewrite D, A. repeat split; congruence.
      * unfold wordBoundary. cbn [isWordOpt]. rewrite (isDigit_word _ D).
        destruct (isWordOpt (headChar s)) eqn:W; cbn; [discriminate|].
        intros H. inversion H; subst. exists (String c ""), s. cbn. rewrite D.
        repeat split; congruence.
    + intros (d & r & E & L & N & A & B).
      destruct d as [|x d]; [congruence|]. cbn in E. inversion E; subst x s.
      cbn in A. apply andb_true_iff in A as [D A]. rewrite D.
      destruct d as [|y d].
      * cbn in *. destruct (matchDigits r) as [k|] eqn:M.
        -- exfalso. destruct (proj1 (IH k) eq_refl) as (d' & r' & E' & _ & N' & A' & _).
           destruct d' as [|z d']; [congruence|]. cbn in A'.
           apply andb_true_iff in A' as [D' _]. subst r. cbn in B.
           rewrite (isDigit_word _ D') in B. discriminate B.
        -- unfold wordBoundary. cbn [isWordOpt]. rewrite (isDigit_word _ D), B.
           cbn. congruence.
      * assert (M : matchDigits (String y d +++ r) = Some (String.length (String y d))).
        { apply IH. exists (String y d), r. repeat split; try assumption. discriminate. }
        rewrite M. cbn in L |- *. congruence.
Qed.

Lemma matchLetters_dash (s : string) : matchLetters (String "-" s) = None.
Proof. reflexivity. Qed.

(** [[A-Z]+-\d+\b]: letters, the dash, digits, and what follows does not
    start with a word character. *)
Lemma matchLetters_spec (s : string) (n : nat) :
  matchLetters s = Some n <->
  exists letters digits rest,
    s = letters +++ "-" +++ digits +++ rest
    /\ String.length (letters +++ "-" +++ digits) = n
    /\ letters <> "" /\ digits <> ""
    /\ allChars isUpper letters = true /\ allChars isDigit digits = true
    /\ isWordOpt (headChar rest) = false.
Proof.
  revert n. induction s as [|c s IH]; intros n.
  - split; [discriminate|].
    intros (l & d & r & E & _ & N & _). destruct l; [congruence | discriminate E].
  - cbn [matchLetters]. split.
    + destruct (isUpper c) eqn:U; [|discriminate].
      destruct (matchLetters s) as [k|] eqn:M.
      * intros H. inversion H; subst.
        destruct (proj1 (IH k) eq_refl) as (l & d & r & E & L & Nl & Nd & Al & Ad & B).
        exists (String c l), d, r. subst. cbn. rewrite U, Al.
        repeat split; congruence.
      * destruct s as [|x s]; [discriminate|].
        destruct (Ascii.eqb_spec x "-"%char) as [->|Nx].
        -- destruct (matchDigits s) as [k|] eqn:Md; [|discriminate].
           intros H. inversion H; subst.
           apply matchDigits_spec in Md as (d & r & E & L & Nd & Ad & B).
           exists (String c ""), d, r. subst. cbn. rewrite U.
           repeat split; congruence.
        -- intros H. exfalso.
           destruct x as [[] [] [] [] [] [] [] []]; try discriminate H.
           now apply Nx.
    + intros (l & d & r & E & L & Nl & Nd & Al & Ad & B).
      destruct l as [|x l]; [congruence|]. cbn in E. inversion E; subst x s.
      cbn in Al. apply andb_true_iff in Al as [U Al]. rewrite U.
      destruct l as [|y l].
      * cbn [String.append]. rewrite matchLetters_dash.
        assert (Md : matchDigits (d +++ r) = Some (String.length d)).
        { apply matchDigits_spec. exists d, r. now repeat split. }
        rewrite Md. cbn in L. congruence.
      * assert (M : matchLetters (String y l +++ "-" +++ d +++ r)
                    = Some (String.length (String y l +++ "-" +++ d))).
        { apply IH. exists (String y l), d, r. repeat split; try assumption. discriminate. }
        cbn [String.append] in M |- *. rewrite M. cbn in L |- *. congruence.
Qed.

(** *** Tickets *)

Lemma ticketShape_head t :
  ticketShape t -> exists c t', t = String c t' /\ isUpper c = true.
Proof.
  intros (l & d & E & Nl & _ & Al & _). destruct l as [|c l]; [congruence|].
  cbn in Al. apply andb_true_iff in Al as [U _]. subst. cbn. now eexists _, _.
Qed.

Lemma allChars_last (p : ascii -> bool) (s : string) : forall prev,
  s <> "" -> allChars p s = true ->
  exists x, lastCharOr prev s = Some x /\ p x = true.
Proof.
  induction s as [|c s IH]; intros prev N A; [congruence|].
  cbn in A. apply andb_true_iff in A as [Pc A].
  destruct s as [|y s]; [now exists c|].
  apply (IH (Some c)); [discriminate | assumption].
Qed.

Lemma ticketShape_last t prev :
  ticketShape t -> exists x, lastCharOr prev t = Some x /\ isWordChar x = true.
Proof.
  intros (l & d & E & _ & Nd & _ & Ad). subst.
  rewrite !lastCharOr_append.
  destruct (allChars_last isDigit d (lastCharOr (lastCharOr prev l) "-") Nd Ad)
    as (x & Hx & Dx).
  exists x. split; [assumption | now apply isDigit_word].
Qed.

Lemma matchLetters_shape s n :
  matchLetters s = Some n <->
  exists t after,
    s = t +++ after /\ String.length t = n /\ ticketShape t
    /\ isWordOpt (headChar after) = false.
Proof.
  rewrite matchLetters_spec. split.
  - intros (l & d & r & E & L & Nl & Nd & Al & Ad & B).
    exists (l +++ "-" +++ d), r. rewrite !append_assoc. repeat split; try assumption.
    now exists l, d.
  - intros (t & after & E & L & (l & d & Et & Nl & Nd & Al & Ad) & B).
    exists l, d, after. subst. rewrite !append_assoc. now repeat split.
Qed.

Lemma matchJiraAt_spec prev s n :
  matchJiraAt prev s = Some n <->
  isWordOpt prev = false /\ matchLetters s = Some n.
Proof.
  unfold matchJiraAt, wordBoundary.
  destruct (matchLetters s) as [k|] eqn:M.
  - apply matchLetters_shape in M as (t & after & E & _ & Sh & _).
    destruct (ticketShape_head t Sh) as (c & t' & -> & U). subst s.
    cbn. rewrite (isUpper_word _ U).
    destruct (isWordOpt prev); cbn; split; intros H; try discriminate;
      try (destruct H; discriminate); now try split.
  - split; [now destruct (xorb _ _) | intros [_ H]; discriminate H].
Qed.

(** *** Matches do not overlap *)

Lemma append_split (a r b x : string) :
  a +++ r = b +++ x -> (String.length a <= String.length b)%nat ->
  exists b1, b = a +++ b1 /\ r = b1 +++ x.
Proof.
  revert b. induction a as [|c a IH]; intros b E L.
  - now exists b.
  - destruct b as [|c' b]; [cbn in L; lia|].
    cbn in E. inversion E; subst c'.
    destruct (IH b) as (b1 & -> & ->); [assumption | cbn in L; lia|].
    now exists b1.
Qed.

(** A word boundary does not fall inside a run of word characters. *)
Lemma run_prefix (p : ascii -> bool) (run : string) : forall rest before x,
  (forall c, p c = true -> isWordChar c = true) ->
  allChars p run = true ->
  run +++ rest = before +++ x ->
  before <> "" ->
  isWordOpt (lastCharOr None before) = false ->
  (String.length run < String.length before)%nat.
Proof.
  induction run as [|a run IH]; intros rest before x Hp A E N W.
  - destruct before; [congruence | cbn; lia].
  - destruct before as [|b before]; [congruence|].
    cbn in E. inversion E; subst b.
    cbn in A. apply andb_true_iff in A as [Pa A].
    destruct before as [|b' before].
    + cbn in W. rewrite (Hp _ Pa) in W. discriminate W.
    + cbn [String.length]. apply -> Nat.succ_lt_mono.
      apply (IH rest (String b' before) x Hp A); [assumption | discriminate|].
      exact W.
Qed.

Lemma no_overlap t after before t' after' :
  ticketShape t -> ticketShape t' ->
  t +++ after = before +++ t' +++ after' ->
  before <> "" ->
  isWordOpt (lastCharOr None before) = false ->
  (String.length t <= String.length before)%nat.
Proof.
  intros (l & d & -> & Nl & Nd & Al & Ad) Sh' E N W.
  rewrite !append_assoc in E.
  pose proof (run_prefix isUpper l _ _ _ isUpper_word Al E N W) as Ll.
  destruct (append_split _ _ _ _ E) as (b1 & -> & E1); [lia|].
  rewrite length_append in Ll.
  destruct b1 as [|c b2]; [cbn in Ll; lia|].
  cbn in E1. inversion E1 as [[Hc E2]]. subst c.
  rewrite !length_append. cbn [String.length].
  destruct b2 as [|c b3].
  - exfalso. cbn in E2.
    destruct (ticketShape_head t' Sh') as (u & t'' & -> & U).
    destruct d as [|x d]; [congruence|]. cbn in E2, Ad.
    inversion E2; subst u. apply andb_true_iff in Ad as [D _].
    rewrite (isDigit_not_upper _ D) in U. discriminate U.
  - rewrite lastCharOr_append in W.
    assert (W' : isWordOpt (lastCharOr None (String c b3)) = false) by exact W.
    pose proof (run_prefix isDigit d _ _ _ isDigit_word Ad E2 ltac:(discriminate) W').
    lia.
Qed.

(** *** The scan of a message *)

Lemma ticketShape_nonempty : ~ ticketShape "".
Proof. intros (l & d & E & Nl & _). destruct l; [congruence | discriminate E]. Qed.

Lemma occursFrom_skip k prev t c s :
  occursFrom (S k) prev t (String c s) <-> occursFrom k (Some c) t s.
Proof.
  split.
  - intros (before & after & E & L & Sh & W & B).
    destruct before as [|c' before]; [cbn in L; lia|].
    cbn in E. inversion E; subst c'.
    exists before, after. repeat split; try assumption. cbn in L; lia.
  - intros (before & after & E & L & Sh & W & B).
    exists (String c before), after. subst. cbn. repeat split; try assumption. lia.
Qed.

Lemma occursFrom_zero prev t c s :
  occursFrom 0 prev t (String c s) <->
  (isWordOpt prev = false
   /\ exists after, String c s = t +++ after /\ ticketShape t
                    /\ isWordOpt (headChar after) = false)
  \/ occursFrom 0 (Some c) t s.
Proof.
  split.
  - intros (before & after & E & L & Sh & W & B).
    destruct before as [|c' before].
    + left. split; [exact W|]. now exists after.
    + right. cbn in E. inversion E; subst c'.
      exists before, after. repeat split; try assumption. lia.
  - intros [(W & after & E & Sh & B) | (before & after & E & L & Sh & W & B)].
    + exists "", after. repeat split; try assumption. cbn; lia.
    + exists (String c before), after. subst. cbn. repeat split; try assumption. lia.
Qed.

Lemma matchAllJira_spec (s : string) : forall skip prev t,
  In t (matchAllJira skip prev s) <-> occursFrom skip prev t s.
Proof.
  induction s as [|c s IH]; intros skip prev t.
  - cbn. split; [intros []|].
    intros (before & after & E & _ & Sh & _).
    destruct before; [|discriminate E]. destruct t; [|discriminate E].
    now apply ticketShape_nonempty in Sh.
  - cbn [matchAllJira]. destruct skip as [|k].
    + rewrite occursFrom_zero.
      destruct (matchJiraAt prev (String c s)) as [n|] eqn:M.
      * apply matchJiraAt_spec in M as [W M].
        pose proof M as M0.
        apply matchLetters_shape in M as (t0 & after0 & E0 & L0 & Sh0 & B0).
        cbn [In]. rewrite IH. rewrite E0 at 1. rewrite <- L0 at 1.
        rewrite substring_prefix. split.
        -- intros [<- | O].
           ++ left. split; [assumption|]. now exists after0.
           ++ right. destruct O as (before & after & E & L & Sh & Wb & B).
              exists before, after. repeat split; try assumption. lia.
        -- intros [(_ & after & E & Sh & B) | O].
           ++ left.
              assert (M1 : matchLetters (String c s) = Some (String.length t)).
              { apply matchLetters_shape. now exists t, after. }
              rewrite M0 in M1. inversion M1 as [Ln].
              rewrite <- (substring_prefix t0 after0), <- (substring_prefix t after).
              rewrite <- E0, <- E, L0, Ln. reflexivity.
           ++ right. destruct O as (before & after & E & L & Sh & Wb & B).
              exists before, after. repeat split; try assumption.
              assert (K : (String.length t0 <= String.length (String c before))%nat).
              { apply (no_overlap t0 after0 (String c before) t after Sh0 Sh).
                - rewrite <- E0, E. reflexivity.
                - discriminate.
                - exact Wb. }
              cbn in K. lia.
      * rewrite IH. split; [now right|].
        intros [(W & after & E & Sh & B) | O]; [|assumption].
        exfalso.
        assert (M1 : matchJiraAt prev (String c s) = Some (String.length t)).
        { apply matchJiraAt_spec. split; [assumption|].
          apply matchLetters_shape. now exists t, after. }
        rewrite M in M1. discriminate M1.
    + rewrite IH. symmetry. apply occursFrom_skip.
Qed.

(** The matches of the pattern in a message are the substrings of the
    message that have the shape of a ticket between two word boundaries. *)
Lemma jiraMatches_spec (message t : string) :
  In t (jiraMatches message) <-> occursIn t message.
Proof.
  unfold jiraMatches. rewrite matchAllJira_spec. unfold occursFrom, occursIn, wordBoundary.
  split.
  - intros (before & after & E & _ & Sh & W & B).
    exists before, after. repeat split; try assumption.
    + destruct (ticketShape_head t Sh) as (c & t' & -> & U).
      cbn. now rewrite W, (isUpper_word _ U).
    + rewrite lastCharOr_append.
      destruct (ticketShape_last t (lastCharOr None before) Sh) as (x & -> & Wx).
      cbn. now rewrite Wx, B.
  - intros (before & after & E & Sh & W & B).
    exists before, after. repeat split; try assumption.
    + lia.
    + destruct (ticketShape_head t Sh) as (c & t' & -> & U).
      cbn in W. rewrite (isUpper_word _ U) in W.
      now destruct (isWordOpt (lastCharOr None before)).
    + rewrite lastCharOr_append in B.
      destruct (ticketShape_last t (lastCharOr None before) Sh) as (x & Hx & Wx).
      rewrite Hx in B. cbn in B. rewrite Wx in B.
      now destruct (isWordOpt (headChar after)).
Qed.

End JiraProofs.

(** ** The tickets of a commit list and the Jira line of a summary *)

Module TicketsProofs.

Import Git Catalog Generator GeneratorSpec GeneratorProofs JiraSpec JiraProofs.
Import AggregationProofs SortProofs.

Lemma fold_setAdd_In (xs : list string) : forall acc t,
  In t (fold_left setAdd xs acc) <-> In t acc \/ In t xs.
Proof.
  induction xs as [|x xs IH]; intros acc t; cbn; [intuition|].
  rewrite IH, setAdd_In. intuition.
Qed.

Lemma fold_setAdd_NoDup (xs : list string) : forall acc,
  NoDup acc -> NoDup (fold_left setAdd xs acc).
Proof.
  induction xs as [|x xs IH]; intros acc H; cbn; [assumption|].
  now apply IH, setAdd_NoDup.
Qed.

Local Abbreviation collect :=
  (fun tickets commit => fold_left setAdd (jiraMatches (messageOf commit)) tickets).

Lemma collect_In (commits : list CommitItem) : forall acc t,
  In t (fold_left collect commits acc)
  <-> In t acc \/ exists c, In c commits /\ In t (jiraMatches (messageOf c)).
Proof.
  induction commits as [|c commits IH]; intros acc t; cbn [fold_left].
  - split; [now left | intros [H | (c & [] & _)]; assumption].
  - rewrite IH, fold_setAdd_In. split.
    + intros [[H | H] | (c' & Hc' & H)].
      * now left.
      * right. exists c. split; [now left | assumption].
      * right. exists c'. split; [now right | assumption].
    + intros [H | (c' & [<- | Hc'] & H)].
      * left. now left.
      * left. now right.
      * right. now exists c'.
Qed.

Lemma collect_NoDup (commits : list CommitItem) : forall acc,
  NoDup acc -> NoDup (fold_left collect commits acc).
Proof.
  induction commits as [|c commits IH]; intros acc H; cbn [fold_left]; [assumption|].
  now apply IH, fold_setAdd_NoDup.
Qed.

(** *** What a summary returned is made of *)

(** A response that [callWithRetries] returns is one that the provider
    gave to the request. *)
Lemma retryLoop_returned env req (fuel : nat) : forall attempt w response w',
  retryLoop fuel attempt (generateContentCall env req) w = (Returned (Some response), w') ->
  exists n, generateContent env n req = GenOk response.
Proof.
  induction fuel as [|fuel IH]; intros attempt w response w' H.
  - cbn [retryLoop] in H.
    destruct (negb (attempt <? MAX_AI_RETRIES)%nat); cbv [ret] in H; discriminate H.
  - cbn [retryLoop] in H.
    destruct (negb (attempt <? MAX_AI_RETRIES)%nat); [cbv [ret] in H; discriminate H|].
    unfold tryCatch, bind at 1 in H.
    destruct (generateContent env (countEvents isGenerate w) req) as [r|e] eqn:G.
    + rewrite (generateContentCall_ok _ _ _ _ G) in H. cbn in H.
      inversion H; subst. now exists (countEvents isGenerate w).
    + rewrite (generateContentCall_fail _ _ _ _ G) in H.
      destruct ((MAX_AI_RETRIES <=? attempt + 1)%nat || negb (isRetryableError e));
        [discriminate H|].
      unfold warn, sleep, bind at 1 in H. rewrite emit_logged in H.
      unfold bind at 1 in H. rewrite emit_logged in H.
      now apply IH in H.
Qed.

Lemma tryModels_returned env up sp tickets (models : list string) :
  forall errors w r w',
  tryModels env up sp tickets models errors w = (Returned r, w') ->
  exists n req response,
    generateContent env n req = GenOk response
    /\ summary r = withJiraLine tickets (extractResponseText (Some response)).
Proof.
  induction models as [|m rest IH]; intros errors w r w' H; [discriminate H|].
  destruct (callWithRetries (generateContentCall env (mkRequest m up sp)) w)
    as [[x|e] w1] eqn:C.
  - destruct (truthy (extractResponseText x)) eqn:T.
    + rewrite (tryModels_call_ok _ _ _ _ _ _ _ _ _ _ C T) in H.
      inversion H; subst. destruct x as [response|]; [|discriminate T].
      apply retryLoop_returned in C as [n G].
      now exists n, (mkRequest m up sp), response.
    + rewrite (tryModels_call_empty _ _ _ _ _ _ _ _ _ _ C T) in H. discriminate H.
  - destruct ((0 <? List.length rest)%nat && shouldFallbackToNextModel e) eqn:F.
    + rewrite (tryModels_call_thrown_next _ _ _ _ _ _ _ _ _ _ C F) in H.
      now apply IH in H.
    + rewrite (tryModels_call_thrown_last _ _ _ _ _ _ _ _ _ _ C F) in H. discriminate H.
Qed.

Lemma generateSummary_returned env cfg getDateRelativeText commits w r w' :
  commits <> [] ->
  demoMode cfg = false ->
  generateSummary env cfg getDateRelativeText commits w = (Returned r, w') ->
  exists n req response,
    generateContent env n req = GenOk response
    /\ summary r = withJiraLine (extractJiraTickets commits)
                     (extractResponseText (Some response)).
Proof.
  intros Hc Hd H. unfold generateSummary in H.
  destruct commits as [|c commits]; [congruence|]. cbn [List.length Nat.eqb] in H.
  rewrite Hd in H. destruct (aiClient cfg); [|discriminate H]. cbn [negb] in H.
  unfold bind in H.
  destruct (getResolvedModelPreference env cfg w) as [[modelList|e] w1];
    [|discriminate H].
  destruct (List.length modelList =? 0)%nat; [discriminate H|].
  now apply tryModels_returned in H.
Qed.

Lemma withJiraLine_cases (tickets : list string) (text : string) :
  withJiraLine tickets text =
  match tickets with
  | [] => text
  | first :: _ => if includes text first then text else text +++ jiraLine tickets
  end.
Proof.
  unfold withJiraLine. destruct tickets as [|first rest]; [reflexivity|].
  cbn. now destruct (includes text first).
Qed.

(** C10.  The tickets of a commit list are exactly the substrings of the
    messages that are made of upper case letters, a dash and digits between
    two word boundaries, each once, in ascending order.  A summary that
    [generateSummary] returns for a text of the provider is that text, with
    the line of the Jira tickets appended exactly when there is a ticket and
    the first ticket does not occur in the text. *)
Theorem C10_jira_tickets (commits : list CommitItem) :
  (forall t, In t (extractJiraTickets commits)
             <-> exists c, In c commits /\ occursIn t (messageOf c))
  /\ ascending (extractJiraTickets commits)
  /\ (forall env cfg getDateRelativeText w r w',
        commits <> [] ->
        demoMode cfg = false ->
        generateSummary env cfg getDateRelativeText commits w = (Returned r, w') ->
        exists n req response,
          generateContent env n req = GenOk response
          /\ summary r =
             match extractJiraTickets commits with
             | [] => extractResponseText (Some response)
             | first :: _ =>
                 if includes (extractResponseText (Some response)) first
                 then extractResponseText (Some response)
                 else extractResponseText (Some response)
                      +++ jiraLine (extractJiraTickets commits)
             end).
Proof.
  split; [|split].
  - intros t. unfold extractJiraTickets. rewrite sort_In, collect_In. split.
    + intros [[] | (c & Hc & H)]. exists c. split; [assumption|].
      now apply jiraMatches_spec.
    + intros (c & Hc & H). right. exists c. split; [assumption|].
      now apply jiraMatches_spec.
  - unfold ascending, extractJiraTickets. apply sort_ascending, collect_NoDup. constructor.
  - intros env cfg gd w r w' Hc Hd H.
    destruct (generateSummary_returned _ _ _ _ _ _ _ Hc Hd H) as (n & req & response & G & S).
    exists n, req, response. split; [assumption|].
    now rewrite S, withJiraLine_cases.
Qed.

(** A run in which the text does not name the first ticket, and one in
    which it does. *)
Example jira_line_examples :
  extractJiraTickets ticketCommits = ["ABC-12"; "XY-7"]
  /\ fst (generateSummary (answering "Yesterday, I fixed the login.") forcedModelConfig
            (fun _ => "Yesterday, I") ticketCommits initialWorld)
     = Returned (mkSummaryResult
                   ("Yesterday, I fixed the login." +++ LF +++ LF
                    +++ "Jira Tickets: ABC-12, XY-7")
                   (Some "gemini-2.5-flash"))
  /\ fst (generateSummary (answering "Yesterday, I fixed the login (ABC-12).")
            forcedModelConfig (fun _ => "Yesterday, I") ticketCommits initialWorld)
     = Returned (mkSummaryResult "Yesterday, I fixed the login (ABC-12)."
                   (Some "gemini-2.5-flash")).
Proof. repeat split; vm_compute; reflexivity. Qed.

End TicketsProofs.

(* ================================================================== *)
(** * Further properties of the code *)
(* ================================================================== *)

(** ** Branches *)

Module BranchProofs.

Import Git ScanSpec ScanProofs FetchProofs SortProofs AggregationProofs TicketsProofs.
Import AggregationSpec ExtraSpec.

Lemma fold_setAdd_length (xs : list string) : forall acc,
  (List.length (fold_left setAdd xs acc) <= List.length acc + List.length xs)%nat.
Proof.
  induction xs as [|x xs IH]; intros acc; cbn [fold_left List.length]; [lia|].
  specialize (IH (setAdd acc x)).
  assert (List.length (setAdd acc x) <= S (List.length acc))%nat.
  { unfold setAdd. destruct (setHas acc x); [lia|]. rewrite length_app. cbn. lia. }
  lia.
Qed.

Lemma fold_setAdd_head (xs : list string) : forall a acc,
  hd "" (fold_left setAdd xs (a :: acc)) = a.
Proof.
  induction xs as [|x xs IH]; intros a acc; [reflexivity|].
  cbn [fold_left]. unfold setAdd at 2. destruct (setHas (a :: acc) x); apply IH.
Qed.

Lemma firstn_In {A} (n : nat) (l : list A) (x : A) : In x (firstn n l) -> In x l.
Proof. intros H. rewrite <- (firstn_skipn n l). apply in_or_app. now left. Qed.

Lemma getRecentLocalBranches_outcome env repoPath excludeBranch limit w :
  exists names,
    fst (getRecentLocalBranches env repoPath excludeBranch limit w) = Returned names
    /\ (List.length names <= limit)%nat
    /\ Forall (fun b => b <> "" /\ b <> excludeBranch) names
    /\ (limit = 0%nat ->
        getRecentLocalBranches env repoPath excludeBranch limit w = (Returned [], w)).
Proof.
  unfold getRecentLocalBranches. destruct limit as [|n]; cbn [Nat.eqb].
  - exists []. repeat split; auto.
  - unfold tryCatch, bind.
    destruct (execa env _ (Some repoPath) w) as [[stdout|e] w1].
    + destruct (negb (truthy (trim stdout))).
      * exists []. split; [reflexivity|]. split; [cbn; lia|].
        split; [constructor | discriminate].
      * eexists. split; [reflexivity|]. split; [apply firstn_le_length|].
        split; [|discriminate].
        apply Forall_forall. intros b Hb. apply firstn_In in Hb.
        apply filter_In in Hb as [_ Hb]. apply andb_true_iff in Hb as [T N].
        unfold truthy in T. apply negb_true_iff in T, N.
        apply String.eqb_neq in T, N. now split.
    + unfold warn, bind. rewrite emit_logged. cbn.
      exists []. split; [reflexivity|]. split; [cbn; lia|].
      split; [constructor | discriminate].
Qed.

(** X1.  [getRecentLocalBranches] never throws.  It returns at most [limit]
    names, none of them empty and none the excluded branch; with a limit of
    zero it returns nothing and does not call git. *)
Theorem X1_recent_branches_bounded
    (env : Env) (repoPath excludeBranch : string) (limit : nat) (w : World) :
  exists names,
    fst (getRecentLocalBranches env repoPath excludeBranch limit w) = Returned names
    /\ (List.length names <= limit)%nat
    /\ Forall (fun b => b <> "" /\ b <> excludeBranch) names
    /\ (limit = 0%nat ->
        getRecentLocalBranches env repoPath excludeBranch limit w = (Returned [], w)).
Proof. apply getRecentLocalBranches_outcome. Qed.

(** X2.  The branches that [main] hands to [fetchCommits] are the current
    branch followed by the recent branches, each once: the current branch
    comes first, no name is repeated, and there are at most one more than the
    limit of recent branches. *)
Theorem X2_branches_to_scan
    (env : Env) (repoPath currentBranch : string) (limit : nat) (w : World)
    (extraBranches : list string) :
  fst (getRecentLocalBranches env repoPath currentBranch limit w) = Returned extraBranches ->
  let branchesToScan := setOfList (currentBranch :: extraBranches) in
  hd "" branchesToScan = currentBranch
  /\ NoDup branchesToScan
  /\ (forall b, In b branchesToScan <-> b = currentBranch \/ In b extraBranches)
  /\ (List.length branchesToScan <= 1 + limit)%nat.
Proof.
  intros H. unfold setOfList. cbn [fold_left]. unfold setAdd at 2. cbn [setHas existsb app].
  destruct (getRecentLocalBranches_outcome env repoPath currentBranch limit w)
    as (names & E & L & _).
  rewrite H in E. inversion E; subst names.
  split; [apply fold_setAdd_head|]. split.
  - apply fold_setAdd_NoDup. constructor; [intros []|constructor].
  - split.
    + intros b. rewrite fold_setAdd_In. cbn. intuition.
    + pose proof (fold_setAdd_length extraBranches [currentBranch]) as K. cbn in K.
      change (setAdd [] currentBranch) with [currentBranch]. lia.
Qed.

Lemma X2_branches_to_scan_witness :
  let branchesToScan := setOfList ("main" :: ["feature"; "hotfix"]) in
  hd "" branchesToScan = "main"
  /\ NoDup branchesToScan
  /\ (forall b, In b branchesToScan <-> b = "main" \/ In b ["feature"; "hotfix"])
  /\ (List.length branchesToScan <= 1 + 2)%nat.
Proof.
  apply (X2_branches_to_scan recentBranchesEnv "." "main" 2 initialWorld
           ["feature"; "hotfix"]).
  vm_compute. reflexivity.
Defined.

End BranchProofs.

(** ** More on the aggregation *)

Module ScanMoreProofs.

Import Git ScanSpec ScanProofs FetchProofs SortProofs AggregationProofs TicketsProofs.
Import AggregationSpec ExtraSpec.

Section ScanMore.

Variable env : Env.
Variables repoPath author : string.
Variable dateRange : DateRange.

Local Abbreviation abortsWith := (abortsWith env repoPath author dateRange).
Local Abbreviation branchQuery := (branchQuery env repoPath author dateRange).
Local Abbreviation branchBlocks := (branchBlocks env repoPath author dateRange).
Local Abbreviation branchEvents := (branchEvents env repoPath author dateRange).
Local Abbreviation sightings := (sightings env repoPath author dateRange).
Local Abbreviation seenOn := (seenOn env repoPath author dateRange).
Local Abbreviation scan := (scanBranches env repoPath author dateRange).
Local Abbreviation fetch := (fetchCommits env repoPath author dateRange).

(** What a scan returns does not depend on the world it starts in. *)
Lemma scanBranches_value branches : forall m w w',
  fst (scan branches m w) = fst (scan branches m w').
Proof.
  induction branches as [|b bs IH]; intros m w w'; [reflexivity|].
  destruct (abortsWith b) as [e|] eqn:A.
  - now rewrite !(scanBranches_step_abort _ _ _ _ _ _ _ _ _ A).
  - rewrite !(scanBranches_step_ok _ _ _ _ _ _ _ _ A). apply IH.
Qed.

Lemma fetchCommits_value branches branches' w w' :
  branches <> [] -> branches' <> [] ->
  fst (scan branches [] w) = fst (scan branches' [] w') ->
  fst (fetch (Some branches) w) = fst (fetch (Some branches') w').
Proof.
  intros N N' H. unfold fetchCommits, tryCatch, bind.
  rewrite !branchesToScan_nonempty by assumption.
  destruct (scan branches [] w) as [[m|e] w1], (scan branches' [] w') as [[m'|e'] w1'];
    cbn [fst] in H; try discriminate H; inversion H; subst; [reflexivity|].
  now destruct (stderrIncludes e' "fatal: not a git repository").
Qed.

Lemma scanBranches_skip_unknown branch e after : forall before m w,
  branchQuery branch = ExecFail e ->
  stderrIncludes e "unknown revision or path" = true ->
  fst (scan (before ++ branch :: after) m w) = fst (scan (before ++ after) m w).
Proof.
  intros before m w Q U.
  assert (A : abortsWith branch = None) by (unfold ScanSpec.abortsWith; now rewrite Q, U).
  revert m w. induction before as [|b bs IH]; intros m w; cbn [app].
  - rewrite (scanBranches_step_ok _ _ _ _ _ _ _ _ A).
    unfold ScanSpec.branchBlocks. rewrite Q. cbn [fold_left]. apply scanBranches_value.
  - destruct (abortsWith b) as [e'|] eqn:Ab.
    + now rewrite !(scanBranches_step_abort _ _ _ _ _ _ _ _ _ Ab).
    + rewrite !(scanBranches_step_ok _ _ _ _ _ _ _ _ Ab). apply IH.
Qed.

(** The hashes of the map, in its order, are the hashes of the sightings in
    the order of their first occurrence. *)
Lemma mapHas_setHas m h : mapHas m h = setHas (map hash m) h.
Proof.
  unfold mapHas, setHas. induction m as [|c m IH]; cbn; [reflexivity|].
  now rewrite IH, String.eqb_sym.
Qed.

Lemma recordSighting_hashes m s :
  map hash (recordSighting m s) = setAdd (map hash m) (s_hash s).
Proof.
  unfold recordSighting, setAdd. rewrite <- mapHas_setHas.
  destruct (mapHas m (s_hash s)); cbn [negb].
  - apply mapAddBranch_hashes.
  - now rewrite map_app.
Qed.

Lemma aggregation_hashes l : forall m,
  map hash (fold_left recordSighting l m)
  = fold_left setAdd (map s_hash l) (map hash m).
Proof.
  induction l as [|s l IH]; intros m; cbn [fold_left map]; [reflexivity|].
  now rewrite IH, recordSighting_hashes.
Qed.

Lemma fetchCommits_order order w :
  order <> [] ->
  Forall (fun b => abortsWith b = None) order ->
  exists commits w',
    fetch (Some order) w = (Returned commits, w')
    /\ map hash commits = setOfList (map s_hash (sightings order)).
Proof.
  intros N HF.
  rewrite (fetchCommits_complete env repoPath author dateRange order w N HF).
  eexists _, _. split; [reflexivity|].
  rewrite scanPure_sightings, map_map.
  change (map (fun c => hash (withSortedBranches c))) with (map hash).
  now rewrite aggregation_hashes.
Qed.

End ScanMore.

(** X3.  A branch that git does not know is left out of the aggregation: the
    list returned is the one returned for the other branches alone (provided
    that there are other branches; with none, HEAD is scanned instead). *)
Theorem X3_unknown_branch_is_skipped
    (env : Env) (repoPath author : string) (dateRange : DateRange)
    (before after : list string) (branch : string) (e : JsError) (w : World) :
  branchQuery env repoPath author dateRange branch = ExecFail e ->
  stderrIncludes e "unknown revision or path" = true ->
  before ++ after <> [] ->
  fst (fetchCommits env repoPath author dateRange (Some (before ++ branch :: after)) w)
  = fst (fetchCommits env repoPath author dateRange (Some (before ++ after)) w).
Proof.
  intros Q U N. apply fetchCommits_value; [now destruct before | assumption |].
  now apply scanBranches_skip_unknown with (e := e).
Qed.

Lemma X3_unknown_branch_is_skipped_witness :
  fst (fetchCommits sharedCommitEnv "." "dev@example.org" C2Spec.sampleRange
         (Some (["main"] ++ "gone" :: ["feature"])) initialWorld)
  = fst (fetchCommits sharedCommitEnv "." "dev@example.org" C2Spec.sampleRange
           (Some (["main"] ++ ["feature"])) initialWorld).
Proof.
  apply (X3_unknown_branch_is_skipped sharedCommitEnv "." "dev@example.org"
           C2Spec.sampleRange ["main"] ["feature"] "gone" (gitFailureUnknown "gone")).
  - reflexivity.
  - vm_compute. reflexivity.
  - discriminate.
Defined.

(** X4.  The commits of a scan that no query ends come in the order in which
    their hashes were first sighted: the branches in the order given, and the
    blocks of each log from top to bottom. *)
Theorem X4_commits_in_order_of_first_sighting
    (env : Env) (repoPath author : string) (dateRange : DateRange)
    (order : list string) (w : World) :
  order <> [] ->
  Forall (fun b => abortsWith env repoPath author dateRange b = None) order ->
  exists commits w',
    fetchCommits env repoPath author dateRange (Some order) w = (Returned commits, w')
    /\ map hash commits
       = setOfList (map s_hash (sightings env repoPath author dateRange order)).
Proof. apply fetchCommits_order. Qed.

Lemma X4_commits_in_order_of_first_sighting_witness :
  exists commits w',
    fetchCommits sharedCommitEnv "." "dev@example.org" C2Spec.sampleRange
      (Some ["feature"; "main"; "hotfix"]) initialWorld = (Returned commits, w')
    /\ map hash commits
       = setOfList (map s_hash (sightings sharedCommitEnv "." "dev@example.org"
                                  C2Spec.sampleRange ["feature"; "main"; "hotfix"])).
Proof.
  apply (X4_commits_in_order_of_first_sighting sharedCommitEnv "." "dev@example.org"
           C2Spec.sampleRange ["feature"; "main"; "hotfix"] initialWorld).
  - discriminate.
  - repeat (constructor; [vm_compute; reflexivity|]). constructor.
Defined.

Example commits_order_example :
  setOfList (map s_hash (sightings sharedCommitEnv "." "dev@example.org"
                           C2Spec.sampleRange ["feature"; "main"; "hotfix"]))
  = ["9c0e"; "1f3a"; "77aa"].
Proof. vm_compute. reflexivity. Qed.

End ScanMoreProofs.

(** ** Lists in ascending order *)

Module OrderProofs.

Import SortProofs.

Lemma ltb_irrefl (x : string) : String.ltb x x = false.
Proof.
  unfold String.ltb. pose proof (String.compare_antisym x x) as H.
  now destruct (String.compare x x).
Qed.

(** A list in strictly ascending order is determined by its members. *)
Lemma ascending_unique (l1 : list string) : forall l2,
  StronglySorted (fun a b => String.ltb a b = true) l1 ->
  StronglySorted (fun a b => String.ltb a b = true) l2 ->
  (forall x, In x l1 <-> In x l2) ->
  l1 = l2.
Proof.
  induction l1 as [|x t1 IH]; intros [|y t2] S1 S2 M.
  - reflexivity.
  - exfalso. apply (M y). now left.
  - exfalso. apply (M x). now left.
  - inversion S1 as [|? ? S1' F1]; subst. inversion S2 as [|? ? S2' F2]; subst.
    rewrite Forall_forall in F1, F2.
    assert (E : x = y).
    { destruct (proj1 (M x) (or_introl eq_refl)) as [E | Hx]; [now symmetry|].
      destruct (proj2 (M y) (or_introl eq_refl)) as [E | Hy]; [assumption|].
      pose proof (notAfter_of_ltb _ _ (F1 y Hy)) as K.
      rewrite (F2 x Hx) in K. discriminate K. }
    subst y. f_equal. apply IH; try assumption.
    intros z. split; intros Hz.
    + destruct (proj1 (M z) (or_intror Hz)) as [E | H]; [|assumption].
      subst z. pose proof (F1 x Hz) as K. rewrite ltb_irrefl in K. discriminate K.
    + destruct (proj2 (M z) (or_intror Hz)) as [E | H]; [|assumption].
      subst z. pose proof (F2 x Hz) as K. rewrite ltb_irrefl in K. discriminate K.
Qed.

End OrderProofs.

Module ProvenanceProofs.

Import Git ScanSpec ScanProofs FetchProofs SortProofs AggregationProofs OrderProofs.
Import AggregationSpec ExtraSpec.

(** X5.  The provenance of the commits does not depend on the order of the
    scan: two complete scans of the same branches in different orders return
    the same number of commits, and every commit of the one has, in the
    other, a commit of the same hash with the same branches. *)
Theorem X5_provenance_is_order_independent
    (env : Env) (repoPath author : string) (dateRange : DateRange)
    (order order' : list string) (w w' : World) :
  order <> [] ->
  Forall (fun b => abortsWith env repoPath author dateRange b = None) order ->
  Permutation order order' ->
  exists commits commits' w1 w1',
    fetchCommits env repoPath author dateRange (Some order) w = (Returned commits, w1)
    /\ fetchCommits env repoPath author dateRange (Some order') w' = (Returned commits', w1')
    /\ List.length commits = List.length commits'
    /\ forall c, In c commits ->
         exists c', In c' commits' /\ hash c' = hash c /\ branches c' = branches c.
Proof.
  intros N HF P.
  assert (N' : order' <> []).
  { intros ->. apply Permutation_sym, Permutation_nil in P. contradiction. }
  assert (HF' : Forall (fun b => abortsWith env repoPath author dateRange b = None) order')
    by (eapply Permutation_Forall; eassumption).
  destruct (fetchCommits_provenance env repoPath author dateRange order w N HF)
    as (cs & w1 & E & ND & Hh & Hb).
  destruct (fetchCommits_provenance env repoPath author dateRange order' w' N' HF')
    as (cs' & w1' & E' & ND' & Hh' & Hb').
  exists cs, cs', w1, w1'. split; [assumption|]. split; [assumption|].
  assert (Same : forall h, In h (map hash cs) <-> In h (map hash cs')).
  { intros h. rewrite Hh, Hh'. split; intros (b & Hin & S); exists b; split;
      try assumption; eapply Permutation_in; try eassumption. now apply Permutation_sym. }
  split.
  - rewrite <- (length_map hash cs), <- (length_map hash cs').
    apply Permutation_length. now apply NoDup_Permutation.
  - intros c Hc.
    assert (Hin : In (hash c) (map hash cs')) by (apply Same; now apply in_map).
    apply in_map_iff in Hin as (c' & Ec & Hc').
    exists c'. split; [assumption|]. split; [assumption|].
    rewrite Forall_forall in Hb, Hb'.
    destruct (Hb c Hc) as [Sc Mc]. destruct (Hb' c' Hc') as [Sc' Mc'].
    apply ascending_unique; try assumption.
    intros b. rewrite Mc, Mc', Ec. split; intros [Hin S]; split; try assumption;
      eapply Permutation_in; try eassumption. now apply Permutation_sym.
Qed.

Lemma X5_provenance_is_order_independent_witness :
  exists commits commits' w1 w1',
    fetchCommits sharedCommitEnv "." "dev@example.org" C2Spec.sampleRange
      (Some ["main"; "feature"; "hotfix"]) initialWorld = (Returned commits, w1)
    /\ fetchCommits sharedCommitEnv "." "dev@example.org" C2Spec.sampleRange
         (Some ["feature"; "main"; "hotfix"]) initialWorld = (Returned commits', w1')
    /\ List.length commits = List.length commits'
    /\ forall c, In c commits ->
         exists c', In c' commits' /\ hash c' = hash c /\ branches c' = branches c.
Proof.
  apply (X5_provenance_is_order_independent sharedCommitEnv "." "dev@example.org"
           C2Spec.sampleRange ["main"; "feature"; "hotfix"] ["feature"; "main"; "hotfix"]).
  - discriminate.
  - repeat (constructor; [vm_compute; reflexivity|]). constructor.
  - apply perm_swap.
Defined.

End ProvenanceProofs.

Module GitHelperProofs.

Import Git.

(** X6.  The helpers of the aggregation stage do not let an error of git
    through as it is: [getGitUser] throws nothing but the configuration error,
    and [getCurrentBranch] nothing but the "Not a Git repository" error and
    the "Could not determine the current Git branch" error. *)
Theorem X6_git_errors_are_normalised
    (env : Env) (repoPath : string) (w : World) :
  (forall e w', getGitUser env w = (Thrown e, w') -> e = newError userConfigError)
  /\ (forall e w',
        getCurrentBranch env repoPath w = (Thrown e, w') ->
        e = newError notARepositoryError \/ e = newError currentBranchError).
Proof.
  split; intros e w'.
  - unfold getGitUser, tryCatch.
    destruct (bind _ _ w) as [[user|e0] w1]; [discriminate|].
    cbv [throw]. intros H. now inversion H.
  - unfold getCurrentBranch, tryCatch.
    destruct (bind _ _ w) as [[b|e0] w1]; [discriminate|].
    destruct (stderrIncludes e0 "not a git repository"); cbv [throw];
      intros H; inversion H; auto.
Qed.

End GitHelperProofs.

(** ** More on the model catalogue *)

Module CatalogMoreProofs.

Import Catalog CatalogSpec CatalogProofs SortProofs AggregationProofs TicketsProofs.
Import JiraProofs ExtraSpec.

(** *** [simplifyModelName] *)

Lemma split_go_nonempty sep s : forall skip cur, split_go sep skip cur s <> [].
Proof.
  induction s as [|c s IH]; intros skip cur; cbn [split_go]; [discriminate|].
  destruct skip; [|apply IH]. destruct (prefix sep (String c s)); [discriminate | apply IH].
Qed.

Lemma last_cons {A} (x : A) (l : list A) (d : A) : l <> [] -> last (x :: l) d = last l d.
Proof. destruct l; [congruence | reflexivity]. Qed.

Lemma endsWith_refl s : endsWith s s = true.
Proof. destruct s; cbn [endsWith]; now rewrite String.eqb_refl. Qed.

Lemma endsWith_app a b x : endsWith b x = true -> endsWith (a +++ b) x = true.
Proof.
  intros H. induction a as [|c a IH]; cbn; [assumption|].
  rewrite IH. apply orb_true_r.
Qed.

Lemma includes_slash_cons c s :
  includes (String c s) "/" = Ascii.eqb c "/" || includes s "/".
Proof.
  cbn [includes prefix]. destruct (ascii_dec "/" c) as [<-|N].
  - now destruct s.
  - destruct (Ascii.eqb_spec c "/"); [congruence | reflexivity].
Qed.

Lemma includes_slash_snoc cur c :
  includes cur "/" = false -> Ascii.eqb c "/" = false ->
  includes (cur +++ String c "") "/" = false.
Proof.
  intros H N. induction cur as [|x cur IH].
  - cbn [String.append]. now rewrite includes_slash_cons, N.
  - cbn [String.append]. rewrite includes_slash_cons in H |- *.
    apply orb_false_iff in H as [Hx H]. now rewrite Hx, IH.
Qed.

Lemma prefix_empty s : prefix "" s = true.
Proof. destruct s; reflexivity. Qed.

(** The last piece of a split at the slashes: it has no slash, and what
    comes before it is nothing or ends with a slash. *)
Lemma split_slash_last s : forall cur,
  exists pre,
    cur +++ s = pre +++ last (split_go "/" 0 cur s) ""
    /\ (pre = "" \/ endsWith pre "/" = true)
    /\ (includes cur "/" = false -> includes (last (split_go "/" 0 cur s) "") "/" = false).
Proof.
  induction s as [|c s IH]; intros cur.
  - exists "". cbn. rewrite append_nil_r. auto.
  - cbn [split_go prefix String.length Nat.sub].
    destruct (ascii_dec "/" c) as [<-|N].
    + rewrite prefix_empty.
      rewrite last_cons by apply split_go_nonempty.
      destruct (IH "") as (pre & E & P & I). cbn [String.append] in E.
      exists (cur +++ "/" +++ pre). split; [|split].
      * rewrite !append_assoc. cbn [String.append]. now rewrite <- E.
      * right. rewrite <- append_assoc. destruct P as [-> | P].
        -- rewrite append_nil_r. apply endsWith_app. reflexivity.
        -- now apply endsWith_app.
      * intros _. now apply I.
    + destruct (IH (cur +++ String c "")) as (pre & E & P & I).
      exists pre. split; [|split].
      * rewrite <- E, append_assoc. reflexivity.
      * assumption.
      * intros H. apply I. apply includes_slash_snoc; [assumption|].
        destruct (Ascii.eqb_spec c "/"); congruence.
Qed.

Lemma simplifyModelName_cases (name : string) :
  (simplifyModelName (Some name) = None <-> trim name = "")
  /\ forall simple,
       simplifyModelName (Some name) = Some simple ->
       includes simple "/" = false
       /\ exists pre, trim name = pre +++ simple
                      /\ (pre = "" \/ endsWith pre "/" = true).
Proof.
  unfold simplifyModelName, truthy.
  destruct (String.eqb_spec name "") as [->|Nn]; cbn [negb].
  - split; [split; reflexivity | discriminate].
  - destruct (String.eqb_spec (trim name) "") as [T|T]; cbn [negb].
    + split; [split; [intros _; assumption | reflexivity] | discriminate].
    + split; [split; [discriminate | contradiction]|].
      intros simple H. inversion H; subst simple. unfold split. cbn [String.eqb].
      destruct (split_slash_last (trim name) "") as (pre & E & P & I).
      cbn [String.append] in E. split; [now apply I|]. now exists pre.
Qed.

(** X7.  [simplifyModelName] gives nothing exactly for a name that is
    absent or blank; otherwise it gives the part of the trimmed name that
    comes after its last slash: the result has no slash, and what was cut off
    is nothing or ends with a slash. *)
Theorem X7_simplifyModelName_strips_path (name : string) :
  (simplifyModelName (Some name) = None <-> trim name = "")
  /\ forall simple,
       simplifyModelName (Some name) = Some simple ->
       includes simple "/" = false
       /\ exists pre, trim name = pre +++ simple
                      /\ (pre = "" \/ endsWith pre "/" = true).
Proof.
  apply simplifyModelName_cases.
Qed.

(** *** [dedupeModelList] *)

Lemma dedupeLoop_spec items : forall r,
  NoDup r ->
  NoDup (dedupeLoop items r r)
  /\ forall x, In x (dedupeLoop items r r) <-> In x r \/ (In x items /\ x <> "").
Proof.
  induction items as [|item items IH]; intros r ND; cbn [dedupeLoop].
  - split; [assumption|]. intros x. split; [now left | intros [H | [[] _]]; assumption].
  - unfold truthy. destruct (String.eqb_spec item "") as [->|Ni]; cbn [negb].
    + destruct (IH r ND) as [N M]. split; [assumption|]. intros x. rewrite M. cbn.
      split; [intuition|]. intros [H | [[<- | H] Nx]]; intuition.
    + destruct (setHas r item) eqn:Hs.
      * apply setHas_In in Hs. destruct (IH r ND) as [N M]. split; [assumption|].
        intros x. rewrite M. cbn. split; [intuition|].
        intros [H | [[<- | H] Nx]]; intuition.
      * assert (E : setAdd r item = r ++ [item]) by (unfold setAdd; now rewrite Hs).
        rewrite E.
        assert (ND' : NoDup (r ++ [item])).
        { rewrite <- E. now apply setAdd_NoDup. }
        destruct (IH (r ++ [item]) ND') as [N M]. split; [assumption|].
        intros x. rewrite M, in_app_iff. cbn. split.
        -- intros [[H | [<- | []]] | [H Nx]]; intuition.
        -- intros [H | [[<- | H] Nx]]; intuition.
Qed.

Lemma dedupeLoop_clean items : forall r,
  NoDup (r ++ items) -> Forall (fun x => x <> "") items ->
  dedupeLoop items r r = r ++ items.
Proof.
  induction items as [|item items IH]; intros r ND F; cbn [dedupeLoop].
  - now rewrite app_nil_r.
  - inversion F as [|? ? Ni F']; subst. unfold truthy.
    destruct (String.eqb_spec item "") as [|_]; [contradiction|]. cbn [negb].
    assert (Hs : setHas r item = false).
    { destruct (setHas r item) eqn:Hs; [|reflexivity]. apply setHas_In in Hs.
      apply NoDup_remove_2 in ND. exfalso. apply ND. apply in_or_app. now left. }
    rewrite Hs. unfold setAdd. rewrite Hs.
    replace (r ++ item :: items) with ((r ++ [item]) ++ items) in ND |- *
      by (now rewrite <- app_assoc).
    now apply IH.
Qed.

(** X8.  [dedupeModelList] returns every non-empty name of the list once:
    the result has no repetition and no empty name, its members are the
    non-empty members of the list, and a list that already is without
    repetition and without empty names comes back unchanged. *)
Theorem X8_dedupeModelList (items : list string) :
  NoDup (dedupeModelList items)
  /\ (forall x, In x (dedupeModelList items) <-> In x items /\ x <> "")
  /\ (NoDup items -> Forall (fun x => x <> "") items -> dedupeModelList items = items).
Proof.
  unfold dedupeModelList. destruct (dedupeLoop_spec items [] (NoDup_nil _)) as [N M].
  split; [assumption|]. split.
  - intros x. rewrite M. cbn. intuition.
  - intros ND F. now apply (dedupeLoop_clean items []).
Qed.

(** *** [buildDynamicModelPreference] *)

Lemma buildDynamicModelPreference_perm names :
  Permutation (buildDynamicModelPreference (Some names)) (filter isStableFlash names).
Proof.
  unfold buildDynamicModelPreference.
  destruct names as [|n names]; [reflexivity|]. cbn [List.length Nat.eqb].
  rewrite sortBy_perm. erewrite filter_ext; [reflexivity|].
  intros name. unfold isStableFlash.
  destruct (truthy name); cbn [negb andb]; [|reflexivity].
  destruct (includes (toLowerCase name) "gemini"); cbn [negb orb andb]; [|reflexivity].
  now destruct (includes (toLowerCase name) "flash").
Qed.

(** X9.  [buildDynamicModelPreference] only reorders the names it keeps:
    its result is a rearrangement of the names that are not empty, have
    "gemini" and "flash" in them (in any case) and none of "exp", "preview"
    and "beta"; nothing else gets in, and nothing is listed more often than it
    was given. *)
Theorem X9_buildDynamicModelPreference_keeps_stable_flash (names : list string) :
  Permutation (buildDynamicModelPreference (Some names)) (filter isStableFlash names)
  /\ (forall name, In name (buildDynamicModelPreference (Some names))
                   <-> In name names /\ isStableFlash name = true)
  /\ (NoDup names -> NoDup (buildDynamicModelPreference (Some names))).
Proof.
  pose proof (buildDynamicModelPreference_perm names) as P.
  split; [assumption|]. split.
  - intros name. rewrite <- filter_In. split; apply Permutation_in;
      [assumption | now apply Permutation_sym].
  - intros ND. eapply Permutation_NoDup; [apply Permutation_sym, P|].
    now apply NoDup_filter.
Qed.

End CatalogMoreProofs.

(** ** More on retries and fallback *)

Module GeneratorMoreProofs.

Import Git Catalog Generator GeneratorSpec GeneratorProofs CatalogSpec CatalogProofs.
Import ExtraSpec.

(** One retryable failure: the second attempt decides, unless it fails with
    a retryable error again. *)
Lemma callWithRetries_second_ok env req e1 r w :
  generateContent env (countEvents isGenerate w) req = GenFail e1 ->
  isRetryableError e1 = true ->
  generateContent env (countEvents isGenerate w + 1) req = GenOk r ->
  callWithRetries (generateContentCall env req) w
  = (Returned (Some r), logged w (twoAttempts req)).
Proof.
  intros H1 R1 H2.
  unfold callWithRetries. cbn [retryLoop MAX_AI_RETRIES Nat.ltb Nat.leb negb].
  unfold tryCatch at 1, bind at 1.
  rewrite (generateContentCall_fail _ _ _ _ H1), R1.
  cbn [Nat.add Nat.leb negb orb].
  unfold warn, sleep, bind at 1. rewrite emit_logged.
  unfold bind at 1. rewrite emit_logged, !logged_logged.
  cbn [app]. unfold tryCatch at 1, bind at 1.
  rewrite (generateContentCall_ok env req r)
    by (rewrite count_logged; cbn; exact H2).
  rewrite logged_logged. reflexivity.
Qed.

Lemma callWithRetries_second_fatal env req e1 e2 w :
  generateContent env (countEvents isGenerate w) req = GenFail e1 ->
  isRetryableError e1 = true ->
  generateContent env (countEvents isGenerate w + 1) req = GenFail e2 ->
  isRetryableError e2 = false ->
  callWithRetries (generateContentCall env req) w
  = (Thrown e2, logged w (twoAttempts req)).
Proof.
  intros H1 R1 H2 R2.
  unfold callWithRetries. cbn [retryLoop MAX_AI_RETRIES Nat.ltb Nat.leb negb].
  unfold tryCatch at 1, bind at 1.
  rewrite (generateContentCall_fail _ _ _ _ H1), R1.
  cbn [Nat.add Nat.leb negb orb].
  unfold warn, sleep, bind at 1. rewrite emit_logged.
  unfold bind at 1. rewrite emit_logged, !logged_logged.
  cbn [app]. unfold tryCatch at 1, bind at 1.
  rewrite (generateContentCall_fail env req e2)
    by (rewrite count_logged; cbn; exact H2).
  rewrite R2, logged_logged. cbn. reflexivity.
Qed.

(** Every run of [callWithRetries] on a request, whatever the provider
    answers. *)
Lemma callWithRetries_outcome env req w :
  exists o evs k,
    callWithRetries (generateContentCall env req) w = (o, logged w evs)
    /\ o <> Returned None
    /\ (1 <= k <= 3)%nat
    /\ filter isGenerate evs = repeat (EvGenerate req) k
    /\ sleeps evs = firstn (k - 1) [retryDelay 1; retryDelay 2]
    /\ Forall (fun ev => isListModels ev = false) evs.
Proof.
  destruct (generateContent env (countEvents isGenerate w) req) as [r1|e1] eqn:H1.
  { exists (Returned (Some r1)), [EvGenerate req], 1%nat.
    rewrite (callWithRetries_first_ok _ _ _ _ H1).
    repeat split; try discriminate; try lia; repeat constructor. }
  destruct (isRetryableError e1) eqn:R1.
  2:{ exists (Thrown e1), [EvGenerate req], 1%nat.
      rewrite (callWithRetries_first_fatal _ _ _ _ H1 R1).
      repeat split; try discriminate; try lia; repeat constructor. }
  destruct (generateContent env (countEvents isGenerate w + 1) req) as [r2|e2] eqn:H2.
  { exists (Returned (Some r2)), (twoAttempts req), 2%nat.
    rewrite (callWithRetries_second_ok _ _ _ _ _ H1 R1 H2).
    repeat split; try discriminate; try lia; repeat constructor. }
  destruct (isRetryableError e2) eqn:R2.
  2:{ exists (Thrown e2), (twoAttempts req), 2%nat.
      rewrite (callWithRetries_second_fatal _ _ _ _ _ H1 R1 H2 R2).
      repeat split; try discriminate; try lia; repeat constructor. }
  eexists _, (threeAttempts req), 3%nat.
  rewrite (callWithRetries_third _ _ _ _ _ H1 R1 H2 R2).
  split; [reflexivity|].
  split; [destruct (generateContent env (countEvents isGenerate w + 2) req); discriminate|].
  repeat split; try lia; repeat constructor.
Qed.

(** X10.  Whatever the provider answers, [callWithRetries] sends the request
    at least once and at most three times, sleeps 1200 ms and then 2400 ms
    between the attempts and at no other time, asks for nothing else, and
    ends with a response or with an error: it never returns [undefined]. *)
Theorem X10_callWithRetries_is_bounded (env : Env) (req : Request) (w : World) :
  exists o evs k,
    callWithRetries (generateContentCall env req) w = (o, logged w evs)
    /\ o <> Returned None
    /\ (1 <= k <= 3)%nat
    /\ filter isGenerate evs = repeat (EvGenerate req) k
    /\ sleeps evs = firstn (k - 1) [retryDelay 1; retryDelay 2]
    /\ Forall (fun ev => isListModels ev = false) evs.
Proof. apply callWithRetries_outcome. Qed.

(** X11.  An error that is not retryable but is a quota, permission or
    not-found error makes the loop leave the candidate after a single call
    and go on with the next one, the failure recorded and a warning
    written. *)
Theorem X11_access_error_falls_back_at_once
    (env : Env) (userPrompt systemPrompt : string) (jiraTickets : list string)
    (modelName next : string) (rest : list string) (errors : list (string * string))
    (w : World) (e : JsError) :
  let req := mkRequest modelName userPrompt systemPrompt in
  generateContent env (countEvents isGenerate w) req = GenFail e ->
  isRetryableError e = false ->
  isQuotaOrPermissionError e || isModelNotFound e = true ->
  tryModels env userPrompt systemPrompt jiraTickets (modelName :: next :: rest) errors w
  = tryModels env userPrompt systemPrompt jiraTickets (next :: rest)
      (errors ++ [(modelName, messageOr e "Unknown error")])
      (logged w [EvGenerate req; EvWarn (WarnModelUnavailable modelName (err_message e))]).
Proof.
  intros req H R A.
  rewrite (tryModels_call_thrown_next env userPrompt systemPrompt jiraTickets modelName
             (next :: rest) errors w e (logged w [EvGenerate req])).
  - now rewrite logged_logged.
  - now apply callWithRetries_first_fatal.
  - unfold shouldFallbackToNextModel. now rewrite A.
Qed.

Lemma X11_access_error_falls_back_at_once_witness :
  tryModels firstForbidden "commits" "prompt" []
    ("gemini-2.5-flash" :: "gemini-2.0-flash" :: []) [] initialWorld
  = tryModels firstForbidden "commits" "prompt" [] ("gemini-2.0-flash" :: [])
      ([] ++ [("gemini-2.5-flash",
               messageOr (statusError 403 "The caller does not have permission")
                 "Unknown error")])
      (logged initialWorld
         [EvGenerate (mkRequest "gemini-2.5-flash" "commits" "prompt");
          EvWarn (WarnModelUnavailable "gemini-2.5-flash"
                    (err_message (statusError 403 "The caller does not have permission")))]).
Proof.
  apply (X11_access_error_falls_back_at_once firstForbidden "commits" "prompt" []
           "gemini-2.5-flash" "gemini-2.0-flash" [] [] initialWorld
           (statusError 403 "The caller does not have permission")).
  - reflexivity.
  - vm_compute. reflexivity.
  - vm_compute. reflexivity.
Defined.

(** X12.  Three retryable failures in a row on a candidate that is not the
    last: after the third call the loop goes on with the next candidate,
    without a third sleep, the last error recorded. *)
Theorem X12_exhausted_retries_fall_back
    (env : Env) (userPrompt systemPrompt : string) (jiraTickets : list string)
    (modelName next : string) (rest : list string) (errors : list (string * string))
    (w : World) (e1 e2 e3 : JsError) :
  let req := mkRequest modelName userPrompt systemPrompt in
  let n := countEvents isGenerate w in
  generateContent env n req = GenFail e1 -> isRetryableError e1 = true ->
  generateContent env (n + 1) req = GenFail e2 -> isRetryableError e2 = true ->
  generateContent env (n + 2) req = GenFail e3 -> isRetryableError e3 = true ->
  tryModels env userPrompt systemPrompt jiraTickets (modelName :: next :: rest) errors w
  = tryModels env userPrompt systemPrompt jiraTickets (next :: rest)
      (errors ++ [(modelName, messageOr e3 "Unknown error")])
      (logged w (threeAttempts req
                 ++ [EvWarn (WarnModelUnavailable modelName (err_message e3))])).
Proof.
  intros req n H1 R1 H2 R2 H3 R3.
  pose proof (callWithRetries_third env req e1 e2 w H1 R1 H2 R2) as C.
  fold n in C. rewrite H3 in C.
  rewrite (tryModels_call_thrown_next _ _ _ _ _ _ _ _ _ _ C).
  - now rewrite logged_logged.
  - unfold shouldFallbackToNextModel. rewrite R3. cbn. apply orb_true_r.
Qed.

Lemma X12_exhausted_retries_fall_back_witness :
  tryModels firstOverloaded "commits" "prompt" []
    ("gemini-2.5-flash" :: "gemini-2.0-flash" :: []) [] initialWorld
  = tryModels firstOverloaded "commits" "prompt" [] ("gemini-2.0-flash" :: [])
      ([] ++ [("gemini-2.5-flash",
               messageOr (statusError 503 "The model is overloaded.") "Unknown error")])
      (logged initialWorld
         (threeAttempts (mkRequest "gemini-2.5-flash" "commits" "prompt")
          ++ [EvWarn (WarnModelUnavailable "gemini-2.5-flash"
                        (err_message (statusError 503 "The model is overloaded.")))])).
Proof.
  apply (X12_exhausted_retries_fall_back firstOverloaded "commits" "prompt" []
           "gemini-2.5-flash" "gemini-2.0-flash" [] [] initialWorld
           (statusError 503 "The model is overloaded.")
           (statusError 503 "The model is overloaded.")
           (statusError 503 "The model is overloaded."));
    (reflexivity || (vm_compute; reflexivity)).
Defined.

Example fallback_examples :
  fst (tryModels firstForbidden "commits" "prompt" []
         ["gemini-2.5-flash"; "gemini-2.0-flash"] [] initialWorld)
  = Returned (mkSummaryResult "Yesterday, I fixed the login." (Some "gemini-2.0-flash"))
  /\ contacted (trace (snd (tryModels firstOverloaded "commits" "prompt" []
                              ["gemini-2.5-flash"; "gemini-2.0-flash"] [] initialWorld)))
     = ["gemini-2.5-flash"; "gemini-2.5-flash"; "gemini-2.5-flash"; "gemini-2.0-flash"].
Proof. split; vm_compute; reflexivity. Qed.

End GeneratorMoreProofs.

(** ** More on the resolution of the candidates *)

Module ResolutionProofs.

Import Git Catalog Generator CatalogSpec GeneratorSpec CatalogProofs GeneratorProofs.
Import AggregationProofs ExtraSpec CatalogMoreProofs GeneratorMoreProofs.

Lemma dedupeModelList_NoDup items : NoDup (dedupeModelList items).
Proof. apply (dedupeLoop_spec items [] (NoDup_nil _)). Qed.

Lemma dedupeModelList_In items x :
  In x (dedupeModelList items) <-> In x items /\ x <> "".
Proof.
  unfold dedupeModelList.
  rewrite (proj2 (dedupeLoop_spec items [] (NoDup_nil _)) x). cbn. intuition.
Qed.

Lemma buildDynamicModelPreference_In names name :
  In name (buildDynamicModelPreference (Some names))
  <-> In name names /\ isStableFlash name = true.
Proof.
  pose proof (buildDynamicModelPreference_perm names) as P.
  rewrite <- filter_In. split; apply Permutation_in;
    [assumption | now apply Permutation_sym].
Qed.

(** What the listing gives, case by case. *)
Lemma loadAvailableModelInfo_cases env cfg w :
  aiClient cfg = true ->
  loadAvailableModelInfo env cfg w
  = match modelsList env (countEvents isListModels w) with
    | ListOk names =>
        (Returned (Some (fold_left addSimplified names [])), logged w [EvListModels])
    | ListFail _ =>
        if modelListingWarningLogged w
        then (Returned None, logged w [EvListModels])
        else (Returned None,
              mkWorld (availableModelInfoPromise w) (resolvedModelPreferencePromise w)
                      true (trace w ++ [EvListModels; EvWarn WarnModelListing]))
    end.
Proof.
  intros A. unfold loadAvailableModelInfo. rewrite A. cbn [negb].
  unfold tryCatch, bind at 1, listModels, bind at 1. rewrite emit_logged.
  destruct (modelsList env (countEvents isListModels w)) as [names|e]; cbn.
  - reflexivity.
  - destruct (modelListingWarningLogged w); cbn; [reflexivity|].
    unfold logged; cbn. now rewrite <- app_assoc.
Qed.

Lemma getAvailableModelInfo_cases env cfg w :
  let r := getAvailableModelInfo env cfg w in
  getAvailableModelInfo env cfg (snd r) = r
  /\ (availableModelInfoPromise w = None -> exists info, fst r = Returned info)
  /\ (exists evs,
        trace (snd r) = trace w ++ evs
        /\ filter isGenerate evs = []
        /\ (List.length (filter isListModels evs) <= 1)%nat
        /\ (modelListingWarningLogged w = true -> filter isWarning evs = [])
        /\ (availableModelInfoPromise w <> None -> evs = []))
  /\ resolvedModelPreferencePromise (snd r) = resolvedModelPreferencePromise w.
Proof.
  unfold getAvailableModelInfo.
  destruct (aiClient cfg) eqn:A; cbn [negb].
  2:{ cbn. split; [reflexivity|]. split; [now exists None|]. split; [|reflexivity].
    exists []. rewrite app_nil_r. repeat split; auto. }
  destruct (availableModelInfoPromise w) as [s|] eqn:P.
  { cbn. rewrite P. split; [reflexivity|]. split; [discriminate|]. split; [|reflexivity].
    exists []. rewrite app_nil_r. repeat split; auto. }
  rewrite (loadAvailableModelInfo_cases env cfg w A).
  destruct (modelsList env (countEvents isListModels w)) as [names|e].
  - cbn. split; [reflexivity|]. split; [eauto|]. split; [|reflexivity].
    exists [EvListModels]. repeat split; auto. now intros [].
  - destruct (modelListingWarningLogged w) eqn:L.
    + cbn. split; [reflexivity|]. split; [eauto|]. split; [|reflexivity].
      exists [EvListModels]. repeat split; auto. now intros [].
    + cbn. split; [reflexivity|]. split; [eauto|]. split; [|reflexivity].
      exists [EvListModels; EvWarn WarnModelListing].
      repeat split; auto; [discriminate | now intros []].
Qed.

(** X13.  The listing of the models is memoized too, and it never fails:
    a second [getAvailableModelInfo] gives the first one's result in an
    unchanged world; from an empty memo the result is a value ([null] when
    the listing failed), never a rejection; the call lists the models at
    most once, generates nothing, writes no warning when the warning has been
    written before, does nothing at all when the memo is filled, and leaves
    the memo of the resolved candidates alone. *)
Theorem X13_model_listing_is_memoized (env : Env) (cfg : Config) (w : World) :
  let r := getAvailableModelInfo env cfg w in
  getAvailableModelInfo env cfg (snd r) = r
  /\ (availableModelInfoPromise w = None -> exists info, fst r = Returned info)
  /\ (exists evs,
        trace (snd r) = trace w ++ evs
        /\ filter isGenerate evs = []
        /\ (List.length (filter isListModels evs) <= 1)%nat
        /\ (modelListingWarningLogged w = true -> filter isWarning evs = [])
        /\ (availableModelInfoPromise w <> None -> evs = []))
  /\ resolvedModelPreferencePromise (snd r) = resolvedModelPreferencePromise w.
Proof. apply getAvailableModelInfo_cases. Qed.

(** What [resolveModelPreference] can return. *)
Lemma resolveModelPreference_returned env cfg w l w' :
  resolveModelPreference env cfg w = (Returned l, w') ->
  (exists m, requestedModel cfg = Some m /\ truthy m = true /\ l = [m] /\ w' = w)
  \/ ((forall m, requestedModel cfg = Some m -> truthy m = false)
      /\ (l = [] \/ exists names,
             l = dedupeModelList (buildDynamicModelPreference (Some names)))).
Proof.
  unfold resolveModelPreference.
  assert (D : forall o,
    (let (o', w1) := getAvailableModelInfo env cfg w in
     match o' with
     | Returned modelInfo =>
         match modelInfo with
         | None => ret []
         | Some simpleNames =>
             if (List.length simpleNames =? 0)%nat then ret []
             else ret (dedupeModelList (buildDynamicModelPreference (Some simpleNames)))
         end w1
     | Thrown e => (Thrown e, w1)
     end) = (Returned l, o) ->
    l = [] \/ exists names, l = dedupeModelList (buildDynamicModelPreference (Some names))).
  { intros o. destruct (getAvailableModelInfo env cfg w) as [[[names|]|e] w1];
      [|cbn; intros [= <- _]; now left | discriminate].
    destruct (List.length names =? 0)%nat; cbn; intros [= <- _]; [now left|].
    right. now exists names. }
  destruct (requestedModel cfg) as [m|] eqn:R.
  - destruct (truthy m) eqn:T.
    + cbn. intros [= <- <-]. left. now exists m.
    + intros H. right. split; [now intros ? [= <-]|]. exact (D _ H).
  - intros H. right. split; [discriminate|]. exact (D _ H).
Qed.

(** X14.  The candidate list that a first [getResolvedModelPreference]
    returns: without repetition and without an empty name; it is the model
    asked for alone when one was asked for, and otherwise every candidate is
    a Gemini flash model that is not experimental. *)
Theorem X14_resolved_candidates
    (env : Env) (cfg : Config) (w w' : World) (candidates : list string) :
  resolvedModelPreferencePromise w = None ->
  getResolvedModelPreference env cfg w = (Returned candidates, w') ->
  NoDup candidates
  /\ Forall (fun name => name <> "") candidates
  /\ match requestedModel cfg with
     | Some model =>
         if truthy model then candidates = [model]
         else Forall (fun name => isStableFlash name = true) candidates
     | None => Forall (fun name => isStableFlash name = true) candidates
     end.
Proof.
  intros P. unfold getResolvedModelPreference. rewrite P.
  destruct (resolveModelPreference env cfg w) as [o w1] eqn:E.
  intros [= -> _].
  destruct (resolveModelPreference_returned _ _ _ _ _ E)
    as [(m & R & T & -> & _) | (R & D)].
  - rewrite R, T. split; [repeat constructor; now intros []|].
    split; [|reflexivity]. constructor; [|constructor].
    intros ->. discriminate.
  - assert (S : NoDup candidates /\ Forall (fun name => name <> "") candidates
                /\ Forall (fun name => isStableFlash name = true) candidates).
    { destruct D as [-> | (names & ->)]; [repeat constructor|].
      split; [apply dedupeModelList_NoDup|].
      split; apply Forall_forall; intros x Hx; apply dedupeModelList_In in Hx.
      - apply Hx.
      - destruct Hx as [Hx _]. now apply buildDynamicModelPreference_In in Hx. }
    destruct S as (S1 & S2 & S3). split; [assumption|]. split; [assumption|].
    destruct (requestedModel cfg) as [m|]; [|assumption].
    now rewrite (R m eq_refl).
Qed.

Lemma X14_resolved_candidates_witness :
  NoDup ["gemini-2.5-flash"; "gemini-2.0-flash"]
  /\ Forall (fun name => name <> "") ["gemini-2.5-flash"; "gemini-2.0-flash"]
  /\ Forall (fun name => isStableFlash name = true)
       ["gemini-2.5-flash"; "gemini-2.0-flash"].
Proof.
  exact (X14_resolved_candidates mixedDiscovery liveConfig initialWorld
           (snd (getResolvedModelPreference mixedDiscovery liveConfig initialWorld))
           ["gemini-2.5-flash"; "gemini-2.0-flash"]
           eq_refl ltac:(vm_compute; reflexivity)).
Defined.

Lemma filter_provider_calls evs :
  Forall (fun ev => isListModels ev = false) evs ->
  filter isProviderCall evs = filter isGenerate evs.
Proof.
  induction 1 as [|ev evs H _ IH]; [reflexivity|].
  cbn [filter]. unfold isProviderCall at 1. rewrite H, IH. reflexivity.
Qed.

(** X15.  When a model is asked for by name, [generateSummary] skips the
    discovery: the only provider calls of the run are one to three requests
    to that model, and the run ends with a summary of that model or with the
    error that names it. *)
Theorem X15_override_skips_discovery
    (env : Env) (cfg : Config) (getDateRelativeText : list CommitItem -> string)
    (commits : list CommitItem) (model : string) (w : World) :
  commits <> [] ->
  demoMode cfg = false ->
  aiClient cfg = true ->
  requestedModel cfg = Some model ->
  truthy model = true ->
  resolvedModelPreferencePromise w = None ->
  exists o w' evs k,
    generateSummary env cfg getDateRelativeText commits w = (o, w')
    /\ trace w' = trace w ++ evs
    /\ (1 <= k <= 3)%nat
    /\ filter isProviderCall evs
       = repeat (EvGenerate (requestFor getDateRelativeText commits model)) k
    /\ match o with
       | Returned r => modelName r = Some model
       | Thrown e => exists message hint,
           e = newError (failedWithModel model message hint)
       end.
Proof.
  intros NE D A R T P.
  unfold generateSummary.
  destruct commits as [|c commits]; [contradiction|].
  cbn [List.length Nat.eqb]. rewrite D, A. cbn [negb].
  unfold bind at 1, getResolvedModelPreference. rewrite P.
  unfold resolveModelPreference. rewrite R, T. cbn [ret List.length Nat.eqb].
  set (w1 := mkWorld _ _ _ _).
  set (up := userPromptFor _). set (sp := systemPromptFor _ _).
  set (tickets := extractJiraTickets _).
  destruct (callWithRetries_outcome env (mkRequest model up sp) w1)
    as (o & evs & k & C & NN & K & G & _ & L).
  assert (F : filter isProviderCall evs
              = repeat (EvGenerate (requestFor getDateRelativeText (c :: commits) model)) k).
  { rewrite (filter_provider_calls _ L). exact G. }
  destruct o as [[r|]|e]; [| contradiction |].
  - destruct (truthy (extractResponseText (Some r))) eqn:Tr.
    + rewrite (tryModels_call_ok _ _ _ _ _ _ _ _ _ _ C Tr).
      eexists _, _, evs, k. repeat split; try reflexivity; try apply K. exact F.
    + rewrite (tryModels_call_empty _ _ _ _ _ _ _ _ _ _ C Tr).
      eexists _, _, evs, k. repeat split; try reflexivity; try apply K; [exact F|].
      eauto.
  - rewrite (tryModels_call_thrown_last env up sp tickets model [] [] w1 e _ C eq_refl).
    eexists _, _, evs, k. repeat split; try reflexivity; try apply K; [exact F|].
    eauto.
Qed.

Lemma X15_override_skips_discovery_witness :
  exists o w' evs k,
    generateSummary overloadedTwice (overrideConfig "gemini-2.0-flash")
      (fun _ => "Yesterday") oneCommit initialWorld = (o, w')
    /\ trace w' = trace initialWorld ++ evs
    /\ (1 <= k <= 3)%nat
    /\ filter isProviderCall evs
       = repeat (EvGenerate (requestFor (fun _ => "Yesterday") oneCommit
                               "gemini-2.0-flash")) k
    /\ match o with
       | Returned r => modelName r = Some "gemini-2.0-flash"
       | Thrown e => exists message hint,
           e = newError (failedWithModel "gemini-2.0-flash" message hint)
       end.
Proof.
  apply (X15_override_skips_discovery overloadedTwice (overrideConfig "gemini-2.0-flash")
           (fun _ => "Yesterday") oneCommit "gemini-2.0-flash" initialWorld);
    try reflexivity.
  discriminate.
Defined.

(** X16.  A discovery that fails, or that lists no Gemini flash model that
    is not experimental, ends [generateSummary] with the error "No Gemini
    models are available" after the one listing call and without a single
    generation request. *)
Theorem X16_nothing_discovered_nothing_generated
    (env : Env) (cfg : Config) (getDateRelativeText : list CommitItem -> string)
    (commits : list CommitItem) (w : World) :
  commits <> [] ->
  demoMode cfg = false ->
  aiClient cfg = true ->
  requestedModel cfg = None ->
  freshMemo w ->
  match modelsList env (countEvents isListModels w) with
  | ListOk names => filter isStableFlash (fold_left addSimplified names []) = []
  | ListFail _ => True
  end ->
  exists w',
    generateSummary env cfg getDateRelativeText commits w
    = (Thrown (newError noModelsAvailable), w')
    /\ countEvents isListModels w' = (countEvents isListModels w + 1)%nat
    /\ countEvents isGenerate w' = countEvents isGenerate w
    /\ resolvedModelPreferencePromise w' = Some (Returned []).
Proof.
  intros NE D A R [P1 P2] H.
  unfold generateSummary.
  destruct commits as [|c commits]; [contradiction|].
  cbn [List.length Nat.eqb]. rewrite D, A. cbn [negb].
  unfold bind at 1, getResolvedModelPreference. rewrite P2.
  unfold resolveModelPreference. rewrite R.
  unfold bind at 1, getAvailableModelInfo. rewrite A. cbn [negb]. cbv beta.
  rewrite P1.
  rewrite (loadAvailableModelInfo_cases env cfg w A).
  destruct (modelsList env (countEvents isListModels w)) as [names|e].
  - set (simple := fold_left addSimplified names []) in *.
    assert (E : dedupeModelList (buildDynamicModelPreference (Some simple)) = []).
    { assert (B : buildDynamicModelPreference (Some simple) = []).
      { apply Permutation_nil. apply Permutation_sym.
        rewrite <- H. apply buildDynamicModelPreference_perm. }
      rewrite B. reflexivity. }
    destruct (List.length simple =? 0)%nat; cbn [ret]; [|rewrite E];
      cbn [List.length Nat.eqb throw];
      (eexists; split; [reflexivity|]);
      unfold countEvents; cbn [trace logged]; rewrite !filter_app, !length_app; cbn;
      (split; [lia|]); (split; [lia | reflexivity]).
  - destruct (modelListingWarningLogged w); cbn [ret List.length Nat.eqb throw];
      (eexists; split; [reflexivity|]);
      unfold countEvents; cbn [trace logged]; rewrite !filter_app, !length_app; cbn;
      (split; [lia|]); (split; [lia | reflexivity]).
Qed.

Lemma X16_nothing_discovered_nothing_generated_witness :
  exists w',
    generateSummary (discoveryEnv (ListFail (statusError 403 "Forbidden"))) liveConfig
      (fun _ => "Yesterday") oneCommit initialWorld
    = (Thrown (newError noModelsAvailable), w')
    /\ countEvents isListModels w' = (countEvents isListModels initialWorld + 1)%nat
    /\ countEvents isGenerate w' = countEvents isGenerate initialWorld
    /\ resolvedModelPreferencePromise w' = Some (Returned []).
Proof.
  apply (X16_nothing_discovered_nothing_generated
           (discoveryEnv (ListFail (statusError 403 "Forbidden"))) liveConfig
           (fun _ => "Yesterday") oneCommit initialWorld);
    try reflexivity; try discriminate.
  split; reflexivity.
Defined.

Example nothing_stable_discovered :
  fst (generateSummary
         (discoveryEnv (ListOk [Some "models/gemini-2.5-flash-preview";
                                Some "models/gemini-2.5-pro"]))
         liveConfig (fun _ => "Yesterday") oneCommit initialWorld)
  = Thrown (newError noModelsAvailable).
Proof. vm_compute. reflexivity. Qed.

End ResolutionProofs.

(** ** The run as a whole *)

Module RunProofs.

Import Git Catalog Generator Main MainSpec MainProofs.

(** Once the aggregation has returned the commits, [main] goes on with
    them. *)
Lemma main_aggregation_returned env cfg calculateDateRange getDateRelativeText w commits w1 :
  aggregationStage env cfg calculateDateRange w = (Returned commits, w1) ->
  main env cfg calculateDateRange getDateRelativeText w
  = tryCatch
      (if (List.length commits =? 0)%nat then ret NoCommitsFound
       else if negb (demoMode cfg) then
         result <- generateSummary env cfg getDateRelativeText (map CommitObject commits) ;;
         ret (PrintedSummary result)
       else ret (RawCommitsOnly commits))
      (fun error => ret (ExitError (err_message error))) w1.
Proof.
  unfold aggregationStage, main, tryCatch. unfold bind at 1 2 3 4 5 6 7 8 9 10, settled.
  fold (repoPathOf cfg).
  destruct (getGitUser env w) as [[user|e0] w0]; [|intros H; now inversion H].
  destruct calculateDateRange as [dateRange|e0]; [|intros H; now inversion H].
  destruct (getCurrentBranch env (repoPathOf cfg) w0) as [[cb|e0] w2];
    [|intros H; now inversion H].
  destruct (getRecentLocalBranches env (repoPathOf cfg) cb (recentBranchesCount cfg) w2)
    as [[extra|e0] w3]; [|intros H; now inversion H].
  intros H. rewrite H. reflexivity.
Qed.

(** X17.  [main] never rejects: every error of a stage ends the run as
    [process.exit(1)].  In the demo mode the run sends nothing to the
    provider, and it prints no generated summary; and when the aggregation
    finds no commit the run ends at once with "No commits found", again with
    nothing sent to the provider. *)
Theorem X17_runs_without_the_provider
    (env : Env) (cfg : Config) (calculateDateRange : Outcome DateRange)
    (getDateRelativeText : list CommitItem -> string) (w : World) :
  let r := main env cfg calculateDateRange getDateRelativeText w in
  (exists result, fst r = Returned result)
  /\ (demoMode cfg = true ->
      countEvents isProviderCall (snd r) = countEvents isProviderCall w
      /\ forall result, fst r <> Returned (PrintedSummary result))
  /\ (forall w1, aggregationStage env cfg calculateDateRange w = (Returned [], w1) ->
      r = (Returned NoCommitsFound, w1)
      /\ countEvents isProviderCall w1 = countEvents isProviderCall w).
Proof.
  cbv zeta.
  pose proof (quiet_aggregationStage env cfg calculateDateRange w) as Q.
  destruct (aggregationStage env cfg calculateDateRange w) as [[commits|e] w1] eqn:E.
  - rewrite (main_aggregation_returned _ _ _ getDateRelativeText _ _ _ E).
    cbn [snd] in Q. split; [|split].
    + unfold tryCatch.
      destruct (List.length commits =? 0)%nat; [cbn; eauto|].
      destruct (negb (demoMode cfg)); [|cbn; eauto].
      unfold bind.
      destruct (generateSummary env cfg getDateRelativeText (map CommitObject commits) w1)
        as [[r|e] w2]; cbn; eauto.
    + intros D. rewrite D. cbn [negb].
      destruct (List.length commits =? 0)%nat; cbn; (split; [exact Q | discriminate]).
    + intros w2 [= -> ->]. cbn. split; [reflexivity | exact Q].
  - rewrite (main_aggregation_thrown _ _ _ getDateRelativeText _ _ _ E).
    cbn [snd] in Q. cbn. split; [eauto|]. split; [|discriminate].
    intros _. split; [exact Q | discriminate].
Qed.

End RunProofs.

(** ** The text of a response *)

Module ResponseProofs.

Import Generator.

Lemma trimEnd_idempotent s : trimEnd (trimEnd s) = trimEnd s.
Proof.
  induction s as [|c s IH]; [reflexivity|]. cbn [trimEnd].
  destruct ((trimEnd s =? "") && isWhiteSpace c) eqn:E; [reflexivity|].
  cbn [trimEnd]. rewrite IH, E. reflexivity.
Qed.

Lemma trimStart_head s :
  trimStart s = "" \/ exists c t, trimStart s = String c t /\ isWhiteSpace c = false.
Proof.
  induction s as [|c s IH]; [now left|]. cbn [trimStart].
  destruct (isWhiteSpace c) eqn:W; [assumption|]. right. eauto.
Qed.

Lemma trimStart_trim s : trimStart (trim s) = trim s.
Proof.
  unfold trim. destruct (trimStart_head s) as [-> | (c & t & -> & W)]; [reflexivity|].
  cbn [trimEnd]. rewrite W, andb_false_r. cbn [trimStart]. now rewrite W.
Qed.

Lemma trimEnd_trim s : trimEnd (trim s) = trim s.
Proof. apply trimEnd_idempotent. Qed.

Lemma trim_trim s : trim (trim s) = trim s.
Proof. unfold trim at 1. now rewrite trimStart_trim, trimEnd_trim. Qed.

(** X18.  The text that [extractResponseText] gives has no white space at
    either end, whatever the response: it is the trimmed [text] field or the
    trimmed join of the parts, and trimming it again changes nothing. *)
Theorem X18_response_text_is_trimmed (response : option Response) :
  let t := extractResponseText response in
  trim t = t /\ trimStart t = t /\ trimEnd t = t.
Proof.
  assert (T : forall s, trim (trim s) = trim s /\ trimStart (trim s) = trim s
                        /\ trimEnd (trim s) = trim s).
  { intros s. split; [apply trim_trim|]. split; [apply trimStart_trim | apply trimEnd_trim]. }
  destruct response as [response|]; cbn [extractResponseText]; [|now repeat split].
  destruct (text response) as [t|]; [|apply T].
  destruct (truthy (trim t)); apply T.
Qed.

End ResponseProofs.

(** ** The Jira tickets of a summary *)

Module TicketsMoreProofs.

Import Git Generator GeneratorSpec JiraSpec SortProofs JiraProofs TicketsProofs OrderProofs.
Import CatalogMoreProofs.

Lemma tickets_In (commits : list CommitItem) (t : string) :
  In t (extractJiraTickets commits)
  <-> exists m, In m (map messageOf commits) /\ In t (jiraMatches m).
Proof.
  unfold extractJiraTickets. rewrite sort_In, collect_In. cbn [In]. split.
  - intros [[] | (c & Hc & Ht)]. exists (messageOf c). split; [now apply in_map | assumption].
  - intros (m & Hm & Ht). right. apply in_map_iff in Hm as (c & <- & Hc). eauto.
Qed.

Lemma tickets_ascending (commits : list CommitItem) :
  StronglySorted (fun a b => String.ltb a b = true) (extractJiraTickets commits).
Proof. apply sort_ascending, collect_NoDup. constructor. Qed.

(** X19.  The tickets found depend on the set of the commit messages only:
    not on the order of the commits, not on how often a message occurs, not
    on whether a commit is a string or an object. *)
Theorem X19_tickets_depend_on_the_messages_only (commits1 commits2 : list CommitItem) :
  (forall m, In m (map messageOf commits1) <-> In m (map messageOf commits2)) ->
  extractJiraTickets commits1 = extractJiraTickets commits2.
Proof.
  intros H. apply ascending_unique; try apply tickets_ascending.
  intros t. rewrite !tickets_In. split; intros (m & Hm & Ht); exists m;
    (split; [now apply H | assumption]).
Qed.

Lemma X19_tickets_depend_on_the_messages_only_witness :
  extractJiraTickets
    [CommitText "fix ABC-12 login, see XY-7"; CommitText "ABC-12: follow-up"]
  = extractJiraTickets
      [CommitObject (mkCommit "ABC-12: follow-up" "2024-01-15" "9c1d" ["main"]);
       CommitText "fix ABC-12 login, see XY-7"; CommitText "ABC-12: follow-up"].
Proof.
  apply X19_tickets_depend_on_the_messages_only.
  intros m. simpl. tauto.
Defined.

(** *** [includes] and concatenation *)

Lemma prefix_append a b : prefix a (a +++ b) = true.
Proof.
  induction a as [|c a IH]; [apply prefix_empty|]. cbn.
  destruct (ascii_dec c c); [assumption | contradiction].
Qed.

Lemma prefix_append_l t : forall a b, prefix t a = true -> prefix t (a +++ b) = true.
Proof.
  induction t as [|c t IH]; intros a b; [intros _; apply prefix_empty|].
  destruct a as [|d a]; cbn; [discriminate|].
  destruct (ascii_dec c d); [apply IH | discriminate].
Qed.

Lemma includes_prefix s t : prefix t s = true -> includes s t = true.
Proof. intros H. destruct s; cbn [includes]; now rewrite H. Qed.

Lemma includes_append_r a b t : includes b t = true -> includes (a +++ b) t = true.
Proof.
  intros H. induction a as [|c a IH]; [assumption|].
  cbn [String.append includes]. rewrite IH. apply orb_true_r.
Qed.

Lemma includes_append_l a b t : includes a t = true -> includes (a +++ b) t = true.
Proof.
  induction a as [|c a IH]; cbn [includes String.append].
  - rewrite orb_false_r. intros H. apply includes_prefix.
    now apply (prefix_append_l t "" b).
  - intros H. apply orb_true_iff in H as [H | H].
    + pose proof (prefix_append_l t (String c a) b H) as P.
      cbn [String.append] in P. rewrite P. reflexivity.
    + rewrite (IH H). apply orb_true_r.
Qed.

Lemma includes_refl s : includes s s = true.
Proof.
  apply includes_prefix. rewrite <- (append_nil_r s) at 2. apply prefix_append.
Qed.

Lemma includes_join sep (l : list string) t :
  In t l -> includes (join sep l) t = true.
Proof.
  unfold join. induction l as [|h l IH]; [intros []|].
  intros [-> | H]; cbn [String.concat].
  - destruct l; [apply includes_refl|]. apply includes_prefix, prefix_append.
  - destruct l as [|h' l]; [destruct H|].
    apply includes_append_r, includes_append_r, IH, H.
Qed.

Lemma includes_jiraLine tickets t :
  In t tickets -> includes (jiraLine tickets) t = true.
Proof.
  intros H. unfold jiraLine.
  repeat apply includes_append_r. now apply includes_join.
Qed.

Lemma generateDemoSummary_tickets datePrefix commits t :
  In t (extractJiraTickets commits) ->
  includes (generateDemoSummary datePrefix commits) t = true.
Proof.
  intros H. unfold generateDemoSummary.
  destruct (extractJiraTickets commits) as [|first rest]; [destruct H|].
  cbn [List.length Nat.ltb Nat.leb]. now apply includes_append_r, includes_jiraLine.
Qed.

(** X20.  Whenever [generateSummary] returns a summary for commits that
    mention Jira tickets, the summary contains the first ticket: the demo
    summary lists the tickets, and the generated text gets the line
    "Jira Tickets: ..." appended when the first ticket is missing from it. *)
Theorem X20_summary_names_the_first_ticket
    (env : Env) (cfg : Config) (getDateRelativeText : list CommitItem -> string)
    (commits : list CommitItem) (w w' : World) (r : SummaryResult)
    (first : string) (rest : list string) :
  generateSummary env cfg getDateRelativeText commits w = (Returned r, w') ->
  extractJiraTickets commits = first :: rest ->
  includes (summary r) first = true.
Proof.
  intros G T.
  destruct commits as [|c commits]; [discriminate|].
  destruct (demoMode cfg) eqn:D.
  - unfold generateSummary in G. cbn [List.length Nat.eqb] in G. rewrite D in G.
    cbn [ret] in G. injection G as <- _. cbn [summary].
    apply generateDemoSummary_tickets. rewrite T. now left.
  - destruct (generateSummary_returned env cfg getDateRelativeText (c :: commits) w r w')
      as (n & req & response & _ & S); [discriminate | assumption | assumption |].
    rewrite S, withJiraLine_cases, T.
    destruct (includes (extractResponseText (Some response)) first) eqn:I; [assumption|].
    apply includes_append_r, includes_jiraLine. now left.
Qed.

Lemma X20_summary_names_the_first_ticket_witness :
  includes
    (summary (mkSummaryResult
                ("Yesterday, I fixed the login." +++ jiraLine ["ABC-12"; "XY-7"])
                (Some "gemini-2.5-flash")))
    "ABC-12" = true.
Proof.
  apply (X20_summary_names_the_first_ticket (answering "Yesterday, I fixed the login.")
           forcedModelConfig (fun _ => "Yesterday") ticketCommits initialWorld
           (snd (generateSummary (answering "Yesterday, I fixed the login.")
                   forcedModelConfig (fun _ => "Yesterday") ticketCommits initialWorld))
           _ "ABC-12" ["XY-7"]).
  - vm_compute. reflexivity.
  - vm_compute. reflexivity.
Defined.

(** X21.  The demo summary starts with the date text followed by "..." and
    a line break, and it contains every Jira ticket of the commits. *)
Theorem X21_demo_summary (datePrefix : string) (commits : list CommitItem) :
  prefix (datePrefix +++ "..." +++ LF) (generateDemoSummary datePrefix commits) = true
  /\ forall t, In t (extractJiraTickets commits) ->
       includes (generateDemoSummary datePrefix commits) t = true.
Proof.
  split; [|intros t; apply generateDemoSummary_tickets].
  unfold generateDemoSummary.
  set (points := join LF _).
  assert (P : prefix (datePrefix +++ "..." +++ LF)
                (datePrefix +++ "..." +++ LF +++ points) = true).
  { replace (datePrefix +++ "..." +++ LF +++ points)
      with ((datePrefix +++ "..." +++ LF) +++ points)
      by now rewrite !append_assoc.
    apply prefix_append. }
  destruct (0 <? _)%nat; [now apply prefix_append_l | assumption].
Qed.

End TicketsMoreProofs.

(** ** The names listed and their order *)

Module ListingProofs.

Import Catalog CatalogSpec CatalogProofs SortProofs AggregationProofs.
Import ExtraSpec CatalogMoreProofs.

Lemma fold_addSimplified (names : list (option string)) : forall acc,
  (NoDup acc -> NoDup (fold_left addSimplified names acc))
  /\ forall s, In s (fold_left addSimplified names acc)
       <-> In s acc
           \/ (s <> "" /\ exists raw, In (Some raw) names
                                      /\ simplifyModelName (Some raw) = Some s).
Proof.
  induction names as [|name names IH]; intros acc; cbn [fold_left].
  - split; [auto|]. intros s. split; [auto | intros [H | (_ & raw & [] & _)]; exact H].
  - destruct (IH (addSimplified acc name)) as [N M]. split.
    + intros ND. apply N. unfold addSimplified.
      destruct (simplifyModelName name) as [s|]; [|assumption].
      destruct (truthy s); [now apply setAdd_NoDup | assumption].
    + intros s. rewrite M. unfold addSimplified.
      destruct name as [raw|].
      2:{ cbn. split; [intros [H | (Ns & r & Hr & E)]; [now left | right; eauto]|].
          intros [H | (Ns & r & [Hr | Hr] & E)]; [now left | discriminate | right; eauto]. }
      destruct (simplifyModelName (Some raw)) as [simple|] eqn:S.
      * unfold truthy. destruct (String.eqb_spec simple "") as [->|Ne]; cbn [negb].
        -- split; [intros [H | (Ns & r & Hr & E)]; [now left | right; cbn; eauto]|].
           intros [H | (Ns & r & [[= <-] | Hr] & E)]; [now left | congruence | right; eauto].
        -- rewrite setAdd_In.
           split; [intros [[H | ->] | (Ns & r & Hr & E)];
                   [now left | right; cbn; eauto | right; cbn; eauto]|].
           intros [H | (Ns & r & [[= <-] | Hr] & E)];
             [left; now left | left; right; congruence | right; eauto].
      * split; [intros [H | (Ns & r & Hr & E)]; [now left | right; cbn; eauto]|].
        intros [H | (Ns & r & [[= <-] | Hr] & E)]; [now left | congruence | right; eauto].
Qed.

(** X22.  The set of simple names that a listing gives: without repetition,
    and holding exactly the non-empty results of [simplifyModelName] on the
    names listed; so no name of the set is empty or contains a slash. *)
Theorem X22_listed_names (names : list (option string)) :
  let simpleNames := fold_left addSimplified names [] in
  NoDup simpleNames
  /\ (forall s, In s simpleNames
        <-> s <> "" /\ exists raw, In (Some raw) names
                                   /\ simplifyModelName (Some raw) = Some s)
  /\ Forall (fun s => s <> "" /\ includes s "/" = false) simpleNames.
Proof.
  cbv zeta. destruct (fold_addSimplified names []) as [N M].
  assert (M' : forall s, In s (fold_left addSimplified names [])
        <-> s <> "" /\ exists raw, In (Some raw) names
                                   /\ simplifyModelName (Some raw) = Some s).
  { intros s. rewrite M. cbn [In]. tauto. }
  split; [apply N; constructor|]. split; [exact M'|].
  apply Forall_forall. intros s Hs. apply M' in Hs as (Ns & raw & _ & E).
  split; [assumption|]. now apply (simplifyModelName_cases raw).
Qed.

(** Versions of sixteen digits and more: [parseFloat] gives the number
    nearest to the numeral, so two names whose versions differ in the
    seventeenth digit get different scores, and the sort puts the higher
    one first. *)
Example long_versions_are_told_apart :
  parseFloat "2" "043103993158279" = 0x1.05846e80788d7p+1%float
  /\ parseFloat "2" "0431039931582794" = 0x1.05846e80788d8p+1%float
  /\ parseFloat "9007199254740993" "" = 9007199254740992%float
  /\ buildDynamicModelPreference
       (Some ["gemini-2.043103993158279-flash"; "gemini-2.0431039931582794-flash"])
     = ["gemini-2.0431039931582794-flash"; "gemini-2.043103993158279-flash"].
Proof. repeat split; vm_compute; reflexivity. Qed.

Lemma sortBy_ordered (names : list string) :
  inScoreOrder names = true -> sortBy byScoreDescending names = names.
Proof.
  induction names as [|a rest IH]; [reflexivity|].
  cbn [inScoreOrder]. destruct rest as [|b rest]; [reflexivity|].
  intros H. apply andb_true_iff in H as [Hab H].
  change (sortBy byScoreDescending (a :: b :: rest))
    with (insertBy byScoreDescending a (sortBy byScoreDescending (b :: rest))).
  rewrite (IH H). cbn [insertBy].
  apply negb_true_iff in Hab. now rewrite Hab.
Qed.

(** X23.  When the stable flash models are listed with scores that do not
    go up, [buildDynamicModelPreference] keeps them as they are listed: the
    sort moves no name in front of a name with the same or a higher score, so
    equal scores keep the order of the discovery. *)
Theorem X23_ordered_names_keep_their_order (names : list string) :
  inScoreOrder (filter isStableFlash names) = true ->
  buildDynamicModelPreference (Some names) = filter isStableFlash names.
Proof.
  intros H. unfold buildDynamicModelPreference.
  destruct names as [|n names]; [reflexivity|]. cbn [List.length Nat.eqb].
  erewrite filter_ext; [now apply sortBy_ordered|].
  intros name. unfold isStableFlash.
  destruct (truthy name); cbn [negb andb]; [|reflexivity].
  destruct (includes (toLowerCase name) "gemini"); cbn [negb orb andb]; [|reflexivity].
  now destruct (includes (toLowerCase name) "flash").
Qed.

Lemma X23_ordered_names_keep_their_order_witness :
  buildDynamicModelPreference
    (Some ["gemini-2.5-flash"; "gemini-2.0-flash-002"; "gemini-2.5-pro";
           "gemini-2.0-flash-001"])
  = filter isStableFlash
      ["gemini-2.5-flash"; "gemini-2.0-flash-002"; "gemini-2.5-pro";
       "gemini-2.0-flash-001"].
Proof.
  apply X23_ordered_names_keep_their_order. vm_compute. reflexivity.
Defined.

End ListingProofs.

(** ** The aggregate error message *)

Module AggregateMessageProofs.

Import Generator CatalogMoreProofs TicketsMoreProofs.

(** X24.  The message that [formatAggregateError] builds for a list of
    failures that is not empty contains "model: message" for every failure
    and ends with the model and the message of the last one. *)
Theorem X24_aggregate_message_names_every_failure (errors : list (string * string)) :
  errors <> [] ->
  (forall model message, In (model, message) errors ->
     includes (formatAggregateError errors) (model +++ ": " +++ message) = true)
  /\ endsWith (formatAggregateError errors)
       (". Last error from " +++ fst (last errors ("", "")) +++ ": "
        +++ snd (last errors ("", ""))) = true.
Proof.
  intros NE. unfold formatAggregateError.
  destruct errors as [|e errors]; [contradiction|]. cbn [List.length Nat.eqb].
  split.
  - intros model message H.
    apply includes_append_r, includes_append_l, includes_join.
    apply in_map_iff. now exists (model, message).
  - apply endsWith_app, endsWith_app, endsWith_refl.
Qed.

Lemma X24_aggregate_message_names_every_failure_witness :
  (forall model message,
     In (model, message) [("gemini-2.5-flash", "quota"); ("gemini-2.0-flash", "not found")] ->
     includes (formatAggregateError
                 [("gemini-2.5-flash", "quota"); ("gemini-2.0-flash", "not found")])
       (model +++ ": " +++ message) = true)
  /\ endsWith (formatAggregateError
                 [("gemini-2.5-flash", "quota"); ("gemini-2.0-flash", "not found")])
       (". Last error from "
        +++ fst (last [("gemini-2.5-flash", "quota"); ("gemini-2.0-flash", "not found")]
                   ("", ""))
        +++ ": "
        +++ snd (last [("gemini-2.5-flash", "quota"); ("gemini-2.0-flash", "not found")]
                   ("", ""))) = true.
Proof.
  apply X24_aggregate_message_names_every_failure. discriminate.
Defined.

End AggregateMessageProofs.
